(** * BASIL step planning and chaining (oxasl/basil.py)

    A shallow embedding of the staged model-fitting orchestration of
    [oxasl/basil.py]: the top-level procedure [basil], the step runner
    [basil_fit], the step planner [basil_steps], the prior bookkeeping
    [_add_prior] and the two kinds of step with their [run] methods.

    Python dictionaries are finite maps from strings ([gmap string value]),
    Python floats are exact rationals ([Q]), exceptions are the left summand
    of a sum type, and the workspace object that the code reads and mutates
    is threaded explicitly through a small state-and-exception monad.
    Writes to the log are not modelled: no property below depends on them. *)

From Stdlib Require Import QArith Qminmax Lqa.
From stdpp Require Import base option list strings pretty gmap.

Local Open Scope string_scope.

(** ** Data model *)

(** An image (fsl [Image]): a name and its voxel data, flattened. *)
Record Image := { img_name : string; img_data : list Q }.

(** ASL data ([AslImage]): inversion times, repeat counts, and the volume. *)
Record AslImage := { tis : list Q; rpts : list Z; asl_img : Image }.

(** Modelled from the spec: the [AslImage] class is not part of the module;
    [ntis] is the number of inversion times of the dataset. *)
Definition ntis (a : AslImage) : nat := length (tis a).

(** Values stored in option dictionaries and step results. *)
Inductive value :=
| VNone
| VBool (b : bool)
| VInt (z : Z)
| VFloat (q : Q)
| VStr (s : string)
| VImage (i : Image)
| VData (a : AslImage).

Abbreviation dict := (gmap string value).

(** Python exceptions that the modelled code can raise. *)
Inductive exn :=
| ValueError (msg : string)
| KeyError (key : string)
| IndexError
| NameError (name : string)
| TypeError
| AttributeError (attr : string)
| EngineError (msg : string).

Abbreviation result A := (exn + A)%type.

(** The workspace: every attribute reads as [None] until it is set. *)
Record Workspace := {
  asldata : option AslImage;
  asldata_mean_across_repeats : option AslImage;
  mask : option Image;
  wp : option bool;
  casl : option bool;
  infertiss : option bool;
  inferbat : option bool;
  infertau : option bool;
  inferart : option bool;
  infert1 : option bool;
  inferpc : option bool;
  spatial : option bool;
  onestep : option bool;
  pvcorr : option bool;
  t1im : option Image;
  pgm : option Image;
  pwm : option Image;
  initmvn : option Image;
  t1 : option Q;
  t1b : option Q;
  bat : option Q;
  tau : option Q;
  slicedt : option Q;
  sliceband : option Z;
  FA : option Q;
  basil_options : option dict
}.

Definition empty_wsp : Workspace :=
  {| asldata := None; asldata_mean_across_repeats := None; mask := None;
     wp := None; casl := None; infertiss := None; inferbat := None;
     infertau := None; inferart := None; infert1 := None; inferpc := None;
     spatial := None; onestep := None; pvcorr := None; t1im := None;
     pgm := None; pwm := None; initmvn := None; t1 := None; t1b := None;
     bat := None; tau := None; slicedt := None; sliceband := None;
     FA := None; basil_options := None |}.

(** Attribute assignment, one setter per attribute the code writes. *)
Definition set_inferart (v : option bool) (w : Workspace) : Workspace :=
  {| asldata := asldata w; asldata_mean_across_repeats := asldata_mean_across_repeats w;
     mask := mask w; wp := wp w; casl := casl w; infertiss := infertiss w;
     inferbat := inferbat w; infertau := infertau w; inferart := v;
     infert1 := infert1 w; inferpc := inferpc w; spatial := spatial w;
     onestep := onestep w; pvcorr := pvcorr w; t1im := t1im w; pgm := pgm w;
     pwm := pwm w; initmvn := initmvn w; t1 := t1 w; t1b := t1b w; bat := bat w;
     tau := tau w; slicedt := slicedt w; sliceband := sliceband w; FA := FA w;
     basil_options := basil_options w |}.

Definition set_infertau (v : option bool) (w : Workspace) : Workspace :=
  {| asldata := asldata w; asldata_mean_across_repeats := asldata_mean_across_repeats w;
     mask := mask w; wp := wp w; casl := casl w; infertiss := infertiss w;
     inferbat := inferbat w; infertau := v; inferart := inferart w;
     infert1 := infert1 w; inferpc := inferpc w; spatial := spatial w;
     onestep := onestep w; pvcorr := pvcorr w; t1im := t1im w; pgm := pgm w;
     pwm := pwm w; initmvn := initmvn w; t1 := t1 w; t1b := t1b w; bat := bat w;
     tau := tau w; slicedt := slicedt w; sliceband := sliceband w; FA := FA w;
     basil_options := basil_options w |}.

Definition set_infertiss (v : option bool) (w : Workspace) : Workspace :=
  {| asldata := asldata w; asldata_mean_across_repeats := asldata_mean_across_repeats w;
     mask := mask w; wp := wp w; casl := casl w; infertiss := v;
     inferbat := inferbat w; infertau := infertau w; inferart := inferart w;
     infert1 := infert1 w; inferpc := inferpc w; spatial := spatial w;
     onestep := onestep w; pvcorr := pvcorr w; t1im := t1im w; pgm := pgm w;
     pwm := pwm w; initmvn := initmvn w; t1 := t1 w; t1b := t1b w; bat := bat w;
     tau := tau w; slicedt := slicedt w; sliceband := sliceband w; FA := FA w;
     basil_options := basil_options w |}.

Definition set_spatial (v : option bool) (w : Workspace) : Workspace :=
  {| asldata := asldata w; asldata_mean_across_repeats := asldata_mean_across_repeats w;
     mask := mask w; wp := wp w; casl := casl w; infertiss := infertiss w;
     inferbat := inferbat w; infertau := infertau w; inferart := inferart w;
     infert1 := infert1 w; inferpc := inferpc w; spatial := v;
     onestep := onestep w; pvcorr := pvcorr w; t1im := t1im w; pgm := pgm w;
     pwm := pwm w; initmvn := initmvn w; t1 := t1 w; t1b := t1b w; bat := bat w;
     tau := tau w; slicedt := slicedt w; sliceband := sliceband w; FA := FA w;
     basil_options := basil_options w |}.

Definition set_onestep (v : option bool) (w : Workspace) : Workspace :=
  {| asldata := asldata w; asldata_mean_across_repeats := asldata_mean_across_repeats w;
     mask := mask w; wp := wp w; casl := casl w; infertiss := infertiss w;
     inferbat := inferbat w; infertau := infertau w; inferart := inferart w;
     infert1 := infert1 w; inferpc := inferpc w; spatial := spatial w;
     onestep := v; pvcorr := pvcorr w; t1im := t1im w; pgm := pgm w;
     pwm := pwm w; initmvn := initmvn w; t1 := t1 w; t1b := t1b w; bat := bat w;
     tau := tau w; slicedt := slicedt w; sliceband := sliceband w; FA := FA w;
     basil_options := basil_options w |}.

Definition set_initmvn (v : option Image) (w : Workspace) : Workspace :=
  {| asldata := asldata w; asldata_mean_across_repeats := asldata_mean_across_repeats w;
     mask := mask w; wp := wp w; casl := casl w; infertiss := infertiss w;
     inferbat := inferbat w; infertau := infertau w; inferart := inferart w;
     infert1 := infert1 w; inferpc := inferpc w; spatial := spatial w;
     onestep := onestep w; pvcorr := pvcorr w; t1im := t1im w; pgm := pgm w;
     pwm := pwm w; initmvn := v; t1 := t1 w; t1b := t1b w; bat := bat w;
     tau := tau w; slicedt := slicedt w; sliceband := sliceband w; FA := FA w;
     basil_options := basil_options w |}.

Definition set_t1 (v : option Q) (w : Workspace) : Workspace :=
  {| asldata := asldata w; asldata_mean_across_repeats := asldata_mean_across_repeats w;
     mask := mask w; wp := wp w; casl := casl w; infertiss := infertiss w;
     inferbat := inferbat w; infertau := infertau w; inferart := inferart w;
     infert1 := infert1 w; inferpc := inferpc w; spatial := spatial w;
     onestep := onestep w; pvcorr := pvcorr w; t1im := t1im w; pgm := pgm w;
     pwm := pwm w; initmvn := initmvn w; t1 := v; t1b := t1b w; bat := bat w;
     tau := tau w; slicedt := slicedt w; sliceband := sliceband w; FA := FA w;
     basil_options := basil_options w |}.

Definition set_t1b (v : option Q) (w : Workspace) : Workspace :=
  {| asldata := asldata w; asldata_mean_across_repeats := asldata_mean_across_repeats w;
     mask := mask w; wp := wp w; casl := casl w; infertiss := infertiss w;
     inferbat := inferbat w; infertau := infertau w; inferart := inferart w;
     infert1 := infert1 w; inferpc := inferpc w; spatial := spatial w;
     onestep := onestep w; pvcorr := pvcorr w; t1im := t1im w; pgm := pgm w;
     pwm := pwm w; initmvn := initmvn w; t1 := t1 w; t1b := v; bat := bat w;
     tau := tau w; slicedt := slicedt w; sliceband := sliceband w; FA := FA w;
     basil_options := basil_options w |}.

Definition set_bat (v : option Q) (w : Workspace) : Workspace :=
  {| asldata := asldata w; asldata_mean_across_repeats := asldata_mean_across_repeats w;
     mask := mask w; wp := wp w; casl := casl w; infertiss := infertiss w;
     inferbat := inferbat w; infertau := infertau w; inferart := inferart w;
     infert1 := infert1 w; inferpc := inferpc w; spatial := spatial w;
     onestep := onestep w; pvcorr := pvcorr w; t1im := t1im w; pgm := pgm w;
     pwm := pwm w; initmvn := initmvn w; t1 := t1 w; t1b := t1b w; bat := v;
     tau := tau w; slicedt := slicedt w; sliceband := sliceband w; FA := FA w;
     basil_options := basil_options w |}.

Definition set_tau (v : option Q) (w : Workspace) : Workspace :=
  {| asldata := asldata w; asldata_mean_across_repeats := asldata_mean_across_repeats w;
     mask := mask w; wp := wp w; casl := casl w; infertiss := infertiss w;
     inferbat := inferbat w; infertau := infertau w; inferart := inferart w;
     infert1 := infert1 w; inferpc := inferpc w; spatial := spatial w;
     onestep := onestep w; pvcorr := pvcorr w; t1im := t1im w; pgm := pgm w;
     pwm := pwm w; initmvn := initmvn w; t1 := t1 w; t1b := t1b w; bat := bat w;
     tau := v; slicedt := slicedt w; sliceband := sliceband w; FA := FA w;
     basil_options := basil_options w |}.

(** Python truthiness of a flag attribute: unset ([None]) and [False] are
    false. *)
Definition truthy (o : option bool) : bool := default false o.

(** Truthiness of an object-valued attribute: [None] is false, any object
    is true. *)
Definition given {A} (o : option A) : bool :=
  match o with Some _ => true | None => false end.

(** ** The state-and-exception monad over the workspace *)

Definition M (A : Type) : Type := Workspace → Workspace * result A.

Definition ret {A} (x : A) : M A := λ w, (w, inr x).
Definition raise {A} (e : exn) : M A := λ w, (w, inl e).
Definition bind {A B} (m : M A) (k : A → M B) : M B :=
  λ w, match m w with
       | (w', inr x) => k x w'
       | (w', inl e) => (w', inl e)
       end.
Definition get : M Workspace := λ w, (w, inr w).
Definition modify (f : Workspace → Workspace) : M unit := λ w, (f w, inr tt).
Definition lift {A} (r : result A) : M A := λ w, (w, r).
Definition when (b : bool) (m : M unit) : M unit := if b then m else ret tt.

Notation "x <- m ;; k" := (bind m (λ x, k))
  (at level 100, m at next level, right associativity).
Notation "m ;;; k" := (bind m (λ _, k))
  (at level 100, right associativity).

(** ** Steps *)

(** [Step.__init__] copies the dictionary it is given, so a step owns its
    options; a map value is its own copy. *)
Inductive Step :=
| FabberStep (options : dict) (desc : string)
| PvcInitStep (options : dict) (desc : string).

Definition step_options (s : Step) : dict :=
  match s with FabberStep o _ | PvcInitStep o _ => o end.

Definition step_desc_of (s : Step) : string :=
  match s with FabberStep _ d | PvcInitStep _ d => d end.

Definition is_fabber (s : Step) : bool :=
  match s with FabberStep _ _ => true | PvcInitStep _ _ => false end.

(** What a step returns: named output images (converged means, the final
    posterior [finalMVN], ...). *)
Abbreviation outputs := (gmap string Image).

(** [v != s] for a string literal [s]. *)
Definition ne_str (v : value) (s : string) : bool :=
  match v with VStr s' => negb (String.eqb s' s) | _ => true end.

(** [d[k]], raising [KeyError] on a missing key. *)
Definition getitem {V} (k : string) (d : gmap string V) : result V :=
  match d !! k with Some v => inr v | None => inl (KeyError k) end.

(** ** Prior declarations *)

(** [_add_prior(options, prior_idx, param, **kwargs)]. *)
Definition _add_prior (options : dict) (prior_idx : nat) (param : string)
    (kwargs : list (string * value)) : dict * nat :=
  let options := <["PSP_byname" +:+ pretty prior_idx := VStr param]> options in
  (foldl (λ o kv, <["PSP_byname" +:+ pretty prior_idx +:+ "_" +:+ kv.1 := kv.2]> o)
         options kwargs,
   S prior_idx).

(** ** The step planner *)

(** The messages of the planner's configuration errors. *)
Definition no_data_error : exn := ValueError "Input ASL data is None".
Definition one_pv_map_error : exn :=
  ValueError "Only one partial volume map (GM / WM) was supplied for PV correctioN".
Definition pv_without_tissue_error : exn :=
  ValueError "ERROR: PV correction is not compatible with --artonly option (there is no tissue component)".
Definition no_steps_error : exn :=
  ValueError "No steps were generated - no parameters were set to be inferred".

(** The default Fabber options for VB runs. *)
Definition default_options (a : AslImage) : dict :=
  <["save-std" := VBool true]> (
  <["save-mvn" := VBool true]> (
  <["save-mean" := VBool true]> (
  <["max-trials" := VInt 10]> (
  <["convergence" := VStr "trialmode"]> (
  <["max-iterations" := VInt 20]> (
  <["allow-bad-voxels" := VBool true]> (
  <["noise" := VStr "white"]> (
  <["method" := VStr "vb"]> (
  <["exch" := VStr "mix"]> (
  <["disp" := VStr "none"]> (
  <["model" := VStr "aslrest"]> (
  <["data" := VData a]> ∅)))))))))))).

(** The loop over [enumerate(asldata.tis)]; [asldata.rpts[idx]] raises
    [IndexError] when there are fewer repeat counts than inversion times. *)
Fixpoint add_timings (idx : nat) (its : list Q) (rs : list Z) (options : dict)
    : result dict :=
  match its with
  | [] => inr options
  | ti :: its' =>
      let options := <["ti" +:+ pretty (S idx) := VFloat ti]> options in
      match rs !! idx with
      | None => inl IndexError
      | Some r =>
          add_timings (S idx) its' rs (<["rpt" +:+ pretty (S idx) := VInt r]> options)
      end
  end.

(** One round of the loop over the optional workspace attributes. *)
Definition set_attr {A} (k : string) (inj : A → value) (o : option A) (d : dict)
    : dict :=
  match o with Some v => <[k := inj v]> d | None => d end.

Definition wsp_options (w : Workspace) (options : dict) : dict :=
  set_attr "mask" VImage (mask w) (
  set_attr "FA" VFloat (FA w) (
  set_attr "sliceband" VInt (sliceband w) (
  set_attr "slicedt" VFloat (slicedt w) (
  set_attr "casl" VBool (casl w) (
  set_attr "tau" VFloat (tau w) (
  set_attr "bat" VFloat (bat w) (
  set_attr "t1b" VFloat (t1b w) (
  set_attr "t1" VFloat (t1 w) options)))))))).

(** Options for the final spatial step. *)
Definition spatial_options : dict :=
  <["max-iterations" := VInt 20]> (
  <["convergence" := VStr "maxiters"]> (
  <["param-spatial-priors" := VStr "N+"]> (
  <["method" := VStr "spatialvb"]> ∅))).

Definition prior_type_spatial : string := "M".
Definition prior_type_mvs : string := "A".

(** [if c: options[k] = True]. *)
Definition set_flag (c : bool) (k : string) (d : dict) : dict :=
  if c then <[k := VBool true]> d else d.

(** General parameter inference and inclusion. *)
Definition inclusion_flags (w : Workspace) (options : dict) : dict :=
  set_flag (truthy (pvcorr w)) "incpve" (
  set_flag (truthy (infert1 w)) "inct1" (
  set_flag (truthy (infertau w)) "inctau" (
  set_flag (truthy (inferpc w)) "incpc" (
  set_flag (truthy (inferart w)) "incart" (
  set_flag (truthy (inferbat w)) "inferbat" (
  set_flag (truthy (inferbat w)) "incbat" (
  set_flag (truthy (infertiss w)) "inctiss" options))))))).

(** The planner's local variables. [p_step_desc] is [None] while the Python
    local [step_desc] is unbound. *)
Record PState := mkP {
  p_options : dict;
  p_svb : dict;
  p_spriors : nat;
  p_steps : list Step;
  p_components : string;
  p_step_desc : option string
}.

(** [if not wsp.onestep: steps.append(FabberStep(options, step_desc))]. *)
Definition staged (w : Workspace) (options : dict) (desc : string)
    (steps : list Step) : list Step :=
  if truthy (onestep w) then steps else (steps ++ [FabberStep options desc])%list.

Definition tissue_module (w : Workspace) (st : PState) : PState :=
  if truthy (infertiss w) then
    let components := p_components st +:+ " Tissue " in
    let options := <["infertiss" := VBool true]> (p_options st) in
    let step_desc := "VB - " +:+ components in
    let steps := staged w options step_desc (p_steps st) in
    let '(svb, n) := _add_prior (p_svb st) (p_spriors st) "ftiss"
                       [("type", VStr prior_type_spatial)] in
    mkP options svb n steps components (Some step_desc)
  else st.

Definition arterial_module (w : Workspace) (st : PState) : PState :=
  if truthy (inferart w) then
    let components := p_components st +:+ " Arterial " in
    let options := <["inferart" := VBool true]> (p_options st) in
    let step_desc := "VB - " +:+ components in
    let steps := staged w options step_desc (p_steps st) in
    let '(svb, n) := _add_prior (p_svb st) (p_spriors st) "fblood"
                       [("type", VStr prior_type_mvs)] in
    mkP options svb n steps components (Some step_desc)
  else st.

Definition bolus_duration_module (w : Workspace) (st : PState) : PState :=
  if truthy (infertau w) then
    let components := p_components st +:+ " Bolus duration " in
    let options := <["infertau" := VBool true]> (p_options st) in
    let step_desc := "VB - " +:+ components in
    mkP options (p_svb st) (p_spriors st)
        (staged w options step_desc (p_steps st)) components (Some step_desc)
  else st.

Definition extensions_module (w : Workspace) (inferdisp inferexch : bool)
    (st : PState) : PState :=
  if inferdisp || inferexch || truthy (inferpc w) then
    let '(components, options) :=
      if inferdisp
      then (p_components st +:+ " dispersion",
            <["inferdisp" := VBool true]> (p_options st))
      else (p_components st, p_options st) in
    let '(components, options) :=
      if inferexch
      then (components +:+ " exchange", <["inferexch" := VBool true]> options)
      else (components, options) in
    let '(components, options) :=
      if truthy (inferpc w)
      then (components +:+ " pre-capiliary", <["inferpc" := VBool true]> options)
      else (components, options) in
    let step_desc := "VB - " +:+ components in
    mkP options (p_svb st) (p_spriors st)
        (staged w options step_desc (p_steps st)) components (Some step_desc)
  else st.

Definition t1_module (w : Workspace) (st : PState) : PState :=
  if truthy (infert1 w) then
    let components := p_components st +:+ " T1 " in
    let options := <["infert1" := VBool true]> (p_options st) in
    let step_desc := "VB - " +:+ components in
    mkP options (p_svb st) (p_spriors st)
        (staged w options step_desc (p_steps st)) components (Some step_desc)
  else st.

(** Attribute values as dictionary values ([None] stays [None]). *)
Definition image_value (o : option Image) : value :=
  match o with Some i => VImage i | None => VNone end.

Definition pvc_init_options (w : Workspace) (a : AslImage) : dict :=
  <["pwm" := image_value (pwm w)]> (
  <["pgm" := image_value (pgm w)]> (
  <["mask" := image_value (mask w)]> (
  <["data" := VData a]> ∅))).

Definition pv_module (w : Workspace) (pvc : bool) (a : AslImage) (st : PState)
    : PState :=
  if pvc then
    let components := p_components st +:+ " PVE" in
    let options := <["pvcorr" := VBool true]> (p_options st) in
    let '(options, n) := _add_prior options (p_spriors st) "pvgm"
                           [("type", VStr "I"); ("image", image_value (pgm w))] in
    let '(options, n) := _add_prior options n "pvwm"
                           [("type", VStr "I"); ("image", image_value (pwm w))] in
    let '(options, n) := _add_prior options n "fwm" [("type", VStr "M")] in
    let steps :=
      match p_steps st with
      | [] => []
      | _ :: _ =>
          (p_steps st ++ [PvcInitStep (pvc_init_options w a) "PVC initialisation"])%list
      end in
    mkP options (p_svb st) n steps components (p_step_desc st)
  else st.

Definition spatial_module (w : Workspace) (st : PState) : PState :=
  if truthy (spatial w) then
    let step_desc := "Spatial VB - " +:+ p_components st in
    let options := delete "max-trials" (p_svb st ∪ p_options st) in
    mkP options (p_svb st) (p_spriors st)
        (staged w options step_desc (p_steps st)) (p_components st) (Some step_desc)
  else st.

(** The single-step option and the final check. Reading the local
    [step_desc] before any module has bound it is a [NameError]. *)
Definition finish (w : Workspace) (st : PState) : result (list Step) :=
  let steps :=
    if truthy (onestep w) then
      match p_step_desc st with
      | Some d => inr (p_steps st ++ [FabberStep (p_options st) d])%list
      | None => inl (NameError "step_desc")
      end
    else inr (p_steps st) in
  match steps with
  | inl e => inl e
  | inr [] => inl no_steps_error
  | inr steps => inr steps
  end.

Section Planner.

(** [asldata.diff()]: label-control subtraction, performed elsewhere. *)
Variable diff : AslImage → AslImage.

(** The configuration before the modules run: defaults, timings, workspace
    attributes, keyword overrides, inclusion flags, initial posterior and
    the T1 image prior. *)
Definition initial_state (w : Workspace) (options : dict) (pvc : bool) : PState :=
  let options_svb := if pvc then <["max-iterations" := VInt 200]> spatial_options
                     else spatial_options in
  let options := inclusion_flags w options in
  let spriors := 1%nat in
  let options := set_attr "continue-from-mvn" VImage (initmvn w) options in
  let '(options, spriors) :=
    match t1im w with
    | Some im => _add_prior options spriors "T_1"
                   [("type", VStr "I"); ("image", VImage im)]
    | None => (options, spriors)
    end in
  mkP options options_svb spriors [] "" None.

Definition run_modules (w : Workspace) (inferdisp inferexch pvc : bool)
    (a : AslImage) (st : PState) : PState :=
  spatial_module w (
  pv_module w pvc a (
  t1_module w (
  extensions_module w inferdisp inferexch (
  bolus_duration_module w (
  arterial_module w (
  tissue_module w st)))))).

Definition basil_steps (asldata : option AslImage) (kwargs : dict)
    : M (list Step) :=
  a <- match asldata with
       | Some a => ret a
       | None => raise no_data_error
       end ;;
  let a := diff a in
  options <- lift (add_timings 0 (tis a) (rpts a) (default_options a)) ;;
  w <- get ;;
  let options := wsp_options w options in
  let options := kwargs ∪ options in
  _model <- lift (getitem "model" options) ;;
  disp <- lift (getitem "disp" options) ;;
  exch <- lift (getitem "exch" options) ;;
  let inferdisp := ne_str disp "none" in
  let inferexch := ne_str exch "mix" in
  let pvc := given (pgm w) || given (pwm w) in
  when pvc (
    when (negb (given (pgm w)) || negb (given (pwm w))) (raise one_pv_map_error) ;;;
    modify (set_spatial (Some true))) ;;;
  w <- get ;;
  when (pvc && negb (truthy (infertiss w))) (raise pv_without_tissue_error) ;;;
  lift (finish w (run_modules w inferdisp inferexch pvc a
                    (initial_state w options pvc))).

End Planner.

(** ** Running steps *)

Definition rbind {A B} (r : result A) (k : A → result B) : result B :=
  match r with inr x => k x | inl e => inl e end.

Notation "x <~ r ;; k" := (rbind r (λ x, k))
  (at level 100, r at next level, right associativity).

(** [prev_output[k]]: subscripting [None] is a [TypeError]. *)
Definition subscript (prev_output : option outputs) (k : string) : result Image :=
  match prev_output with
  | None => inl TypeError
  | Some d => getitem k d
  end.

(** The [.data] attribute of an image. *)
Definition data_of (v : value) : result (list Q) :=
  match v with
  | VImage i => inr (img_data i)
  | VData a => inr (img_data (asl_img a))
  | _ => inl (AttributeError "data")
  end.

(** Voxelwise arithmetic on two arrays of the same shape. *)
Fixpoint voxelwise (f : Q → Q → Q) (xs ys : list Q) : result (list Q) :=
  match xs, ys with
  | [], [] => inr []
  | x :: xs', y :: ys' => zs <~ voxelwise f xs' ys' ;; inr (f x y :: zs)
  | _, _ => inl (ValueError "operands could not be broadcast together")
  end.

Definition Qltb (x y : Q) : bool := negb (Qle_bool y x).

Definition wm_cbf_ratio : Q := 0.4%Q.

(** [temp_pgm[temp_pgm < 0.2] = 0.2]. The source clips the array of the
    grey-matter image in place; images are values here, so the clipped
    array is only the local [temp_pgm]. *)
Definition clip_pgm (temp_pgm : list Q) : list Q :=
  (λ g, if Qltb g 0.2%Q then 0.2%Q else g) <$> temp_pgm.

Section Runner.

(** The external inference engine, [fabber(options, output=LOAD)], and the
    posterior editing tool
    [mvntool(mvn, param, output=LOAD, mask=, param_list="FIXME", write=True,
    valim=, var=)], as [mvntool mvn param mask valim var]. *)
Variable fabber : dict → result outputs.
Variable mvntool : Image → string → value → list Q → Q → Image.

(** [FabberStep.run]: returns the step with its (mutated) options, which
    is the configuration submitted to the engine, and the engine's output. *)
Definition fabber_run (options : dict) (desc : string)
    (prev_output : option outputs) : result (Step * outputs) :=
  options <~ match prev_output with
             | Some prev =>
                 mvn <~ getitem "finalMVN" prev ;;
                 inr (<["continue-from-mvn" := VImage mvn]> options)
             | None => inr options
             end ;;
  out <~ fabber options ;;
  inr (FabberStep options desc, out).

(** [PvcInitStep.run]. *)
Definition pvc_init_run (options : dict) (desc : string)
    (prev_output : option outputs) : result (Step * outputs) :=
  mask <~ getitem "mask" options ;;
  pgm <~ getitem "pgm" options ;;
  temp_pgm <~ data_of pgm ;;
  let temp_pgm := clip_pgm temp_pgm in
  mean_ftiss <~ subscript prev_output "mean_ftiss" ;;
  let prev_ftiss := img_data mean_ftiss in
  pwm <~ getitem "pwm" options ;;
  pwm_data <~ data_of pwm ;;
  wm_cbf_term <~ voxelwise Qmult ((λ p, p * wm_cbf_ratio)%Q <$> prev_ftiss) pwm_data ;;
  numer <~ voxelwise Qminus prev_ftiss wm_cbf_term ;;
  gmcbf_init <~ voxelwise Qdiv numer temp_pgm ;;
  let wmcbf_init := (λ g, g * wm_cbf_ratio)%Q <$> gmcbf_init in
  mvn <~ subscript prev_output "finalMVN" ;;
  let mvn := mvntool mvn "ftiss" mask gmcbf_init 0.1%Q in
  let mvn := mvntool mvn "fwm" mask wmcbf_init 0.1%Q in
  inr (PvcInitStep options desc, {["finalMVN" := mvn]}).

Definition run (s : Step) (prev_output : option outputs)
    : result (Step * outputs) :=
  match s with
  | FabberStep options desc => fabber_run options desc prev_output
  | PvcInitStep options desc => pvc_init_run options desc prev_output
  end.

(** The loop of [basil_fit]: each step runs on its predecessor's result.
    The answer pairs every step, as it stands after running, with its
    result. *)
Fixpoint run_chain (prev_result : option outputs) (steps : list Step)
    : result (list (Step * outputs)) :=
  match steps with
  | [] => inr []
  | step :: rest =>
      sr <~ run step prev_result ;;
      tl <~ run_chain (Some sr.2) rest ;;
      inr (sr :: tl)
  end.

(** What a fit leaves behind: the plan as [basil_steps] returned it, the
    steps as run with their results, the sub-workspaces [step1], [step2],
    ... holding each result's keys, and [finalstep]. *)
Record FitOutput := {
  fit_plan : list Step;
  fit_run : list (Step * outputs);
  fit_step_wsps : list (string * outputs);
  finalstep : outputs
}.

Definition step_wsps (ran : list (Step * outputs)) : list (string * outputs) :=
  imap (λ idx sr, ("step" +:+ pretty (S idx), sr.2)) ran.

Variable diff : AslImage → AslImage.

Definition basil_fit (asldata : option AslImage) (kwargs : dict) : M FitOutput :=
  steps <- basil_steps diff asldata kwargs ;;
  ran <- lift (run_chain None steps) ;;
  match last ran with
  | Some sr => ret {| fit_plan := steps; fit_run := ran;
                      fit_step_wsps := step_wsps ran; finalstep := sr.2 |}
  | None => raise (NameError "step_wsp")
  end.

(** ** The top-level procedure *)

(** [if wsp.attr is None: wsp.attr = v]. *)
Definition set_default {A} (attr : Workspace → option A)
    (set : option A → Workspace → Workspace) (v : A) : M unit :=
  w <- get ;;
  when (negb (given (attr w))) (modify (set (Some v))).

(** Python's [max] of a list of integers. *)
Definition py_max (l : list Z) : result Z :=
  match l with
  | [] => inl (ValueError "max() arg is an empty sequence")
  | x :: l' => inr (foldl Z.max x l')
  end.

(** Passing [**extra_options] next to the parameters [wsp], [asldata] and
    [output_wsp] is a [TypeError] when a key repeats one of them. *)
Definition pass_kwargs (extra_options : dict) : result dict :=
  if decide (is_Some (extra_options !! "wsp")
             ∨ is_Some (extra_options !! "asldata")
             ∨ is_Some (extra_options !! "output_wsp"))
  then inl TypeError else inr extra_options.

(** The first part of [basil]: single-TI mode and the resolution of
    defaults. Returns [extra_options]. *)
Definition basil_setup : M dict :=
  w <- get ;;
  a <- match asldata w with
       | Some a => ret a
       | None => raise (AttributeError "ntis")
       end ;;
  when (Nat.eqb (ntis a) 1)
    (modify (set_inferart (Some false)) ;;; modify (set_infertau (Some false))) ;;;
  w <- get ;;
  let '(t1_default, bat_default) :=
    if truthy (wp w) then (1.65%Q, 0.0%Q)
    else (1.3%Q, if truthy (casl w) then 1.3%Q else 0.7%Q) in
  set_default t1 set_t1 t1_default ;;;
  set_default t1b set_t1b 1.65%Q ;;;
  set_default bat set_bat bat_default ;;;
  set_default tau set_tau 1.8%Q ;;;
  set_default infertiss set_infertiss true ;;;
  w <- get ;;
  set_default infertau set_infertau (negb (truthy (casl w))) ;;;
  w <- get ;;
  ret (default ∅ (basil_options w)).

Record BasilOutput := { init : option FitOutput; main : FitOutput }.

Definition basil (prefit : bool) : M BasilOutput :=
  extra_options <- basil_setup ;;
  w <- get ;;
  do_prefit <- (if prefit then
                  match asldata w with
                  | Some a => m <- lift (py_max (rpts a)) ;; ret (Z.ltb 1 m)
                  | None => raise (AttributeError "rpts")
                  end
                else ret false) ;;
  init_out <- (if do_prefit : bool then
                 kwargs <- lift (pass_kwargs extra_options) ;;
                 out <- basil_fit (asldata_mean_across_repeats w) kwargs ;;
                 modify (set_initmvn (finalstep out !! "finalMVN")) ;;;
                 ret (Some out)
               else ret None) ;;
  w <- get ;;
  kwargs <- lift (pass_kwargs extra_options) ;;
  main_out <- basil_fit (asldata w) kwargs ;;
  ret {| init := init_out; main := main_out |}.

End Runner.

(** * Properties *)

(** ** Keys the planner writes *)

Definition key_in (k : string) (ks : list string) : bool :=
  bool_decide (k ∈ ks).

(** [s.startswith(p)]. *)
Fixpoint starts_with (p s : string) : bool :=
  match p, s with
  | EmptyString, _ => true
  | String a p', String b s' => Ascii.eqb a b && starts_with p' s'
  | String _ _, EmptyString => false
  end.

Arguments starts_with : simpl never.

(** The keys that [basil_steps] writes after the keyword overrides have
    been merged, for given flags: first those written before the modules
    run (inclusion flags, initial posterior, T1 image prior), then those
    written by the modules. *)
Definition initial_writes (w : Workspace) (k : string) : bool :=
  starts_with "PSP_byname" k
  || truthy (infertiss w) && key_in k ["inctiss"]
  || truthy (inferbat w) && key_in k ["incbat"; "inferbat"]
  || truthy (inferart w) && key_in k ["incart"]
  || truthy (inferpc w) && key_in k ["incpc"]
  || truthy (infertau w) && key_in k ["inctau"]
  || truthy (infert1 w) && key_in k ["inct1"]
  || truthy (pvcorr w) && key_in k ["incpve"]
  || given (initmvn w) && key_in k ["continue-from-mvn"].

Definition module_writes (w : Workspace) (inferdisp inferexch pvc : bool)
    (k : string) : bool :=
  starts_with "PSP_byname" k
  || truthy (infertiss w) && key_in k ["infertiss"]
  || truthy (inferart w) && key_in k ["inferart"]
  || truthy (infertau w) && key_in k ["infertau"]
  || inferdisp && key_in k ["inferdisp"]
  || inferexch && key_in k ["inferexch"]
  || truthy (inferpc w) && key_in k ["inferpc"]
  || truthy (infert1 w) && key_in k ["infert1"]
  || pvc && key_in k ["pvcorr"]
  || truthy (spatial w)
     && key_in k ["method"; "param-spatial-priors"; "convergence";
                  "max-iterations"; "max-trials"].

Definition planner_writes (w : Workspace) (inferdisp inferexch pvc : bool)
    (k : string) : bool :=
  initial_writes w k || module_writes w inferdisp inferexch pvc k.

(** The same, whatever the flags. *)
Definition planner_key (k : string) : bool :=
  starts_with "PSP_byname" k
  || key_in k ["inctiss"; "infertiss"; "incbat"; "inferbat"; "incart";
               "inferart"; "incpc"; "inferpc"; "inctau"; "infertau"; "inct1";
               "infert1"; "incpve"; "continue-from-mvn"; "inferdisp";
               "inferexch"; "pvcorr"; "method"; "param-spatial-priors";
               "convergence"; "max-iterations"; "max-trials"].

Lemma key_in_cons k k' ks :
  key_in k (k' :: ks) = bool_decide (k = k') || key_in k ks.
Proof.
  unfold key_in. apply eq_true_iff_eq.
  rewrite orb_true_iff, !bool_decide_eq_true, elem_of_cons. tauto.
Qed.

Lemma key_in_nil k : key_in k [] = false.
Proof. unfold key_in. apply bool_decide_eq_false. apply not_elem_of_nil. Qed.

(** Turns a hypothesis [... || ... = false] over [key_in] into the
    disequalities it stands for. *)
Ltac split_keys :=
  repeat match goal with
    | H : context [key_in _ (_ :: _)] |- _ => rewrite key_in_cons in H
    | H : context [key_in _ []] |- _ => rewrite key_in_nil in H
    end;
  repeat match goal with
    | H : (_ || _) = false |- _ => apply orb_false_elim in H; destruct H
    | H : (true && _) = false |- _ => rewrite andb_true_l in H
    | H : (false && _) = false |- _ => clear H
    | H : false = false |- _ => clear H
    | H : bool_decide (_ = _) = false |- _ => apply bool_decide_eq_false in H
    end.

Lemma planner_key_writes w d e pvc k :
  planner_key k = false → planner_writes w d e pvc k = false.
Proof.
  unfold planner_key, planner_writes, initial_writes, module_writes.
  intros H. split_keys.
  rewrite H, !key_in_cons, !key_in_nil.
  repeat match goal with
    | Hk : k ≠ ?x |- _ => rewrite (bool_decide_eq_false_2 (k = x) Hk); clear Hk
    end.
  by rewrite !andb_false_r.
Qed.

(** ** Lookups through the planner's dictionary updates *)

Lemma psp_prefix s : starts_with "PSP_byname" ("PSP_byname" +:+ s) = true.
Proof. reflexivity. Qed.

Lemma psp_neq k s :
  starts_with "PSP_byname" k = false → "PSP_byname" +:+ s ≠ k.
Proof. intros H <-. by rewrite psp_prefix in H. Qed.

Lemma add_prior_lookup options n param kwargs k :
  starts_with "PSP_byname" k = false →
  (_add_prior options n param kwargs).1 !! k = options !! k.
Proof.
  intros Hk. unfold _add_prior. simpl.
  transitivity ((<["PSP_byname" +:+ pretty n := VStr param]> options) !! k).
  - generalize (<["PSP_byname" +:+ pretty n := VStr param]> options).
    induction kwargs as [|[k' v] kwargs IH]; intros o; simpl; [done|].
    rewrite IH. apply lookup_insert_ne, psp_neq, Hk.
  - apply lookup_insert_ne, psp_neq, Hk.
Qed.

Lemma add_prior_idx options n param kwargs :
  (_add_prior options n param kwargs).2 = S n.
Proof. reflexivity. Qed.

Lemma set_flag_lookup c k' d k :
  (c = true → k' ≠ k) → set_flag c k' d !! k = d !! k.
Proof.
  unfold set_flag. destruct c; [|done]. intros H. by apply lookup_insert_ne, H.
Qed.

Lemma set_flag_lookup_eq c k d :
  set_flag c k d !! k = if c then Some (VBool true) else d !! k.
Proof. unfold set_flag. destruct c; [|done]. apply lookup_insert_eq. Qed.

Lemma set_attr_lookup {A} k' (inj : A → value) o d k :
  (is_Some o → k' ≠ k) → set_attr k' inj o d !! k = d !! k.
Proof.
  unfold set_attr. destruct o; [|done]. intros H. apply lookup_insert_ne, H. eauto.
Qed.

Lemma set_attr_lookup_eq {A} k (inj : A → value) o d :
  set_attr k inj o d !! k = match o with Some v => Some (inj v) | None => d !! k end.
Proof. unfold set_attr. destruct o; [|done]. apply lookup_insert_eq. Qed.

(** ** A frame property of the planner

    For a key [k] that the planner does not write under the given flags, the
    value found at [k] survives every module: it is the same in the running
    configuration and in the configuration of every Fabber step planned. *)

Section Frame.

Context (w : Workspace) (inferdisp inferexch pvc : bool).
Context (k : string) (r : option value).
Hypothesis Hk : module_writes w inferdisp inferexch pvc k = false.

Definition keeps (s : Step) : Prop :=
  is_fabber s = true → step_options s !! k = r.

Definition frame (st : PState) : Prop :=
  p_options st !! k = r
  ∧ Forall keeps (p_steps st)
  ∧ (truthy (spatial w) = true → p_svb st !! k = None).

Lemma not_prior_key : starts_with "PSP_byname" k = false.
Proof using Hk. unfold module_writes in Hk. by split_keys. Qed.

Lemma staged_keeps options desc steps :
  options !! k = r → Forall keeps steps → Forall keeps (staged w options desc steps).
Proof.
  intros Ho Hs. unfold staged. destruct (truthy (onestep w)); [done|].
  apply Forall_app. split; [done|]. apply Forall_singleton; by intros _.
Qed.

Ltac frame_start st :=
  let Ho := fresh "Ho" in let Hs := fresh "Hs" in let Hv := fresh "Hv" in
  intros (Ho & Hs & Hv); pose proof not_prior_key as Hp; unfold module_writes in Hk;
  destruct st as [o svb n steps comps desc]; simpl in *.

Lemma tissue_frame st : frame st → frame (tissue_module w st).
Proof using Hk.
  frame_start st. unfold tissue_module.
  destruct (truthy (infertiss w)) eqn:E; [|done]. split_keys.
  simpl. assert (<["infertiss":=VBool true]> o !! k = r) by by rewrite lookup_insert_ne.
  repeat split; simpl; [done|by apply staged_keeps|].
  intros Hsp. rewrite lookup_insert_ne by by apply psp_neq.
  rewrite lookup_insert_ne by by apply psp_neq. auto.
Qed.

Lemma arterial_frame st : frame st → frame (arterial_module w st).
Proof using Hk.
  frame_start st. unfold arterial_module.
  destruct (truthy (inferart w)) eqn:E; [|done]. split_keys.
  simpl. assert (<["inferart":=VBool true]> o !! k = r) by by rewrite lookup_insert_ne.
  repeat split; simpl; [done|by apply staged_keeps|].
  intros Hsp. rewrite lookup_insert_ne by by apply psp_neq.
  rewrite lookup_insert_ne by by apply psp_neq. auto.
Qed.

Lemma bolus_duration_frame st : frame st → frame (bolus_duration_module w st).
Proof using Hk.
  frame_start st. unfold bolus_duration_module.
  destruct (truthy (infertau w)) eqn:E; [|done]. split_keys.
  simpl. assert (<["infertau":=VBool true]> o !! k = r) by by rewrite lookup_insert_ne.
  repeat split; simpl; [done|by apply staged_keeps|done].
Qed.

Lemma extensions_frame st :
  frame st → frame (extensions_module w inferdisp inferexch st).
Proof using Hk.
  frame_start st. unfold extensions_module.
  destruct (inferdisp || inferexch || truthy (inferpc w)); [|done].
  destruct inferdisp, inferexch, (truthy (inferpc w)) eqn:E; split_keys; simpl;
    (repeat split; simpl;
     [|apply staged_keeps; [|done]|done]; by rewrite ?lookup_insert_ne).
Qed.

Lemma t1_frame st : frame st → frame (t1_module w st).
Proof using Hk.
  frame_start st. unfold t1_module.
  destruct (truthy (infert1 w)) eqn:E; [|done]. split_keys.
  simpl. assert (<["infert1":=VBool true]> o !! k = r) by by rewrite lookup_insert_ne.
  repeat split; simpl; [done|by apply staged_keeps|done].
Qed.

Lemma pv_frame a st : frame st → frame (pv_module w pvc a st).
Proof using Hk.
  frame_start st. unfold pv_module. destruct pvc; [|done]. split_keys.
  simpl. repeat split; simpl.
  - repeat (rewrite lookup_insert_ne by by apply psp_neq).
    by rewrite lookup_insert_ne.
  - destruct steps as [|s steps]; [done|].
    apply Forall_app. split; [done|]. apply Forall_singleton.
    intros Hf. discriminate Hf.
  - done.
Qed.

Lemma spatial_frame st : frame st → frame (spatial_module w st).
Proof using Hk.
  frame_start st. unfold spatial_module.
  destruct (truthy (spatial w)) eqn:E;
    [|repeat split; simpl; auto; intros; congruence].
  split_keys.
  simpl. assert (delete "max-trials" (svb ∪ o) !! k = r).
  { rewrite lookup_delete_ne by congruence. rewrite lookup_union_r; auto. }
  repeat split; simpl; [done|by apply staged_keeps|auto].
Qed.

Lemma run_modules_frame a st :
  frame st → frame (run_modules w inferdisp inferexch pvc a st).
Proof using Hk.
  intros H. unfold run_modules.
  by apply spatial_frame, pv_frame, t1_frame, extensions_frame,
    bolus_duration_frame, arterial_frame, tissue_frame.
Qed.

Lemma finish_keeps st steps :
  frame st → finish w st = inr steps → Forall keeps steps.
Proof.
  intros (Ho & Hs & _). unfold finish.
  destruct (truthy (onestep w)).
  - destruct (p_step_desc st) as [d|]; [|done].
    destruct (p_steps st ++ [FabberStep (p_options st) d])%list eqn:E; [done|].
    intros [= <-]. rewrite <- E. apply Forall_app. split; [done|].
    apply Forall_singleton; by intros _.
  - destruct (p_steps st); [done|]. by intros [= <-].
Qed.

Lemma initial_svb options :
  truthy (spatial w) = true → p_svb (initial_state w options pvc) !! k = None.
Proof using Hk.
  intros E. unfold module_writes in Hk. rewrite E in Hk. split_keys.
  unfold initial_state. destruct (t1im w); simpl;
    destruct pvc; unfold spatial_options;
    by rewrite !lookup_insert_ne by congruence.
Qed.

(** The configuration at the start of the modules is framed at its own
    value. *)
Lemma initial_frame_self options :
  r = p_options (initial_state w options pvc) !! k →
  frame (initial_state w options pvc).
Proof using Hk.
  intros ->. split; [done|]. split; [|apply initial_svb].
  unfold initial_state. by destruct (t1im w).
Qed.

Lemma initial_frame options :
  initial_writes w k = false →
  options !! k = r → frame (initial_state w options pvc).
Proof using Hk.
  intros Hi Ho. pose proof not_prior_key as Hp. unfold module_writes in Hk.
  unfold initial_writes in Hi. unfold initial_state.
  assert (set_attr "continue-from-mvn" VImage (initmvn w)
            (inclusion_flags w options) !! k = r) as Ho'.
  { rewrite set_attr_lookup.
    - unfold inclusion_flags.
      rewrite !set_flag_lookup; [done|intros E; rewrite E in Hi; by split_keys..].
    - intros [m E]. rewrite E in Hi. simpl in Hi. by split_keys. }
  destruct (t1im w) as [im|]; simpl; repeat split; simpl; try done.
  1: by repeat (rewrite lookup_insert_ne by by apply psp_neq).
  all: intros E; rewrite E in Hk; split_keys.
  all: destruct pvc; unfold spatial_options;
    by rewrite !lookup_insert_ne by congruence.
Qed.

End Frame.

(** ** The configuration before the planner's own writes *)

(** Keys of the default options, of the timings and of the workspace
    attributes copied into the options. *)
Definition base_key (k : string) : bool :=
  starts_with "ti" k || starts_with "rpt" k
  || key_in k ["data"; "model"; "disp"; "exch"; "method"; "noise";
               "allow-bad-voxels"; "max-iterations"; "convergence";
               "max-trials"; "save-mean"; "save-mvn"; "save-std";
               "t1"; "t1b"; "bat"; "tau"; "casl"; "slicedt"; "sliceband";
               "FA"; "mask"].

Lemma add_timings_ok idx its rs options :
  (idx + length its ≤ length rs)%nat →
  ∃ timed, add_timings idx its rs options = inr timed.
Proof.
  revert idx options. induction its as [|ti its IH]; intros idx options Hl; simpl.
  - eauto.
  - simpl in Hl. destruct (lookup_lt_is_Some_2 rs idx) as [r ->]; [lia|].
    apply IH. lia.
Qed.

Lemma add_timings_mono idx its rs options timed k :
  add_timings idx its rs options = inr timed →
  is_Some (options !! k) → is_Some (timed !! k).
Proof.
  revert idx options. induction its as [|ti its IH]; intros idx options; simpl.
  - by intros [= <-].
  - destruct (rs !! idx) as [r|]; [|done]. intros H Hs.
    eapply IH; [exact H|]. rewrite !lookup_insert_is_Some'. auto.
Qed.

Lemma add_timings_lookup idx its rs options timed k :
  starts_with "ti" k = false → starts_with "rpt" k = false →
  add_timings idx its rs options = inr timed → timed !! k = options !! k.
Proof.
  intros Hti Hrpt. revert idx options.
  induction its as [|ti its IH]; intros idx options; simpl.
  - by intros [= <-].
  - destruct (rs !! idx) as [r|]; [|done]. intros H.
    rewrite (IH _ _ H). rewrite !lookup_insert_ne; [done|..].
    + intros <-. discriminate Hti.
    + intros <-. discriminate Hrpt.
Qed.

Lemma wsp_options_mono w options k :
  is_Some (options !! k) → is_Some (wsp_options w options !! k).
Proof.
  assert (∀ A k' (inj : A → value) o d,
            is_Some (d !! k) → is_Some (set_attr k' inj o d !! k)) as Hmono.
  { intros A k' inj [v|] d Hd; simpl; [|done].
    rewrite lookup_insert_is_Some'. by right. }
  intros H. unfold wsp_options. by repeat apply Hmono.
Qed.

Lemma wsp_options_lookup w options k :
  key_in k ["t1"; "t1b"; "bat"; "tau"; "casl"; "slicedt"; "sliceband"; "FA"; "mask"]
    = false →
  wsp_options w options !! k = options !! k.
Proof.
  intros H. split_keys. unfold wsp_options.
  by rewrite !set_attr_lookup by (intros _; congruence).
Qed.

Lemma default_options_lookup a k :
  key_in k ["data"; "model"; "disp"; "exch"; "method"; "noise";
            "allow-bad-voxels"; "max-iterations"; "convergence";
            "max-trials"; "save-mean"; "save-mvn"; "save-std"] = false →
  default_options a !! k = None.
Proof.
  intros H. split_keys. unfold default_options.
  by rewrite !lookup_insert_ne by congruence.
Qed.

(** At a key outside the base configuration, only the keyword overrides
    can have put a value. *)
Lemma base_lookup w a kwargs timed k :
  base_key k = false →
  add_timings 0 (tis a) (rpts a) (default_options a) = inr timed →
  (kwargs ∪ wsp_options w timed) !! k = kwargs !! k.
Proof.
  unfold base_key. intros Hk Ht.
  apply orb_false_elim in Hk as [Hk Hkey]. apply orb_false_elim in Hk as [Hti Hrpt].
  rewrite lookup_union, wsp_options_lookup, (add_timings_lookup _ _ _ _ _ _ Hti Hrpt Ht),
    default_options_lookup.
  - by destruct (kwargs !! k).
  - split_keys. rewrite !key_in_cons, key_in_nil.
    repeat match goal with
      | Hn : k ≠ ?x |- _ => rewrite ?(bool_decide_eq_false_2 (k = x) Hn); clear Hn
      end. done.
  - split_keys. rewrite !key_in_cons, key_in_nil.
    repeat match goal with
      | Hn : k ≠ ?x |- _ => rewrite ?(bool_decide_eq_false_2 (k = x) Hn); clear Hn
      end. done.
Qed.

Lemma base_has w a kwargs timed k :
  key_in k ["model"; "disp"; "exch"; "max-trials"] = true →
  add_timings 0 (tis a) (rpts a) (default_options a) = inr timed →
  is_Some ((kwargs ∪ wsp_options w timed) !! k).
Proof.
  intros Hk Ht. apply lookup_union_is_Some. right.
  apply wsp_options_mono. eapply add_timings_mono; [exact Ht|].
  unfold key_in in Hk. apply bool_decide_eq_true in Hk.
  repeat (apply elem_of_cons in Hk as [->|Hk]); [by eexists..|].
  by apply not_elem_of_nil in Hk.
Qed.

(** ** The planner in closed form *)

Definition infer_disp (options : dict) : bool :=
  match options !! "disp" with Some v => ne_str v "none" | None => false end.

Definition infer_exch (options : dict) : bool :=
  match options !! "exch" with Some v => ne_str v "mix" | None => false end.

(** Whether a partial volume map was supplied. *)
Definition pv_requested (w : Workspace) : bool := given (pgm w) || given (pwm w).

(** Every inversion time has its repeat count, so that the loop over the
    timings does not run off the list. *)
Definition timed_ok (a : AslImage) : Prop := (length (tis a) ≤ length (rpts a))%nat.

Section PlannerFacts.

Variable diff : AslImage → AslImage.

Lemma basil_steps_unfold asldata kwargs w :
  basil_steps diff asldata kwargs w =
  match asldata with
  | None => (w, inl no_data_error)
  | Some a0 =>
      let a := diff a0 in
      match add_timings 0 (tis a) (rpts a) (default_options a) with
      | inl e => (w, inl e)
      | inr timed =>
          let options := kwargs ∪ wsp_options w timed in
          let pvc := pv_requested w in
          if pvc && (negb (given (pgm w)) || negb (given (pwm w)))
          then (w, inl one_pv_map_error)
          else
            let w' := if pvc then set_spatial (Some true) w else w in
            if pvc && negb (truthy (infertiss w))
            then (w', inl pv_without_tissue_error)
            else (w', finish w' (run_modules w' (infer_disp options)
                                   (infer_exch options) pvc a
                                   (initial_state w' options pvc)))
      end
  end.
Proof.
  unfold basil_steps. destruct asldata as [a0|]; [|done].
  unfold bind at 1. unfold ret at 1. unfold bind at 1. unfold lift at 1.
  destruct (add_timings 0 (tis (diff a0)) (rpts (diff a0))
              (default_options (diff a0))) as [e|timed] eqn:Ht; [done|].
  unfold bind at 1. unfold get at 1.
  destruct (base_has w (diff a0) kwargs timed "model" eq_refl Ht) as [vm Hm].
  destruct (base_has w (diff a0) kwargs timed "disp" eq_refl Ht) as [vd Hd].
  destruct (base_has w (diff a0) kwargs timed "exch" eq_refl Ht) as [ve He].
  unfold bind at 1, lift at 1, getitem at 1. rewrite Hm.
  unfold bind at 1, lift at 1, getitem at 1. rewrite Hd.
  unfold bind at 1, lift at 1, getitem at 1. rewrite He.
  cbn zeta. unfold infer_disp, infer_exch. rewrite Hd, He.
  unfold pv_requested.
  destruct (given (pgm w)) eqn:Eg, (given (pwm w)) eqn:Ew; simpl;
    unfold bind, when, modify, raise, get, lift, ret; simpl; try done.
  all: by destruct (truthy (infertiss w)).
Qed.

End PlannerFacts.

(** ** The shape of a plan *)

(** The modules before the spatial one. *)
Definition inference_modules (w : Workspace) (inferdisp inferexch pvc : bool)
    (a : AslImage) (st : PState) : PState :=
  pv_module w pvc a (
  t1_module w (
  extensions_module w inferdisp inferexch (
  bolus_duration_module w (
  arterial_module w (
  tissue_module w st))))).

Lemma run_modules_spatial w d e pvc a st :
  run_modules w d e pvc a st = spatial_module w (inference_modules w d e pvc a st).
Proof. reflexivity. Qed.

(** With the spatial step on, planning succeeds and the plan ends with the
    spatial step, in staged and in single-step mode alike. *)
Lemma spatial_finish w st :
  truthy (spatial w) = true →
  finish w (spatial_module w st) =
  inr (p_steps st ++
       [FabberStep (delete "max-trials" (p_svb st ∪ p_options st))
                   ("Spatial VB - " +:+ p_components st)])%list.
Proof.
  intros E. unfold spatial_module, finish, staged. rewrite E. simpl.
  destruct (truthy (onestep w)); simpl; by destruct (p_steps st).
Qed.

(** Without the spatial step, the plan is what the inference modules left,
    plus the combined step in single-step mode. *)
Lemma no_spatial_finish w st :
  truthy (spatial w) = false → finish w (spatial_module w st) = finish w st.
Proof. intros E. unfold spatial_module. by rewrite E. Qed.

(** The modules only add prior declarations to the spatial options. *)
Lemma inference_modules_svb w d e pvc a st k :
  starts_with "PSP_byname" k = false →
  p_svb (inference_modules w d e pvc a st) !! k = p_svb st !! k.
Proof.
  intros Hk. unfold inference_modules.
  assert (∀ st, p_svb (pv_module w pvc a st) !! k = p_svb st !! k) as ->.
  { intros []. unfold pv_module. by destruct pvc. }
  assert (∀ st, p_svb (t1_module w st) !! k = p_svb st !! k) as ->.
  { intros []. unfold t1_module. by destruct (truthy (infert1 w)). }
  assert (∀ st, p_svb (extensions_module w d e st) !! k = p_svb st !! k) as ->.
  { intros []. unfold extensions_module.
    by destruct (d || e || truthy (inferpc w)), d, e, (truthy (inferpc w)). }
  assert (∀ st, p_svb (bolus_duration_module w st) !! k = p_svb st !! k) as ->.
  { intros []. unfold bolus_duration_module. by destruct (truthy (infertau w)). }
  assert (∀ st, p_svb (arterial_module w st) !! k = p_svb st !! k) as ->.
  { intros []. unfold arterial_module. destruct (truthy (inferart w)); simpl;
      by rewrite ?lookup_insert_ne by by apply psp_neq. }
  destruct st. unfold tissue_module. destruct (truthy (infertiss w)); simpl;
    by rewrite ?lookup_insert_ne by by apply psp_neq.
Qed.

(** What the keyword overrides say about the dispersion and exchange
    models: [options["disp"] != "none"] and [options["exch"] != "mix"], where
    only the overrides can replace the defaults. *)
Definition disp_requested (kwargs : dict) : bool :=
  match kwargs !! "disp" with Some v => ne_str v "none" | None => false end.

Definition exch_requested (kwargs : dict) : bool :=
  match kwargs !! "exch" with Some v => ne_str v "mix" | None => false end.

(** The workspace as planning leaves it. *)
Definition planning_wsp (w : Workspace) : Workspace :=
  if pv_requested w then set_spatial (Some true) w else w.

Section PlanFacts.

Variable diff : AslImage → AslImage.

(** The options once the keyword overrides are merged. *)
Definition base_options (a0 : AslImage) (kwargs : dict) (w : Workspace) : dict :=
  let a := diff a0 in
  kwargs ∪ wsp_options w
    (match add_timings 0 (tis a) (rpts a) (default_options a) with
     | inr timed => timed
     | inl _ => ∅
     end).

(** The planner's state when all modules have run. *)
Definition plan_state (a0 : AslImage) (kwargs : dict) (w : Workspace) : PState :=
  run_modules (planning_wsp w) (disp_requested kwargs) (exch_requested kwargs)
    (pv_requested w) (diff a0)
    (initial_state (planning_wsp w) (base_options a0 kwargs w) (pv_requested w)).

Lemma infer_disp_kwargs a kwargs w timed :
  add_timings 0 (tis a) (rpts a) (default_options a) = inr timed →
  infer_disp (kwargs ∪ wsp_options w timed) = disp_requested kwargs
  ∧ infer_exch (kwargs ∪ wsp_options w timed) = exch_requested kwargs.
Proof.
  intros Ht. unfold infer_disp, infer_exch, disp_requested, exch_requested.
  rewrite !lookup_union, !wsp_options_lookup by done.
  rewrite (add_timings_lookup _ _ _ _ _ "disp" eq_refl eq_refl Ht).
  rewrite (add_timings_lookup _ _ _ _ _ "exch" eq_refl eq_refl Ht).
  split; by destruct (kwargs !! _).
Qed.

Lemma base_options_lookup a0 kwargs w k :
  timed_ok (diff a0) → base_key k = false →
  base_options a0 kwargs w !! k = kwargs !! k.
Proof.
  intros Hok Hk. unfold base_options. cbn zeta.
  destruct (add_timings_ok 0 (tis (diff a0)) (rpts (diff a0))
              (default_options (diff a0)) Hok) as [timed Ht].
  rewrite Ht. by eapply base_lookup.
Qed.


(** Planning in closed form, when the data are well formed. *)
Lemma basil_steps_run a0 kwargs w :
  timed_ok (diff a0) →
  basil_steps diff (Some a0) kwargs w =
  if pv_requested w && (negb (given (pgm w)) || negb (given (pwm w)))
  then (w, inl one_pv_map_error)
  else if pv_requested w && negb (truthy (infertiss w))
  then (planning_wsp w, inl pv_without_tissue_error)
  else (planning_wsp w, finish (planning_wsp w) (plan_state a0 kwargs w)).
Proof.
  intros Hok. rewrite basil_steps_unfold. cbn zeta.
  unfold plan_state, base_options. cbn zeta.
  destruct (add_timings_ok 0 (tis (diff a0)) (rpts (diff a0))
              (default_options (diff a0)) Hok) as [timed Ht].
  rewrite Ht. destruct (infer_disp_kwargs _ kwargs w _ Ht) as [-> ->]. done.
Qed.

Lemma basil_steps_inv asldata kwargs w w' plan :
  basil_steps diff asldata kwargs w = (w', inr plan) →
  ∃ a0,
    asldata = Some a0
    ∧ w' = planning_wsp w
    ∧ (pv_requested w = true →
       given (pgm w) = true ∧ given (pwm w) = true ∧ truthy (infertiss w) = true)
    ∧ finish (planning_wsp w) (plan_state a0 kwargs w) = inr plan.
Proof.
  rewrite basil_steps_unfold. destruct asldata as [a0|]; [|done].
  cbn zeta. unfold plan_state, base_options, planning_wsp. cbn zeta.
  destruct (add_timings _ _ _ _) as [e|timed] eqn:Ht; [done|].
  destruct (infer_disp_kwargs _ kwargs w _ Ht) as [-> ->].
  destruct (pv_requested w) eqn:Epv.
  - unfold pv_requested in Epv.
    destruct (given (pgm w)), (given (pwm w)); try done;
      destruct (truthy (infertiss w)); try done;
      simpl; intros [= <- Hf]; exists a0; rewrite Ht; by repeat split.
  - simpl. intros [= <- Hf]. exists a0. rewrite Ht. by repeat split.
Qed.

(** A value under a key that no module writes is the same in every Fabber
    step of the plan as in the configuration the modules start from. *)
Lemma plan_keeps_initial a0 kwargs w plan k :
  finish (planning_wsp w) (plan_state a0 kwargs w) = inr plan →
  module_writes (planning_wsp w) (disp_requested kwargs) (exch_requested kwargs)
    (pv_requested w) k = false →
  Forall (keeps k (p_options (initial_state (planning_wsp w)
                                (base_options a0 kwargs w) (pv_requested w)) !! k))
    plan.
Proof.
  intros Hf Hk. eapply finish_keeps; [|exact Hf].
  apply (run_modules_frame _ _ _ _ _ _ Hk).
  by apply (initial_frame_self _ _ _ _ _ _ Hk).
Qed.

(** A value under a key that the planner does not write at all is, in
    every Fabber step, the one of the configuration as it stood when the
    keyword overrides had been merged. *)
Lemma plan_keeps a0 kwargs w plan k :
  finish (planning_wsp w) (plan_state a0 kwargs w) = inr plan →
  planner_writes (planning_wsp w) (disp_requested kwargs) (exch_requested kwargs)
    (pv_requested w) k = false →
  Forall (keeps k (base_options a0 kwargs w !! k)) plan.
Proof.
  intros Hf Hk. unfold planner_writes in Hk.
  apply orb_false_elim in Hk as [Hi Hm].
  eapply finish_keeps; [|exact Hf].
  apply (run_modules_frame _ _ _ _ _ _ Hm).
  by apply (initial_frame _ _ _ _ _ _ Hm).
Qed.

End PlanFacts.

(** Evaluates membership tests on literal keys. *)
Ltac eval_keys :=
  repeat match goal with
    | |- context [key_in ?k ?l] =>
        let b := eval vm_compute in (key_in k l) in change (key_in k l) with b
    | |- context [starts_with ?p ?k] =>
        let b := eval vm_compute in (starts_with p k) in
        change (starts_with p k) with b
    end;
  rewrite ?andb_false_r, ?orb_false_r, ?andb_true_r.

Lemma initial_svb_eq w options pvc :
  p_svb (initial_state w options pvc) =
  if pvc then <["max-iterations" := VInt 200]> spatial_options else spatial_options.
Proof. unfold initial_state. by destruct (t1im w). Qed.

Lemma initial_options_lookup w options pvc k :
  starts_with "PSP_byname" k = false →
  p_options (initial_state w options pvc) !! k =
  set_attr "continue-from-mvn" VImage (initmvn w) (inclusion_flags w options) !! k.
Proof.
  intros Hk. unfold initial_state. destruct (t1im w); simpl; [|done].
  by rewrite !lookup_insert_ne by by apply psp_neq.
Qed.

(** Reading the configuration of the spatial step. *)
Lemma spatial_step_lookup (svb o : dict) k :
  k ≠ "max-trials" →
  delete "max-trials" (svb ∪ o) !! k =
  match svb !! k with Some v => Some v | None => o !! k end.
Proof.
  intros Hk. rewrite lookup_delete_ne by congruence. rewrite lookup_union.
  by destruct (svb !! k), (o !! k).
Qed.

Lemma pv_module_pvcorr w a st :
  p_options (pv_module w true a st) !! "pvcorr" = Some (VBool true).
Proof.
  destruct st. unfold pv_module. simpl.
  rewrite !lookup_insert_ne by (by apply psp_neq). apply lookup_insert_eq.
Qed.

Lemma planning_wsp_flags w :
  let w' := planning_wsp w in
  pvcorr w' = pvcorr w ∧ infertiss w' = infertiss w ∧ inferart w' = inferart w
  ∧ infertau w' = infertau w ∧ infert1 w' = infert1 w ∧ inferpc w' = inferpc w
  ∧ inferbat w' = inferbat w ∧ onestep w' = onestep w ∧ initmvn w' = initmvn w
  ∧ t1im w' = t1im w ∧ pgm w' = pgm w ∧ pwm w' = pwm w ∧ mask w' = mask w
  ∧ spatial w' = (if pv_requested w then Some true else spatial w).
Proof. unfold planning_wsp. by destruct (pv_requested w). Qed.

Section Inclusion.

Variable diff : AslImage → AslImage.

(** C10. The inclusion flag [incpve] is governed by the workspace attribute
    [pvcorr] alone: in every planned Fabber configuration it is [True] when
    that attribute is truthy and otherwise absent (unless the keyword
    overrides themselves carry it), whether or not the two partial volume
    maps were supplied. In particular, with both maps supplied and the
    attribute unset, the plan ends with a configuration holding
    [pvcorr = True] and no [incpve]. *)
Theorem incpve_follows_pvcorr_attribute asldata kwargs w w' plan :
  basil_steps diff asldata kwargs w = (w', inr plan) →
  (∀ s, s ∈ plan → is_fabber s = true →
     step_options s !! "incpve" =
     if truthy (pvcorr w) then Some (VBool true) else kwargs !! "incpve")
  ∧ (given (pgm w) = true → given (pwm w) = true →
     truthy (pvcorr w) = false → kwargs !! "incpve" = None →
     ∃ front options desc,
       plan = (front ++ [FabberStep options desc])%list
       ∧ options !! "pvcorr" = Some (VBool true)
       ∧ options !! "incpve" = None).
Proof.
  intros H. apply basil_steps_inv in H as (a0 & -> & -> & _ & Hf).
  assert (∀ s, s ∈ plan → is_fabber s = true →
     step_options s !! "incpve" =
     if truthy (pvcorr w) then Some (VBool true) else kwargs !! "incpve") as Hall.
  { assert (module_writes (planning_wsp w) (disp_requested kwargs)
              (exch_requested kwargs) (pv_requested w) "incpve" = false) as Hm.
    { unfold module_writes. by eval_keys. }
    pose proof (plan_keeps_initial diff _ _ _ _ "incpve" Hf Hm) as Hk.
    rewrite Forall_forall in Hk. intros s Hs Hfab. rewrite (Hk s Hs Hfab).
    rewrite initial_options_lookup by done.
    rewrite set_attr_lookup by done. unfold inclusion_flags.
    rewrite set_flag_lookup_eq, !set_flag_lookup by done.
    destruct (planning_wsp_flags w) as (-> & _).
    destruct (truthy (pvcorr w)); [done|].
    unfold base_options. cbn zeta.
    destruct (add_timings _ _ _ _) as [e|timed] eqn:Ht.
    - rewrite lookup_union, wsp_options_lookup, lookup_empty by done.
      by destruct (kwargs !! "incpve").
    - eapply base_lookup; [done|exact Ht]. }
  split; [exact Hall|].
  intros Hg Hw Hpv Hkw.
  assert (pv_requested w = true) as Epv by (unfold pv_requested; by rewrite Hg).
  unfold plan_state in Hf. rewrite run_modules_spatial in Hf.
  rewrite spatial_finish in Hf
    by (unfold planning_wsp; by rewrite Epv).
  set (st := inference_modules _ _ _ _ _ _) in Hf.
  assert (plan = p_steps st ++
    [FabberStep (delete "max-trials" (p_svb st ∪ p_options st))
                ("Spatial VB - " +:+ p_components st)])%list as -> by congruence.
  eexists _, _, _. split; [done|]. split.
  - rewrite spatial_step_lookup by done. unfold st.
    rewrite inference_modules_svb, initial_svb_eq by done. rewrite Epv.
    unfold spatial_options. rewrite !lookup_insert_ne by done.
    rewrite lookup_empty. apply pv_module_pvcorr.
  - specialize (Hall (FabberStep (delete "max-trials" (p_svb st ∪ p_options st))
                                 ("Spatial VB - " +:+ p_components st))).
    rewrite Hpv, Hkw in Hall. apply Hall; [|done].
    apply elem_of_app. right. by apply list_elem_of_singleton.
Qed.

End Inclusion.

(** ** Example inputs *)

Definition ex_image (name : string) (data : list Q) : Image :=
  {| img_name := name; img_data := data |}.

(** A dataset with two inversion times, three repeats at each. *)
Definition ex_data : AslImage :=
  {| tis := [1.4%Q; 1.8%Q]; rpts := [3%Z; 3%Z]; asl_img := ex_image "asldata" [] |}.

(** Its mean over the repeats. *)
Definition ex_mean_data : AslImage :=
  {| tis := [1.4%Q; 1.8%Q]; rpts := [1%Z; 1%Z]; asl_img := ex_image "asldata_mean" [] |}.

(** A dataset with a single inversion time. *)
Definition ex_single_ti : AslImage :=
  {| tis := [1.8%Q]; rpts := [4%Z]; asl_img := ex_image "asldata" [] |}.

(** A workspace with given data, flags and partial volume maps, all other
    attributes unset. *)
Definition ex_wsp (data mean : option AslImage)
    (tiss art tau spat one pvc : option bool) (gm wm : option Image) : Workspace :=
  {| asldata := data; asldata_mean_across_repeats := mean; mask := None;
     wp := None; casl := None; infertiss := tiss; inferbat := None;
     infertau := tau; inferart := art; infert1 := None; inferpc := None;
     spatial := spat; onestep := one; pvcorr := pvc; t1im := None;
     pgm := gm; pwm := wm; initmvn := None; t1 := None; t1b := None;
     bat := None; tau := None; slicedt := None; sliceband := None;
     FA := None; basil_options := None |}.

Definition ex_gm : Image := ex_image "pgm" [0.6%Q; 0.1%Q].
Definition ex_wm : Image := ex_image "pwm" [0.3%Q; 0.5%Q].


(** Evaluates the planner on a concrete workspace [w] without partial
    volume maps and with the spatial step on. *)
Ltac plan_spatial w :=
  rewrite (basil_steps_run id _ _ w) by (unfold timed_ok; simpl; lia);
  change (pv_requested w) with false; cbn [andb];
  unfold plan_state; rewrite run_modules_spatial, spatial_finish by reflexivity.



(** ** What kinds of step a plan holds *)

Lemma staged_all (P : Step → Prop) w options desc steps :
  P (FabberStep options desc) → Forall P steps →
  Forall P (staged w options desc steps).
Proof.
  intros Hf Hs. unfold staged. destruct (truthy (onestep w)); [done|].
  apply Forall_app. split; [done|]. by apply Forall_singleton.
Qed.

(** A property of all Fabber steps, and of PVC initialisation steps if
    partial volume correction is on, holds of every step the modules add. *)
Lemma run_modules_all (P : Step → Prop) w d e pvc a st :
  (∀ o desc, P (FabberStep o desc)) →
  (pvc = true → ∀ o desc, P (PvcInitStep o desc)) →
  Forall P (p_steps st) →
  Forall P (p_steps (run_modules w d e pvc a st)).
Proof.
  intros Hf Hp. unfold run_modules.
  assert (∀ st, Forall P (p_steps st) → Forall P (p_steps (tissue_module w st))) as H1.
  { intros [] ?. unfold tissue_module. destruct (truthy (infertiss w)); [|done].
    by apply staged_all. }
  assert (∀ st, Forall P (p_steps st) → Forall P (p_steps (arterial_module w st))) as H2.
  { intros [] ?. unfold arterial_module. destruct (truthy (inferart w)); [|done].
    by apply staged_all. }
  assert (∀ st, Forall P (p_steps st) →
                Forall P (p_steps (bolus_duration_module w st))) as H3.
  { intros [] ?. unfold bolus_duration_module.
    destruct (truthy (infertau w)); [|done]. by apply staged_all. }
  assert (∀ st, Forall P (p_steps st) →
                Forall P (p_steps (extensions_module w d e st))) as H4.
  { intros [] ?. unfold extensions_module.
    destruct (d || e || truthy (inferpc w)); [|done].
    destruct d, e, (truthy (inferpc w)); by apply staged_all. }
  assert (∀ st, Forall P (p_steps st) → Forall P (p_steps (t1_module w st))) as H5.
  { intros [] ?. unfold t1_module. destruct (truthy (infert1 w)); [|done].
    by apply staged_all. }
  assert (∀ st, Forall P (p_steps st) → Forall P (p_steps (pv_module w pvc a st))) as H6.
  { intros [o svb n steps c ds] Hs. unfold pv_module. destruct pvc; [|done].
    simpl. destruct steps; [done|]. apply Forall_app. split; [done|].
    apply Forall_singleton. by apply Hp. }
  assert (∀ st, Forall P (p_steps st) → Forall P (p_steps (spatial_module w st))) as H7.
  { intros [] ?. unfold spatial_module. destruct (truthy (spatial w)); [|done].
    by apply staged_all. }
  intros Hs. by apply H7, H6, H5, H4, H3, H2, H1.
Qed.

Lemma finish_all (P : Step → Prop) w st plan :
  (∀ o desc, P (FabberStep o desc)) → Forall P (p_steps st) →
  finish w st = inr plan → Forall P plan.
Proof.
  intros Hf Hs. unfold finish. destruct (truthy (onestep w)).
  - destruct (p_step_desc st) as [d|]; [|done].
    destruct (p_steps st ++ [FabberStep (p_options st) d])%list eqn:E; [done|].
    intros [= <-]. rewrite <- E. apply Forall_app. split; [done|].
    by apply Forall_singleton.
  - destruct (p_steps st); [done|]. by intros [= <-].
Qed.

(** The errors of the last stage: an unbound [step_desc] in single-step
    mode, or an empty plan; and a plan that is returned is not empty. *)
Lemma finish_cases w st :
  finish w st = inl (NameError "step_desc")
  ∨ finish w st = inl no_steps_error
  ∨ ∃ s plan, finish w st = inr (s :: plan).
Proof.
  unfold finish. destruct (truthy (onestep w)).
  - destruct (p_step_desc st); [|by left]. right. right.
    destruct (p_steps st); simpl; eauto.
  - destruct (p_steps st); eauto.
Qed.

Lemma initial_steps w options pvc : p_steps (initial_state w options pvc) = [].
Proof. unfold initial_state. by destruct (t1im w). Qed.

Section PartialVolume.

Variable diff : AslImage → AslImage.

(** C5. The four cases of the partial volume maps, for well-formed data:
    exactly one map raises the one-map configuration error; no map leaves
    the workspace as it is, raises neither partial volume error, plans only
    Fabber steps and writes no [pvcorr] into them; both maps with tissue
    inference enabled switch [wsp.spatial] on and make the plan end with the
    spatial step, whose configuration has [pvcorr = True], the spatial
    method and an iteration cap of 200; both maps without tissue inference
    raise the configuration error on the missing tissue component. *)
Theorem pv_maps_cases a0 kwargs w :
  timed_ok (diff a0) →
  let r := basil_steps diff (Some a0) kwargs w in
  (given (pgm w) ≠ given (pwm w) → r = (w, inl one_pv_map_error))
  ∧ (pgm w = None → pwm w = None →
     r.1 = w
     ∧ r.2 ≠ inl one_pv_map_error ∧ r.2 ≠ inl pv_without_tissue_error
     ∧ ∀ plan, r.2 = inr plan →
         Forall (λ s, is_fabber s = true
                      ∧ step_options s !! "pvcorr" = kwargs !! "pvcorr") plan)
  ∧ (given (pgm w) = true → given (pwm w) = true → truthy (infertiss w) = true →
     ∃ front options desc,
       r = (set_spatial (Some true) w, inr (front ++ [FabberStep options desc])%list)
       ∧ options !! "pvcorr" = Some (VBool true)
       ∧ options !! "method" = Some (VStr "spatialvb")
       ∧ options !! "max-iterations" = Some (VInt 200))
  ∧ (given (pgm w) = true → given (pwm w) = true → truthy (infertiss w) = false →
     r = (set_spatial (Some true) w, inl pv_without_tissue_error)).
Proof.
  intros Hok r. unfold r. rewrite (basil_steps_run diff a0 kwargs w Hok).
  split; [|split; [|split]].
  - unfold pv_requested. intros Hne.
    destruct (given (pgm w)), (given (pwm w)); done.
  - intros Hg Hw. unfold pv_requested. rewrite Hg, Hw. simpl.
    assert (planning_wsp w = w) as Ew.
    { unfold planning_wsp, pv_requested. by rewrite Hg, Hw. }
    split; [exact Ew|]. split; [|split].
    + destruct (finish_cases (planning_wsp w) (plan_state diff a0 kwargs w))
        as [-> | [-> | (s & plan & ->)]]; done.
    + destruct (finish_cases (planning_wsp w) (plan_state diff a0 kwargs w))
        as [-> | [-> | (s & plan & ->)]]; done.
    + intros plan Hf.
      assert (Forall (λ s, is_fabber s = true) plan) as Hfab.
      { eapply finish_all; [done| |exact Hf]. unfold plan_state.
        apply run_modules_all; [done|..].
        - unfold pv_requested. by rewrite Hg, Hw.
        - by rewrite initial_steps. }
      assert (Forall (keeps "pvcorr" (base_options diff a0 kwargs w !! "pvcorr"))
                plan) as Hk.
      { apply (plan_keeps diff _ _ _ _ _ Hf).
        unfold planner_writes, initial_writes, module_writes, pv_requested.
        rewrite Hg, Hw. by eval_keys. }
      rewrite Forall_forall in Hfab, Hk. apply Forall_forall. intros s Hs.
      split; [by apply Hfab|]. rewrite (Hk s Hs (Hfab s Hs)).
      by apply base_options_lookup.
  - intros Hg Hw Ht. unfold pv_requested. rewrite Hg, Hw, Ht. simpl.
    assert (pv_requested w = true) as Epv by (unfold pv_requested; by rewrite Hg).
    unfold plan_state, planning_wsp. rewrite Epv.
    rewrite run_modules_spatial, spatial_finish by done.
    eexists _, _, _. split; [done|].
    rewrite !spatial_step_lookup by done.
    rewrite !inference_modules_svb, initial_svb_eq by done.
    unfold spatial_options. split; [|split].
    + rewrite !lookup_insert_ne by done. rewrite lookup_empty.
      apply pv_module_pvcorr.
    + by rewrite !lookup_insert_ne, lookup_insert_eq by done.
    + by rewrite lookup_insert_eq.
  - intros Hg Hw Ht. unfold pv_requested, planning_wsp, pv_requested.
    by rewrite Hg, Hw, Ht.
Qed.

End PartialVolume.

Lemma pv_maps_cases_witness :
  timed_ok ex_data
  ∧ basil_steps id (Some ex_data) ∅
      (ex_wsp (Some ex_data) None None (Some true) None None None None
         (Some ex_gm) (Some ex_wm))
    = (set_spatial (Some true)
         (ex_wsp (Some ex_data) None None (Some true) None None None None
            (Some ex_gm) (Some ex_wm)),
       inl pv_without_tissue_error).
Proof.
  assert (timed_ok ex_data) as Hok by (unfold timed_ok; simpl; lia).
  split; [exact Hok|].
  apply (pv_maps_cases id ex_data ∅ _ Hok); reflexivity.
Defined.

Section EmptyPlan.

Variable diff : AslImage → AslImage.

(** No inference flag is on: neither a workspace flag nor, through the
    overrides, a dispersion or exchange model. *)
Definition no_inference (w : Workspace) (kwargs : dict) : Prop :=
  truthy (infertiss w) = false ∧ truthy (inferart w) = false
  ∧ truthy (infertau w) = false ∧ truthy (infert1 w) = false
  ∧ truthy (inferpc w) = false
  ∧ disp_requested kwargs = false ∧ exch_requested kwargs = false.

Lemma no_inference_modules w kwargs a st :
  no_inference w kwargs →
  inference_modules w (disp_requested kwargs) (exch_requested kwargs) false a st = st.
Proof.
  intros (H1 & H2 & H3 & H4 & H5 & -> & ->). unfold inference_modules.
  unfold tissue_module. rewrite H1.
  unfold arterial_module. rewrite H2.
  unfold bolus_duration_module. rewrite H3.
  unfold extensions_module. rewrite H5. cbn [orb].
  unfold t1_module. rewrite H4. done.
Qed.

Lemma initial_components w options pvc :
  p_components (initial_state w options pvc) = "".
Proof. unfold initial_state. by destruct (t1im w). Qed.

(** C8. A step list returned by the planner is never empty. With every
    flag off, that is for well-formed data without partial volume maps, with
    no inference flag on and no spatial step, staged planning raises the
    configuration error of the empty plan. In single-step mode the same
    configuration does not reach that error: the final step is built from
    a description that no module has assigned, and the error of the
    unbound variable is raised instead. *)
Theorem empty_plan_is_an_error :
  (∀ asldata kwargs w w' plan,
     basil_steps diff asldata kwargs w = (w', inr plan) → plan ≠ [])
  ∧ (∀ a0 kwargs w,
       timed_ok (diff a0) → pgm w = None → pwm w = None →
       no_inference w kwargs → truthy (spatial w) = false →
       basil_steps diff (Some a0) kwargs w
       = (w, inl (if truthy (onestep w) then NameError "step_desc"
                  else no_steps_error))).
Proof.
  split.
  - intros asldata kwargs w w' plan H.
    apply basil_steps_inv in H as (a0 & _ & _ & _ & Hf).
    destruct (finish_cases (planning_wsp w) (plan_state diff a0 kwargs w))
      as [E | [E | (s & l & E)]]; rewrite E in Hf; by simplify_eq.
  - intros a0 kwargs w Hok Hg Hw Hno Hs.
    rewrite (basil_steps_run diff a0 kwargs w Hok).
    assert (pv_requested w = false) as Epv by (unfold pv_requested; by rewrite Hg, Hw).
    unfold plan_state, planning_wsp. rewrite Epv. cbn [andb].
    rewrite run_modules_spatial, no_inference_modules by done.
    rewrite no_spatial_finish by done.
    unfold finish. destruct (truthy (onestep w)).
    + unfold initial_state. by destruct (t1im w).
    + by rewrite initial_steps.
Qed.

End EmptyPlan.

(** With no inference flag on but the spatial step requested, planning
    raises no error: it returns a one-step plan. *)
Lemma spatial_alone_is_planned :
  let w := ex_wsp (Some ex_data) None None None None (Some true) None None
             None None in
  no_inference w ∅
  ∧ (basil_steps id (Some ex_data) ∅ w).2 ≠ inl no_steps_error
  ∧ ∃ s, (basil_steps id (Some ex_data) ∅ w).2 = inr [s].
Proof.
  intros w. split; [by repeat split|].
  unfold w. plan_spatial (ex_wsp (Some ex_data) None None None None (Some true)
                            None None None None).
  split; [done|]. eexists. reflexivity.
Qed.

Lemma empty_plan_witness :
  let w := ex_wsp (Some ex_data) None None None None None None None None None in
  let w1 := ex_wsp (Some ex_data) None None None None None (Some true) None
              None None in
  timed_ok ex_data ∧ no_inference w ∅
  ∧ basil_steps id (Some ex_data) ∅ w = (w, inl no_steps_error)
  ∧ basil_steps id (Some ex_data) ∅ w1 = (w1, inl (NameError "step_desc")).
Proof.
  intros w w1.
  assert (timed_ok ex_data) as Hok by (unfold timed_ok; simpl; lia).
  assert (no_inference w ∅) as Hno by by repeat split.
  assert (no_inference w1 ∅) as Hno1 by by repeat split.
  split; [exact Hok|]. split; [exact Hno|]. split.
  - exact (proj2 (empty_plan_is_an_error id) ex_data ∅ w Hok eq_refl eq_refl Hno
             eq_refl).
  - exact (proj2 (empty_plan_is_an_error id) ex_data ∅ w1 Hok eq_refl eq_refl Hno1
             eq_refl).
Defined.

(** ** The modules, field by field *)

(** The configuration the inference modules leave, read at a key that is
    not a prior declaration. *)
Lemma inference_modules_lookup w d e pvc a st k :
  starts_with "PSP_byname" k = false →
  p_options (inference_modules w d e pvc a st) !! k =
  set_flag pvc "pvcorr" (
  set_flag (truthy (infert1 w)) "infert1" (
  set_flag (truthy (inferpc w)) "inferpc" (
  set_flag e "inferexch" (
  set_flag d "inferdisp" (
  set_flag (truthy (infertau w)) "infertau" (
  set_flag (truthy (inferart w)) "inferart" (
  set_flag (truthy (infertiss w)) "infertiss" (p_options st)))))))) !! k.
Proof.
  intros Hk. unfold inference_modules.
  assert (∀ st, p_options (pv_module w pvc a st) !! k
                = set_flag pvc "pvcorr" (p_options st) !! k) as ->.
  { intros []. unfold pv_module. destruct pvc; [|done]. simpl.
    by rewrite !lookup_insert_ne by by apply psp_neq. }
  assert (∀ st, p_options (t1_module w st)
                = set_flag (truthy (infert1 w)) "infert1" (p_options st)) as ->.
  { intros []. unfold t1_module. by destruct (truthy (infert1 w)). }
  assert (∀ st, p_options (extensions_module w d e st)
                = set_flag (truthy (inferpc w)) "inferpc" (
                  set_flag e "inferexch" (
                  set_flag d "inferdisp" (p_options st)))) as ->.
  { intros []. unfold extensions_module.
    by destruct d, e, (truthy (inferpc w)). }
  assert (∀ st, p_options (bolus_duration_module w st)
                = set_flag (truthy (infertau w)) "infertau" (p_options st)) as ->.
  { intros []. unfold bolus_duration_module. by destruct (truthy (infertau w)). }
  assert (∀ st, p_options (arterial_module w st)
                = set_flag (truthy (inferart w)) "inferart" (p_options st)) as ->.
  { intros []. unfold arterial_module. by destruct (truthy (inferart w)). }
  assert (∀ st, p_options (tissue_module w st)
                = set_flag (truthy (infertiss w)) "infertiss" (p_options st)) as ->.
  { intros []. unfold tissue_module. by destruct (truthy (infertiss w)). }
  done.
Qed.

(** Everything in the planner's state but the list of steps. *)
Definition core (st : PState) : dict * dict * nat * string * option string :=
  (p_options st, p_svb st, p_spriors st, p_components st, p_step_desc st).

(** Single-step mode changes the list of steps and nothing else. *)
Lemma inference_modules_core w v d e pvc a st st' :
  core st = core st' →
  core (inference_modules w d e pvc a st)
  = core (inference_modules (set_onestep v w) d e pvc a st').
Proof.
  unfold inference_modules.
  assert (∀ st st', core st = core st' →
            core (tissue_module w st) = core (tissue_module (set_onestep v w) st')) as H1.
  { intros [] [] [= -> -> -> -> ->]. unfold tissue_module. simpl.
    by destruct (truthy (infertiss w)). }
  assert (∀ st st', core st = core st' →
            core (arterial_module w st)
            = core (arterial_module (set_onestep v w) st')) as H2.
  { intros [] [] [= -> -> -> -> ->]. unfold arterial_module. simpl.
    by destruct (truthy (inferart w)). }
  assert (∀ st st', core st = core st' →
            core (bolus_duration_module w st)
            = core (bolus_duration_module (set_onestep v w) st')) as H3.
  { intros [] [] [= -> -> -> -> ->]. unfold bolus_duration_module. simpl.
    by destruct (truthy (infertau w)). }
  assert (∀ st st', core st = core st' →
            core (extensions_module w d e st)
            = core (extensions_module (set_onestep v w) d e st')) as H4.
  { intros [] [] [= -> -> -> -> ->]. unfold extensions_module. simpl.
    by destruct d, e, (truthy (inferpc w)). }
  assert (∀ st st', core st = core st' →
            core (t1_module w st) = core (t1_module (set_onestep v w) st')) as H5.
  { intros [] [] [= -> -> -> -> ->]. unfold t1_module. simpl.
    by destruct (truthy (infert1 w)). }
  assert (∀ st st', core st = core st' →
            core (pv_module w pvc a st)
            = core (pv_module (set_onestep v w) pvc a st')) as H6.
  { intros [] [] [= -> -> -> -> ->]. unfold pv_module. simpl. by destruct pvc. }
  intros H. by apply H6, H5, H4, H3, H2, H1.
Qed.

(** In single-step mode the inference modules record no step. *)
Lemma inference_modules_onestep w d e pvc a st :
  truthy (onestep w) = true → p_steps st = [] →
  p_steps (inference_modules w d e pvc a st) = [].
Proof.
  intros Ho. unfold inference_modules.
  assert (∀ st, p_steps st = [] → p_steps (tissue_module w st) = []) as H1.
  { intros [] ?. unfold tissue_module, staged. rewrite Ho.
    by destruct (truthy (infertiss w)). }
  assert (∀ st, p_steps st = [] → p_steps (arterial_module w st) = []) as H2.
  { intros [] ?. unfold arterial_module, staged. rewrite Ho.
    by destruct (truthy (inferart w)). }
  assert (∀ st, p_steps st = [] → p_steps (bolus_duration_module w st) = []) as H3.
  { intros [] ?. unfold bolus_duration_module, staged. rewrite Ho.
    by destruct (truthy (infertau w)). }
  assert (∀ st, p_steps st = [] → p_steps (extensions_module w d e st) = []) as H4.
  { intros [] ?. unfold extensions_module, staged. rewrite Ho.
    by destruct d, e, (truthy (inferpc w)). }
  assert (∀ st, p_steps st = [] → p_steps (t1_module w st) = []) as H5.
  { intros [] ?. unfold t1_module, staged. rewrite Ho.
    by destruct (truthy (infert1 w)). }
  assert (∀ st, p_steps st = [] → p_steps (pv_module w pvc a st) = []) as H6.
  { intros [] Hs. unfold pv_module. simpl in *. rewrite Hs. by destruct pvc. }
  intros Hs. by apply H6, H5, H4, H3, H2, H1.
Qed.

(** In staged mode without partial volume correction, the last step
    recorded is a Fabber step on the current configuration, described by the
    current [step_desc]. *)
Definition last_is_current (st : PState) : Prop :=
  match p_step_desc st with
  | Some desc => last (p_steps st) = Some (FabberStep (p_options st) desc)
  | None => True
  end.

Lemma inference_modules_last w d e a st :
  truthy (onestep w) = false → last_is_current st →
  last_is_current (inference_modules w d e false a st).
Proof.
  intros Ho. unfold inference_modules, pv_module.
  assert (∀ st, last_is_current st → last_is_current (tissue_module w st)) as H1.
  { intros [] ?. unfold tissue_module, staged, last_is_current. rewrite Ho.
    destruct (truthy (infertiss w)); [|done]. simpl. apply last_snoc. }
  assert (∀ st, last_is_current st → last_is_current (arterial_module w st)) as H2.
  { intros [] ?. unfold arterial_module, staged, last_is_current. rewrite Ho.
    destruct (truthy (inferart w)); [|done]. simpl. apply last_snoc. }
  assert (∀ st, last_is_current st →
                last_is_current (bolus_duration_module w st)) as H3.
  { intros [] ?. unfold bolus_duration_module, staged, last_is_current. rewrite Ho.
    destruct (truthy (infertau w)); [|done]. simpl. apply last_snoc. }
  assert (∀ st, last_is_current st →
                last_is_current (extensions_module w d e st)) as H4.
  { intros [] ?. unfold extensions_module, staged, last_is_current. rewrite Ho.
    destruct d, e, (truthy (inferpc w)); try done; simpl; apply last_snoc. }
  assert (∀ st, last_is_current st → last_is_current (t1_module w st)) as H5.
  { intros [] ?. unfold t1_module, staged, last_is_current. rewrite Ho.
    destruct (truthy (infert1 w)); [|done]. simpl. apply last_snoc. }
  intros Hs. by apply H5, H4, H3, H2, H1.
Qed.

(** Whether some inference module runs. *)
Definition inference_on (w : Workspace) (d e : bool) : bool :=
  truthy (infertiss w) || truthy (inferart w) || truthy (infertau w)
  || d || e || truthy (inferpc w) || truthy (infert1 w).

(** A module that runs binds [step_desc]. *)
Lemma inference_modules_desc w d e pvc a st :
  inference_on w d e = true →
  is_Some (p_step_desc (inference_modules w d e pvc a st)).
Proof.
  unfold inference_on, inference_modules. intros H.
  assert (∀ st, p_step_desc (pv_module w pvc a st) = p_step_desc st) as ->.
  { intros []. unfold pv_module. by destruct pvc. }
  assert (∀ st, truthy (infertiss w) = true ∨ is_Some (p_step_desc st) →
                is_Some (p_step_desc (tissue_module w st))) as H1.
  { intros [] [E|E]; unfold tissue_module; [rewrite E; by eexists|].
    by destruct (truthy (infertiss w)). }
  assert (∀ st, truthy (inferart w) = true ∨ is_Some (p_step_desc st) →
                is_Some (p_step_desc (arterial_module w st))) as H2.
  { intros [] [E|E]; unfold arterial_module; [rewrite E; by eexists|].
    by destruct (truthy (inferart w)). }
  assert (∀ st, truthy (infertau w) = true ∨ is_Some (p_step_desc st) →
                is_Some (p_step_desc (bolus_duration_module w st))) as H3.
  { intros [] [E|E]; unfold bolus_duration_module; [rewrite E; by eexists|].
    by destruct (truthy (infertau w)). }
  assert (∀ st, d || e || truthy (inferpc w) = true ∨ is_Some (p_step_desc st) →
                is_Some (p_step_desc (extensions_module w d e st))) as H4.
  { intros [] [E|E]; unfold extensions_module.
    - rewrite E. by destruct d, e, (truthy (inferpc w)).
    - by destruct d, e, (truthy (inferpc w)). }
  assert (∀ st, truthy (infert1 w) = true ∨ is_Some (p_step_desc st) →
                is_Some (p_step_desc (t1_module w st))) as H5.
  { intros [] [E|E]; unfold t1_module; [rewrite E; by eexists|].
    by destruct (truthy (infert1 w)). }
  apply H5. destruct (truthy (infert1 w)); [by left|right].
  apply H4. destruct (d || e || truthy (inferpc w)) eqn:E4; [by left|right].
  apply H3. destruct (truthy (infertau w)); [by left|right].
  apply H2. destruct (truthy (inferart w)); [by left|right].
  apply H1. left. destruct (truthy (infertiss w)); [done|].
  destruct d, e, (truthy (inferpc w)); done.
Qed.

Section SingleStep.

Variable diff : AslImage → AslImage.

(** The keys that the enabled features set to [True], feature by feature. *)
Definition feature_keys (w : Workspace) (kwargs : dict) : list string :=
  ((if truthy (infertiss w) then ["inctiss"; "infertiss"] else [])
   ++ (if truthy (inferbat w) then ["incbat"; "inferbat"] else [])
   ++ (if truthy (inferart w) then ["incart"; "inferart"] else [])
   ++ (if truthy (inferpc w) then ["incpc"; "inferpc"] else [])
   ++ (if truthy (infertau w) then ["inctau"; "infertau"] else [])
   ++ (if truthy (infert1 w) then ["inct1"; "infert1"] else [])
   ++ (if truthy (pvcorr w) then ["incpve"] else [])
   ++ (if disp_requested kwargs then ["inferdisp"] else [])
   ++ (if exch_requested kwargs then ["inferexch"] else [])
   ++ (if pv_requested w then ["pvcorr"] else []))%list.

(** Some feature that plans a step is on. *)
Definition feature_enabled (w : Workspace) (kwargs : dict) : bool :=
  inference_on w (disp_requested kwargs) (exch_requested kwargs)
  || truthy (spatial w).

(** The state once the inference modules have run. *)
Definition inferred_state (a0 : AslImage) (kwargs : dict) (w : Workspace) : PState :=
  inference_modules (planning_wsp w) (disp_requested kwargs)
    (exch_requested kwargs) (pv_requested w) (diff a0)
    (initial_state (planning_wsp w) (base_options diff a0 kwargs w)
       (pv_requested w)).

Ltac flag_lookup E :=
  repeat first
    [ rewrite set_flag_lookup_eq, E
    | rewrite set_flag_lookup by (intros _; discriminate)
    | rewrite set_attr_lookup by (intros _; discriminate) ].

Lemma feature_keys_set a0 kwargs w k :
  k ∈ feature_keys w kwargs →
  p_options (inferred_state a0 kwargs w) !! k = Some (VBool true)
  ∧ k ≠ "max-trials"
  ∧ p_svb (inferred_state a0 kwargs w) !! k = None.
Proof.
  intros Hk. unfold feature_keys in Hk. rewrite !elem_of_app in Hk.
  assert (∀ k, starts_with "PSP_byname" k = false → k ≠ "max-iterations" →
               k ≠ "convergence" → k ≠ "param-spatial-priors" → k ≠ "method" →
               p_svb (inferred_state a0 kwargs w) !! k = None) as Hsvb.
  { intros k' ? ? ? ? ?. unfold inferred_state.
    rewrite inference_modules_svb, initial_svb_eq by done.
    unfold spatial_options.
    destruct (pv_requested w); by rewrite !lookup_insert_ne by done. }
  pose proof (planning_wsp_flags w) as HF. cbv zeta in HF.
  destruct HF as (F1 & F2 & F3 & F4 & F5 & F6 & F7 & F8 & F9 & _).
  repeat match goal with
    | H : _ ∨ _ |- _ => destruct H as [H|H]
    end;
  match goal with
    | H : k ∈ (if ?c then _ else _) |- _ =>
        destruct c eqn:E; [|by apply not_elem_of_nil in H]
    end;
  repeat match goal with
    | H : k ∈ _ :: _ |- _ => apply elem_of_cons in H as [->|H]
    | H : k ∈ [] |- _ => by apply not_elem_of_nil in H
    end;
  (split; [|split; [done|by apply Hsvb]]);
  unfold inferred_state; rewrite inference_modules_lookup by done;
  rewrite ?F1, ?F2, ?F3, ?F4, ?F5, ?F6, ?F7; flag_lookup E; try done;
  rewrite initial_options_lookup by done;
  unfold inclusion_flags; rewrite ?F1, ?F2, ?F3, ?F4, ?F5, ?F6, ?F7, ?F9;
  by flag_lookup E.
Qed.

Lemma core_eq st st' :
  core st = core st' →
  p_options st = p_options st' ∧ p_svb st = p_svb st'
  ∧ p_components st = p_components st' ∧ p_step_desc st = p_step_desc st'.
Proof. destruct st, st'. unfold core. simpl. intros [= -> -> _ -> ->]. done. Qed.

Lemma planning_wsp_onestep v w :
  planning_wsp (set_onestep v w) = set_onestep v (planning_wsp w).
Proof.
  unfold planning_wsp. change (pv_requested (set_onestep v w)) with (pv_requested w).
  by destruct (pv_requested w).
Qed.

Lemma plan_state_inferred a0 kwargs w :
  plan_state diff a0 kwargs w
  = spatial_module (planning_wsp w) (inferred_state a0 kwargs w).
Proof. unfold plan_state. by rewrite run_modules_spatial. Qed.

Lemma inferred_state_core a0 kwargs v w :
  core (inferred_state a0 kwargs w)
  = core (inferred_state a0 kwargs (set_onestep v w)).
Proof.
  unfold inferred_state. rewrite planning_wsp_onestep.
  change (pv_requested (set_onestep v w)) with (pv_requested w).
  by apply inference_modules_core.
Qed.

(** C4. In single-step mode, with some step-planning feature enabled, the
    planner returns exactly one step, a Fabber step.  Its configuration and
    description are those of the last step of the plan that the same call
    builds in staged mode, which has accumulated the overlay of every
    enabled feature: every key that an enabled feature sets is [True] in it,
    and with spatial smoothing on it carries the spatial method. *)
Theorem single_step_plan a0 kwargs w :
  timed_ok (diff a0) →
  truthy (onestep w) = true →
  (pv_requested w = true →
   given (pgm w) = true ∧ given (pwm w) = true ∧ truthy (infertiss w) = true) →
  feature_enabled w kwargs = true →
  ∃ options desc staged_plan,
    basil_steps diff (Some a0) kwargs w
    = (planning_wsp w, inr [FabberStep options desc])
    ∧ basil_steps diff (Some a0) kwargs (set_onestep (Some false) w)
      = (planning_wsp (set_onestep (Some false) w), inr staged_plan)
    ∧ last staged_plan = Some (FabberStep options desc)
    ∧ (∀ k, k ∈ feature_keys w kwargs → options !! k = Some (VBool true))
    ∧ (truthy (spatial (planning_wsp w)) = true →
       options !! "method" = Some (VStr "spatialvb")).
Proof.
  intros Hok Ho Hpv Hfe.
  pose proof (planning_wsp_flags w) as HF. cbv zeta in HF.
  destruct HF as (_ & _ & _ & _ & _ & _ & _ & F8 & _ & _ & _ & _ & _ & Fs).
  assert (pv_requested w && (negb (given (pgm w)) || negb (given (pwm w))) = false
          ∧ pv_requested w && negb (truthy (infertiss w)) = false) as [G1 G2].
  { destruct (pv_requested w); [|done].
    destruct Hpv as (-> & -> & ->); done. }
  set (w2 := set_onestep (Some false) w).
  rewrite (basil_steps_run diff a0 kwargs w Hok), G1, G2.
  rewrite (basil_steps_run diff a0 kwargs w2 Hok).
  change (pv_requested w2) with (pv_requested w).
  change (given (pgm w2)) with (given (pgm w)).
  change (given (pwm w2)) with (given (pwm w)).
  change (truthy (infertiss w2)) with (truthy (infertiss w)).
  rewrite G1, G2. rewrite !plan_state_inferred.
  destruct (core_eq _ _ (inferred_state_core a0 kwargs (Some false) w))
    as (Eo & Es & Ec & Ed).
  fold w2 in Eo, Es, Ec, Ed.
  set (st1 := inferred_state a0 kwargs w) in *.
  set (st2 := inferred_state a0 kwargs w2) in *.
  assert (p_steps st1 = []) as Hs1.
  { unfold st1, inferred_state.
    apply inference_modules_onestep; [by rewrite F8|apply initial_steps]. }
  assert (truthy (spatial (planning_wsp w2)) = truthy (spatial (planning_wsp w)))
    as Hsp by (unfold w2; by rewrite planning_wsp_onestep).
  destruct (truthy (spatial (planning_wsp w))) eqn:Esp.
  - rewrite !spatial_finish by congruence. rewrite Hs1, <- Eo, <- Es, <- Ec.
    eexists _, _, _. split; [reflexivity|]. split; [reflexivity|].
    split; [apply last_snoc|]. split.
    + intros k Hk. destruct (feature_keys_set a0 kwargs w k Hk) as (H1 & H2 & H3).
      fold st1 in H1, H3. rewrite spatial_step_lookup by done. by rewrite H3.
    + intros _. rewrite spatial_step_lookup by done.
      unfold st1, inferred_state.
      rewrite inference_modules_svb, initial_svb_eq by done.
      by destruct (pv_requested w).
  - rewrite !no_spatial_finish by congruence.
    assert (pv_requested w = false) as Hnp.
    { destruct (pv_requested w); [|done]. by rewrite Fs in Esp. }
    assert (inference_on (planning_wsp w) (disp_requested kwargs)
              (exch_requested kwargs) = true) as Hon.
    { unfold planning_wsp in *. rewrite Hnp in *.
      unfold feature_enabled in Hfe. rewrite Esp in Hfe.
      by rewrite orb_false_r in Hfe. }
    destruct (inference_modules_desc _ _ _ (pv_requested w) (diff a0)
                (initial_state (planning_wsp w) (base_options diff a0 kwargs w)
                   (pv_requested w)) Hon) as [desc Hd].
    fold (inferred_state a0 kwargs w) in Hd. fold st1 in Hd.
    assert (last_is_current st2) as Hl.
    { unfold st2, inferred_state.
      change (pv_requested w2) with (pv_requested w). rewrite Hnp.
      apply inference_modules_last.
      - unfold w2. by rewrite planning_wsp_onestep.
      - unfold last_is_current, initial_state. by destruct (t1im _). }
    unfold last_is_current in Hl. rewrite <- Ed, Hd, <- Eo in Hl.
    exists (p_options st1), desc, (p_steps st2).
    split; [|split; [|split; [done|split]]].
    + unfold finish. by rewrite F8, Ho, Hd, Hs1.
    + unfold finish.
      assert (truthy (onestep (planning_wsp w2)) = false) as ->
        by (unfold w2; by rewrite planning_wsp_onestep).
      destruct (p_steps st2); [done|done].
    + intros k Hk. by destruct (feature_keys_set a0 kwargs w k Hk) as (H1 & _).
    + done.
Qed.

End SingleStep.

Lemma single_step_plan_witness :
  let w := ex_wsp (Some ex_data) None (Some true) (Some true) None (Some true)
             (Some true) None None None in
  timed_ok ex_data ∧ truthy (onestep w) = true ∧ feature_enabled w ∅ = true
  ∧ ∃ options desc staged_plan,
      basil_steps id (Some ex_data) ∅ w
      = (planning_wsp w, inr [FabberStep options desc])
      ∧ basil_steps id (Some ex_data) ∅ (set_onestep (Some false) w)
        = (planning_wsp (set_onestep (Some false) w), inr staged_plan)
      ∧ last staged_plan = Some (FabberStep options desc)
      ∧ (∀ k, k ∈ feature_keys w ∅ → options !! k = Some (VBool true))
      ∧ (truthy (spatial (planning_wsp w)) = true →
         options !! "method" = Some (VStr "spatialvb")).
Proof.
  intros w.
  assert (timed_ok ex_data) as Hok by (unfold timed_ok; simpl; lia).
  split; [exact Hok|]. split; [reflexivity|]. split; [reflexivity|].
  apply (single_step_plan id ex_data ∅ w Hok eq_refl); [|reflexivity].
  intros H. vm_compute in H. discriminate H.
Defined.

(** ** The top-level procedure: single-TI mode and defaults *)

Lemma bind_inr {A B} (m : M A) (k : A → M B) w w' y :
  bind m k w = (w', inr y) →
  ∃ x w1, m w = (w1, inr x) ∧ k x w1 = (w', inr y).
Proof.
  unfold bind. destruct (m w) as [w1 [e|x]]; [done|]. intros H. by exists x, w1.
Qed.

Lemma bind_run {A B} (m : M A) (k : A → M B) w w1 x :
  m w = (w1, inr x) → bind m k w = k x w1.
Proof. unfold bind. by intros ->. Qed.

(** [if wsp.attr is None: wsp.attr = v], as a function on workspaces. *)
Definition default_to {A} (attr : Workspace → option A)
    (set : option A → Workspace → Workspace) (v : A) (w : Workspace) : Workspace :=
  if given (attr w) then w else set (Some v) w.

Lemma set_default_run {A} attr set (v : A) w :
  set_default attr set v w = (default_to attr set v w, inr tt).
Proof.
  unfold set_default, default_to, bind, get, when, modify, ret.
  by destruct (given (attr w)).
Qed.

Lemma default_to_keeps {A B} (f : Workspace → B) attr set (v : A) w :
  (∀ o w, f (set o w) = f w) → f (default_to attr set v w) = f w.
Proof. intros H. unfold default_to. by destruct (given (attr w)). Qed.

Lemma default_to_value {A} (attr : Workspace → option A) set v w :
  (∀ o w, attr (set o w) = o) →
  attr (default_to attr set v w) = Some (default v (attr w)).
Proof. intros H. unfold default_to. destruct (attr w) eqn:E; simpl; [done|apply H]. Qed.

(** Single-TI mode. *)
Definition single_ti (a : AslImage) (w : Workspace) : Workspace :=
  if Nat.eqb (ntis a) 1
  then set_infertau (Some false) (set_inferart (Some false) w) else w.

Definition t1_default (w : Workspace) : Q :=
  if truthy (wp w) then 1.65%Q else 1.3%Q.

Definition bat_default (w : Workspace) : Q :=
  if truthy (wp w) then 0.0%Q else if truthy (casl w) then 1.3%Q else 0.7%Q.

(** The workspace as [basil] leaves it before the fits. *)
Definition setup_wsp (a : AslImage) (w : Workspace) : Workspace :=
  let w0 := single_ti a w in
  let w5 :=
    default_to infertiss set_infertiss true (
    default_to tau set_tau 1.8%Q (
    default_to bat set_bat (bat_default w0) (
    default_to t1b set_t1b 1.65%Q (
    default_to t1 set_t1 (t1_default w0) w0)))) in
  default_to infertau set_infertau (negb (truthy (casl w5))) w5.

Lemma basil_setup_run a w :
  asldata w = Some a →
  basil_setup w = (setup_wsp a w, inr (default ∅ (basil_options w))).
Proof.
  intros Ha. unfold basil_setup.
  unfold bind at 1, get at 1. rewrite Ha. unfold bind at 1, ret at 1.
  assert ((when (Nat.eqb (ntis a) 1)
             (modify (set_inferart (Some false)) ;;;
              modify (set_infertau (Some false)))) w
          = (single_ti a w, inr tt)) as H0.
  { unfold when, single_ti. by destruct (Nat.eqb (ntis a) 1). }
  rewrite (bind_run _ _ _ _ _ H0). unfold bind at 1, get at 1.
  set (w0 := single_ti a w).
  assert ((if truthy (wp w0) then (1.65%Q, 0.0%Q)
           else (1.3%Q, if truthy (casl w0) then 1.3%Q else 0.7%Q))
          = (t1_default w0, bat_default w0)) as ->.
  { unfold t1_default, bat_default. by destruct (truthy (wp w0)). }
  rewrite (bind_run _ _ _ _ _ (set_default_run _ _ _ _)).
  rewrite (bind_run _ _ _ _ _ (set_default_run _ _ _ _)).
  rewrite (bind_run _ _ _ _ _ (set_default_run _ _ _ _)).
  rewrite (bind_run _ _ _ _ _ (set_default_run _ _ _ _)).
  rewrite (bind_run _ _ _ _ _ (set_default_run _ _ _ _)).
  unfold bind at 1, get at 1.
  rewrite (bind_run _ _ _ _ _ (set_default_run _ _ _ _)).
  unfold bind, get, ret. unfold setup_wsp. fold w0. cbn zeta.
  rewrite !(default_to_keeps basil_options) by done.
  unfold w0, single_ti. by destruct (Nat.eqb (ntis a) 1).
Qed.

Ltac keep_field f := rewrite !(default_to_keeps f) by done.

Lemma single_ti_fields a w :
  wp (single_ti a w) = wp w ∧ casl (single_ti a w) = casl w
  ∧ t1 (single_ti a w) = t1 w ∧ bat (single_ti a w) = bat w
  ∧ tau (single_ti a w) = tau w ∧ asldata (single_ti a w) = asldata w
  ∧ asldata_mean_across_repeats (single_ti a w) = asldata_mean_across_repeats w
  ∧ basil_options (single_ti a w) = basil_options w.
Proof. unfold single_ti. by destruct (Nat.eqb (ntis a) 1). Qed.

(** C7. The defaults that [basil] resolves: without explicit values, the
    tissue T1 is 1.65 in white paper mode and 1.3 otherwise, the bolus
    arrival time is 0 in white paper mode and otherwise 1.3 for continuous
    labelling and 0.7 if not, and the bolus duration is 1.8 in both modes;
    a value supplied for any of the three is kept. *)
Theorem defaults_by_mode a w :
  asldata w = Some a →
  ∃ w1 extra,
    basil_setup w = (w1, inr extra)
    ∧ t1 w1 = Some (match t1 w with
                    | Some v => v
                    | None => if truthy (wp w) then 1.65%Q else 1.3%Q
                    end)
    ∧ bat w1 = Some (match bat w with
                     | Some v => v
                     | None => if truthy (wp w) then 0.0%Q
                               else if truthy (casl w) then 1.3%Q else 0.7%Q
                     end)
    ∧ tau w1 = Some (match tau w with Some v => v | None => 1.8%Q end).
Proof.
  intros Ha. eexists _, _. split; [by apply basil_setup_run|].
  destruct (single_ti_fields a w) as (Ewp & Ecasl & Et1 & Ebat & Etau & _).
  unfold setup_wsp. cbn zeta. split; [|split].
  - keep_field t1. rewrite default_to_value by done.
    unfold t1_default. rewrite Et1, Ewp. by destruct (t1 w).
  - keep_field bat. rewrite default_to_value by done. keep_field bat.
    unfold bat_default. rewrite Ebat, Ewp, Ecasl. by destruct (bat w).
  - keep_field tau. rewrite default_to_value by done. keep_field tau.
    rewrite Etau. by destruct (tau w).
Qed.

Lemma defaults_by_mode_witness :
  let w := ex_wsp (Some ex_data) None None None None None None None None None in
  ∃ w1 extra,
    basil_setup w = (w1, inr extra)
    ∧ t1 w1 = Some 1.3%Q ∧ bat w1 = Some 0.7%Q ∧ tau w1 = Some 1.8%Q.
Proof.
  intros w. exact (defaults_by_mode ex_data w eq_refl).
Defined.

(** ** Single-TI data *)

Lemma base_options_plain diff a0 kwargs w k :
  base_key k = false → base_options diff a0 kwargs w !! k = kwargs !! k.
Proof.
  intros Hk. unfold base_options. cbn zeta.
  destruct (add_timings _ _ _ _) as [e|timed] eqn:Ht.
  - unfold base_key in Hk. apply orb_false_elim in Hk as [_ Hk].
    rewrite lookup_union, wsp_options_lookup, lookup_empty.
    + by destruct (kwargs !! k).
    + revert Hk. unfold key_in. rewrite !bool_decide_eq_false.
      intros Hn Hin. apply Hn.
      repeat (apply elem_of_cons in Hin as [->|Hin]);
        [..|by apply not_elem_of_nil in Hin];
        by (eapply bool_decide_eq_true_1; vm_compute; reflexivity).
  - by eapply base_lookup.
Qed.

Definition art_tau_keys : list string :=
  ["incart"; "inferart"; "inctau"; "infertau"].

(** With arterial and bolus duration inference off, no planned Fabber
    configuration holds their keys, apart from what the keyword overrides
    themselves carry. *)
Lemma plan_without_art_tau diff data kwargs w w' plan :
  basil_steps diff data kwargs w = (w', inr plan) →
  truthy (inferart w) = false → truthy (infertau w) = false →
  ∀ s k, s ∈ plan → is_fabber s = true → k ∈ art_tau_keys →
         step_options s !! k = kwargs !! k.
Proof.
  intros H Ia It s k Hs Hfab Hk.
  apply basil_steps_inv in H as (a0 & -> & -> & _ & Hf).
  destruct (planning_wsp_flags w) as (_ & _ & Fa & Ft & _).
  assert (planner_writes (planning_wsp w) (disp_requested kwargs)
            (exch_requested kwargs) (pv_requested w) k = false
          ∧ base_key k = false) as [Hw Hb].
  { unfold planner_writes, initial_writes, module_writes, base_key.
    rewrite Fa, Ft, Ia, It.
    unfold art_tau_keys in Hk.
    repeat (apply elem_of_cons in Hk as [->|Hk]);
      [..|by apply not_elem_of_nil in Hk]; by eval_keys. }
  pose proof (plan_keeps diff _ _ _ _ k Hf Hw) as Hkeep.
  rewrite Forall_forall in Hkeep. rewrite (Hkeep s Hs Hfab).
  by apply base_options_plain.
Qed.

Section Fits.

Variable fabber : dict → result outputs.
Variable mvntool : Image → string → value → list Q → Q → Image.
Variable diff : AslImage → AslImage.

Lemma basil_fit_inv data kwargs w w' out :
  basil_fit fabber mvntool diff data kwargs w = (w', inr out) →
  basil_steps diff data kwargs w = (w', inr (fit_plan out))
  ∧ run_chain fabber mvntool None (fit_plan out) = inr (fit_run out)
  ∧ ∃ sr, last (fit_run out) = Some sr ∧ finalstep out = sr.2.
Proof.
  unfold basil_fit. intros H.
  apply bind_inr in H as (steps & w1 & Hs & H).
  apply bind_inr in H as (ran & w2 & Hr & H).
  unfold lift in Hr. injection Hr as <- Hr.
  destruct (last ran) as [sr|] eqn:El; [|done].
  unfold ret in H. injection H as <- <-. simpl. eauto.
Qed.

(** The fits that [basil] runs, once the defaults are resolved. *)
Definition main_fit (extra : dict) (init_out : option FitOutput)
    (w : Workspace) : Workspace * result BasilOutput :=
  match pass_kwargs extra with
  | inl e => (w, inl e)
  | inr kwargs =>
      match basil_fit fabber mvntool diff (asldata w) kwargs w with
      | (w', inr o) => (w', inr {| init := init_out; main := o |})
      | (w', inl e) => (w', inl e)
      end
  end.

Definition init_fit (extra : dict) (w : Workspace)
    : Workspace * result BasilOutput :=
  match pass_kwargs extra with
  | inl e => (w, inl e)
  | inr kwargs =>
      match basil_fit fabber mvntool diff (asldata_mean_across_repeats w)
              kwargs w with
      | (wi, inr o) =>
          main_fit extra (Some o) (set_initmvn (finalstep o !! "finalMVN") wi)
      | (wi, inl e) => (wi, inl e)
      end
  end.

Lemma setup_wsp_data a w :
  asldata (setup_wsp a w) = asldata w
  ∧ asldata_mean_across_repeats (setup_wsp a w) = asldata_mean_across_repeats w.
Proof.
  destruct (single_ti_fields a w) as (_ & _ & _ & _ & _ & E1 & E2 & _).
  unfold setup_wsp. cbn zeta.
  keep_field asldata. keep_field asldata_mean_across_repeats. done.
Qed.

Lemma basil_unfold prefit a w :
  asldata w = Some a →
  basil fabber mvntool diff prefit w =
  let w1 := setup_wsp a w in
  let extra := default ∅ (basil_options w) in
  if prefit then
    match py_max (rpts a) with
    | inl e => (w1, inl e)
    | inr m => if Z.ltb 1 m then init_fit extra w1 else main_fit extra None w1
    end
  else main_fit extra None w1.
Proof.
  intros Ha. unfold basil.
  rewrite (bind_run _ _ _ _ _ (basil_setup_run a w Ha)).
  unfold bind at 1, get at 1.
  destruct (setup_wsp_data a w) as [Ed Em]. rewrite Ed, Ha. cbn zeta.
  set (w1 := setup_wsp a w). set (extra := default ∅ (basil_options w)).
  assert (∀ io wm,
    (w <- get ;; kwargs <- lift (pass_kwargs extra) ;;
     main_out <- basil_fit fabber mvntool diff (asldata w) kwargs ;;
     ret {| init := io; main := main_out |}) wm = main_fit extra io wm) as Hmain.
  { intros io wm. unfold main_fit, bind, get, lift, ret.
    destruct (pass_kwargs extra) as [e|kw]; [done|].
    by destruct (basil_fit _ _ _ _ _ _) as [w' [e|o]]. }
  destruct prefit.
  - unfold bind at 1. unfold bind at 1, lift at 1.
    destruct (py_max (rpts a)) as [e|m]; [done|]. unfold ret at 1.
    destruct (Z.ltb 1 m).
    + unfold bind at 1. unfold bind at 1, lift at 1. unfold init_fit.
      destruct (pass_kwargs extra) as [e|kw] eqn:Ek; [done|].
      unfold bind at 1.
      destruct (basil_fit _ _ _ _ _ _) as [wi [e|o]]; [done|].
      unfold bind at 1, modify at 1. unfold ret at 1.
      apply Hmain.
    + unfold bind at 1, ret at 1. apply Hmain.
  - unfold bind at 1, ret at 1. unfold bind at 1, ret at 1. apply Hmain.
Qed.

Lemma pass_kwargs_inr extra kwargs : pass_kwargs extra = inr kwargs → kwargs = extra.
Proof. unfold pass_kwargs. destruct (decide _); [done|]. by intros [= <-]. Qed.

Lemma main_fit_inv extra io wm w' out :
  main_fit extra io wm = (w', inr out) →
  pass_kwargs extra = inr extra ∧ init out = io
  ∧ basil_fit fabber mvntool diff (asldata wm) extra wm = (w', inr (main out)).
Proof.
  unfold main_fit. destruct (pass_kwargs extra) as [e|kw] eqn:Ek; [done|].
  apply pass_kwargs_inr in Ek as ->.
  destruct (basil_fit _ _ _ _ _ _) as [w2 [e|o]]; [done|].
  by intros [= <- <-].
Qed.

Lemma init_fit_inv extra w1 w' out :
  init_fit extra w1 = (w', inr out) →
  ∃ o wi,
    basil_fit fabber mvntool diff (asldata_mean_across_repeats w1) extra w1
    = (wi, inr o)
    ∧ main_fit extra (Some o) (set_initmvn (finalstep o !! "finalMVN") wi)
      = (w', inr out).
Proof.
  unfold init_fit. destruct (pass_kwargs extra) as [e|kw] eqn:Ek; [done|].
  apply pass_kwargs_inr in Ek as ->.
  destruct (basil_fit _ _ _ _ _ _) as [wi [e|o]]; [done|]. eauto.
Qed.

Lemma basil_fit_wsp data kwargs w w' out :
  basil_fit fabber mvntool diff data kwargs w = (w', inr out) →
  w' = planning_wsp w.
Proof.
  intros H. apply basil_fit_inv in H as (H & _).
  by apply basil_steps_inv in H as (a0 & _ & -> & _).
Qed.

Lemma setup_wsp_single_ti a w :
  ntis a = 1 →
  inferart (setup_wsp a w) = Some false ∧ infertau (setup_wsp a w) = Some false.
Proof.
  intros Hn. unfold setup_wsp. cbn zeta. split.
  - keep_field inferart. unfold single_ti. by rewrite Hn.
  - set (w5 := default_to infertiss _ _ _).
    assert (infertau w5 = Some false) as H5.
    { unfold w5. keep_field infertau. unfold single_ti. by rewrite Hn. }
    unfold default_to. by rewrite H5.
Qed.

(** C6, as amended. With data of a single inversion time, [basil] switches
    arterial and bolus duration inference off whatever the workspace flags
    asked for: the two attributes are [False] when it returns, and in the
    plan of every fit it ran a Fabber configuration holds under [incart],
    [inferart], [inctau] and [infertau] exactly what the [basil_options]
    dictionary carries under these keys, nothing if it has none. *)
Theorem single_ti_disables_art_and_tau prefit a w w' out :
  asldata w = Some a → ntis a = 1 →
  basil fabber mvntool diff prefit w = (w', inr out) →
  inferart w' = Some false ∧ infertau w' = Some false
  ∧ ∀ o s k, (o = main out ∨ init out = Some o) →
             s ∈ fit_plan o → is_fabber s = true → k ∈ art_tau_keys →
             step_options s !! k = default ∅ (basil_options w) !! k.
Proof.
  intros Ha Hn H. rewrite (basil_unfold prefit a w Ha) in H. cbn zeta in H.
  destruct (setup_wsp_single_ti a w Hn) as [Ia It].
  set (w1 := setup_wsp a w) in *. set (extra := default ∅ (basil_options w)) in *.
  assert (∀ io wm, inferart wm = Some false → infertau wm = Some false →
            main_fit extra io wm = (w', inr out) →
            init out = io ∧ inferart w' = Some false ∧ infertau w' = Some false
            ∧ ∀ s k, s ∈ fit_plan (main out) → is_fabber s = true →
                     k ∈ art_tau_keys → step_options s !! k = extra !! k)
    as Hmain.
  { intros io wm Ja Jt Hm. apply main_fit_inv in Hm as (_ & Hi & Hm).
    pose proof (basil_fit_wsp _ _ _ _ _ Hm) as ->.
    apply basil_fit_inv in Hm as (Hp & _).
    destruct (planning_wsp_flags wm) as (_ & _ & Fa & Ft & _).
    split; [done|]. split; [by rewrite Fa|]. split; [by rewrite Ft|].
    intros s k. eapply plan_without_art_tau; [exact Hp|by rewrite Ja|by rewrite Jt]. }
  assert (main_fit extra None w1 = (w', inr out) →
          inferart w' = Some false ∧ infertau w' = Some false
          ∧ ∀ o s k, (o = main out ∨ init out = Some o) →
             s ∈ fit_plan o → is_fabber s = true → k ∈ art_tau_keys →
             step_options s !! k = extra !! k) as Hnone.
  { intros Hm. destruct (Hmain None w1 Ia It Hm) as (Hi & Ja & Jt & Hs).
    split; [done|]. split; [done|]. intros o s k [->|Ho]; [apply Hs|].
    rewrite Hi in Ho. discriminate Ho. }
  destruct prefit; [|by apply Hnone].
  destruct (py_max (rpts a)) as [e|m]; [done|].
  destruct (Z.ltb 1 m); [|by apply Hnone].
  apply init_fit_inv in H as (o1 & wi & Hinit & Hm).
  pose proof (basil_fit_wsp _ _ _ _ _ Hinit) as ->.
  destruct (planning_wsp_flags w1) as (_ & _ & Fa & Ft & _).
  apply Hmain in Hm as (Hi & Ja & Jt & Hs);
    [|simpl; by rewrite Fa|simpl; by rewrite Ft].
  split; [done|]. split; [done|]. intros o s k [->|Ho]; [apply Hs|].
  rewrite Hi in Ho. injection Ho as <-.
  apply basil_fit_inv in Hinit as (Hp & _).
  eapply plan_without_art_tau; [exact Hp|by rewrite Ia|by rewrite It].
Qed.

End Fits.

(** An engine for the examples: the posterior it returns records the chain
    of posteriors it was started from, the perfusion map is constant. *)
Definition ex_fabber (options : dict) : result outputs :=
  let prev := match options !! "continue-from-mvn" with
              | Some (VImage m) => img_data m
              | _ => []
              end in
  inr {["finalMVN" := ex_image "finalMVN" (1%Q :: prev);
        "mean_ftiss" := ex_image "mean_ftiss" [50%Q; 50%Q]]}.

Definition ex_mvntool (mvn : Image) (param : string) (mask : value)
    (valim : list Q) (var : Q) : Image :=
  ex_image (img_name mvn +:+ "+" +:+ param) (img_data mvn ++ valim ++ [var])%list.

Definition ex_single_ti_mean : AslImage :=
  {| tis := [1.8%Q]; rpts := [1%Z]; asl_img := ex_image "asldata_mean" [] |}.

Lemma single_ti_witness :
  let w := ex_wsp (Some ex_single_ti) (Some ex_single_ti_mean) (Some true)
             (Some true) (Some true) None None None None None in
  ∃ w' out,
    basil ex_fabber ex_mvntool id true w = (w', inr out)
    ∧ inferart w' = Some false ∧ infertau w' = Some false
    ∧ ∀ o s k, (o = main out ∨ init out = Some o) →
               s ∈ fit_plan o → is_fabber s = true → k ∈ art_tau_keys →
               step_options s !! k = None.
Proof.
  intros w.
  assert (match (basil ex_fabber ex_mvntool id true w).2 with
          | inr _ => True
          | inl _ => False
          end) as Hr by (vm_compute; exact I).
  destruct (basil ex_fabber ex_mvntool id true w) as [w' [e|out]] eqn:E.
  - destruct Hr.
  - exists w', out. split; [reflexivity|].
    exact (single_ti_disables_art_and_tau ex_fabber ex_mvntool id true
             ex_single_ti w w' out eq_refl eq_refl E).
Defined.

(** Arterial and bolus duration inference disabled in every configuration of
    a plan. *)
Definition art_tau_disabled (plan : list Step) : Prop :=
  ∀ s k, s ∈ plan → is_fabber s = true → k ∈ art_tau_keys →
         step_options s !! k = None ∨ step_options s !! k = Some (VBool false).

(** A workspace with a [basil_options] dictionary. *)
Definition with_basil_options (o : dict) (w : Workspace) : Workspace :=
  {| asldata := asldata w; asldata_mean_across_repeats := asldata_mean_across_repeats w;
     mask := mask w; wp := wp w; casl := casl w; infertiss := infertiss w;
     inferbat := inferbat w; infertau := infertau w; inferart := inferart w;
     infert1 := infert1 w; inferpc := inferpc w; spatial := spatial w;
     onestep := onestep w; pvcorr := pvcorr w; t1im := t1im w; pgm := pgm w;
     pwm := pwm w; initmvn := initmvn w; t1 := t1 w; t1b := t1b w; bat := bat w;
     tau := tau w; slicedt := slicedt w; sliceband := sliceband w; FA := FA w;
     basil_options := Some o |}.

(** C6, counterexample. With data of a single inversion time and
    [inferart] requested through the [basil_options] dictionary, the planned
    configuration holds [inferart = True]. *)
Lemma single_ti_option_passes_through :
  let w := with_basil_options {["inferart" := VBool true]}
             (ex_wsp (Some ex_single_ti) None (Some true) None None None None
                None None None) in
  ntis ex_single_ti = 1
  ∧ ∃ w' out,
      basil ex_fabber ex_mvntool id false w = (w', inr out)
      ∧ ¬ art_tau_disabled (fit_plan (main out)).
Proof.
  intros w. split; [reflexivity|].
  assert (match (basil ex_fabber ex_mvntool id false w).2 with
          | inr out =>
              match fit_plan (main out) with
              | s :: _ =>
                  is_fabber s
                  && match step_options s !! "inferart" with
                     | Some (VBool b) => b
                     | _ => false
                     end = true
              | [] => False
              end
          | inl _ => False
          end) as Hr by (vm_compute; reflexivity).
  destruct (basil ex_fabber ex_mvntool id false w) as [w' [e|out]] eqn:E.
  - destruct Hr.
  - exists w', out. split; [reflexivity|]. simpl in Hr.
    destruct (fit_plan (main out)) as [|s rest]; [destruct Hr|].
    apply andb_true_iff in Hr as [Hfab Hv]. intros H.
    destruct (H s "inferart") as [Hn|Hn];
      [apply list_elem_of_here|exact Hfab
      |unfold art_tau_keys; apply list_elem_of_further, list_elem_of_here|..];
      rewrite Hn in Hv; discriminate Hv.
Qed.

(** ** The step runner *)

Section Chain.

Variable fabber : dict → result outputs.
Variable mvntool : Image → string → value → list Q → Q → Image.
Variable diff : AslImage → AslImage.

(** The result handed to step [i]: none for the first, otherwise the
    result of the step before. *)
Definition prev_result (prev : option outputs) (ran : list (Step * outputs))
    (i : nat) : option outputs :=
  match i with
  | 0 => prev
  | S j => snd <$> ran !! j
  end.

Lemma run_chain_trace steps :
  ∀ prev ran,
    run_chain fabber mvntool prev steps = inr ran →
    length ran = length steps
    ∧ ∀ i s, steps !! i = Some s →
        ∃ sr, ran !! i = Some sr
              ∧ run fabber mvntool s (prev_result prev ran i) = inr sr.
Proof.
  induction steps as [|step rest IH]; intros prev ran H; simpl in H.
  - injection H as <-. split; [done|]. intros i s Hs. by destruct i.
  - destruct (run fabber mvntool step prev) as [e|sr] eqn:Hr; [done|].
    simpl in H.
    destruct (run_chain fabber mvntool (Some sr.2) rest) as [e|tl] eqn:Ht; [done|].
    simpl in H. injection H as <-.
    destruct (IH _ _ Ht) as [Hlen Hall]. split; [simpl; by rewrite Hlen|].
    intros [|j] s Hs; simpl in Hs.
    + injection Hs as <-. by exists sr.
    + destruct (Hall j s Hs) as (sr' & Hj & Hrun). exists sr'. split; [done|].
      destruct j; exact Hrun.
Qed.

Lemma fabber_run_inv options desc prev sr :
  fabber_run fabber options desc prev = inr sr →
  ∃ submitted,
    sr.1 = FabberStep submitted desc ∧ fabber submitted = inr sr.2
    ∧ match prev with
      | None => submitted = options
      | Some p => ∃ m, p !! "finalMVN" = Some m
                       ∧ submitted = <["continue-from-mvn" := VImage m]> options
      end.
Proof.
  unfold fabber_run. destruct prev as [p|]; simpl.
  - unfold getitem. destruct (p !! "finalMVN") as [m|] eqn:Em; [|done]. simpl.
    destruct (fabber _) as [e|o] eqn:Ef; [done|]. simpl. intros [= <-].
    eexists. split; [done|]. split; [done|]. by exists m.
  - destruct (fabber options) as [e|o] eqn:Ef; [done|]. simpl. intros [= <-].
    by exists options.
Qed.

Lemma pvc_init_run_inv options desc prev sr :
  pvc_init_run mvntool options desc prev = inr sr →
  sr.1 = PvcInitStep options desc.
Proof.
  unfold pvc_init_run, rbind. intros H.
  repeat match type of H with
    | match ?x with _ => _ end = _ => destruct x; [done|]
    end.
  by injection H as <-.
Qed.

(** C1. A fit that [basil_fit] runs to the end has run the plan that
    [basil_steps] returned, step by step and in order. The configuration
    submitted to the engine for a Fabber step after the first is the planned
    one with, under [continue-from-mvn], the [finalMVN] of the result of the
    step just before, nothing else being changed, so no other step's
    posterior enters it; the first step is submitted as planned. A
    [PvcInitStep] submits nothing, keeps its options and works on the result
    of the step just before. The fit's [finalstep] is the result of the
    last step. *)
Theorem runner_injects_previous_posterior data kwargs w w' out :
  basil_fit fabber mvntool diff data kwargs w = (w', inr out) →
  basil_steps diff data kwargs w = (w', inr (fit_plan out))
  ∧ length (fit_run out) = length (fit_plan out)
  ∧ (∀ options desc,
       fit_plan out !! 0 = Some (FabberStep options desc) →
       ∃ o, fit_run out !! 0 = Some (FabberStep options desc, o)
            ∧ fabber options = inr o)
  ∧ (∀ i options desc,
       fit_plan out !! S i = Some (FabberStep options desc) →
       ∃ before m o,
         fit_run out !! i = Some before
         ∧ before.2 !! "finalMVN" = Some m
         ∧ fit_run out !! S i
           = Some (FabberStep (<["continue-from-mvn" := VImage m]> options) desc, o)
         ∧ fabber (<["continue-from-mvn" := VImage m]> options) = inr o)
  ∧ (∀ i options desc,
       fit_plan out !! i = Some (PvcInitStep options desc) →
       ∃ o, fit_run out !! i = Some (PvcInitStep options desc, o)
            ∧ pvc_init_run mvntool options desc (prev_result None (fit_run out) i)
              = inr (PvcInitStep options desc, o))
  ∧ ∃ sr, last (fit_run out) = Some sr ∧ finalstep out = sr.2.
Proof.
  intros H. apply basil_fit_inv in H as (Hp & Hc & Hlast).
  apply run_chain_trace in Hc as [Hlen Hall].
  split; [exact Hp|]. split; [exact Hlen|]. split; [|split; [|split]].
  - intros options desc Hs. destruct (Hall 0 _ Hs) as ([s o] & Hr & Hrun).
    simpl in Hrun. apply fabber_run_inv in Hrun as (sub & Hs1 & Hf & ->).
    simpl in Hs1, Hf. subst s. by exists o.
  - intros i options desc Hs. destruct (Hall (S i) _ Hs) as ([s o] & Hr & Hrun).
    simpl in Hrun.
    destruct (fit_run out !! i) as [before|] eqn:Hb.
    + simpl in Hrun.
      apply fabber_run_inv in Hrun as (sub & Hs1 & Hf & m & Hm & ->).
      simpl in Hs1, Hf. subst s. by exists before, m, o.
    + apply lookup_ge_None in Hb. apply lookup_lt_Some in Hr. lia.
  - intros i options desc Hs. destruct (Hall i _ Hs) as ([s o] & Hr & Hrun).
    simpl in Hrun. pose proof (pvc_init_run_inv _ _ _ _ Hrun) as Hs1.
    simpl in Hs1. subst s. by exists o.
  - exact Hlast.
Qed.

End Chain.

Lemma runner_injects_witness :
  let w := ex_wsp (Some ex_data) None (Some true) (Some true) None None None
             None None None in
  ∃ w' out,
    basil_fit ex_fabber ex_mvntool id (Some ex_data) ∅ w = (w', inr out)
    ∧ length (fit_plan out) = 2
    ∧ basil_steps id (Some ex_data) ∅ w = (w', inr (fit_plan out))
    ∧ length (fit_run out) = length (fit_plan out)
    ∧ (∀ options desc,
         fit_plan out !! 0 = Some (FabberStep options desc) →
         ∃ o, fit_run out !! 0 = Some (FabberStep options desc, o)
              ∧ ex_fabber options = inr o)
    ∧ (∀ i options desc,
         fit_plan out !! S i = Some (FabberStep options desc) →
         ∃ before m o,
           fit_run out !! i = Some before
           ∧ before.2 !! "finalMVN" = Some m
           ∧ fit_run out !! S i
             = Some (FabberStep (<["continue-from-mvn" := VImage m]> options) desc, o)
           ∧ ex_fabber (<["continue-from-mvn" := VImage m]> options) = inr o)
    ∧ (∀ i options desc,
         fit_plan out !! i = Some (PvcInitStep options desc) →
         ∃ o, fit_run out !! i = Some (PvcInitStep options desc, o)
              ∧ pvc_init_run ex_mvntool options desc
                  (prev_result None (fit_run out) i)
                = inr (PvcInitStep options desc, o))
    ∧ ∃ sr, last (fit_run out) = Some sr ∧ finalstep out = sr.2.
Proof.
  intros w.
  assert (match (basil_fit ex_fabber ex_mvntool id (Some ex_data) ∅ w).2 with
          | inr out => Nat.eqb (length (fit_plan out)) 2 = true
          | inl _ => False
          end) as Hr by (vm_compute; reflexivity).
  destruct (basil_fit ex_fabber ex_mvntool id (Some ex_data) ∅ w)
    as [w' [e|out]] eqn:E.
  - destruct Hr.
  - exists w', out. split; [reflexivity|].
    split; [by apply Nat.eqb_eq|].
    exact (runner_injects_previous_posterior ex_fabber ex_mvntool id
             (Some ex_data) ∅ w w' out E).
Defined.

(** ** The first step of a plan *)

Definition starts_fabber (steps : list Step) : Prop :=
  match steps with
  | [] => True
  | s :: _ => is_fabber s = true
  end.

Lemma starts_fabber_app steps s :
  starts_fabber steps → (steps = [] → is_fabber s = true) →
  starts_fabber (steps ++ [s]).
Proof. destruct steps; simpl; auto. Qed.

Lemma staged_head w options desc steps :
  starts_fabber steps → starts_fabber (staged w options desc steps).
Proof.
  intros H. unfold staged. destruct (truthy (onestep w)); [done|].
  by apply starts_fabber_app.
Qed.

Lemma inference_modules_head w d e pvc a st :
  starts_fabber (p_steps st) →
  starts_fabber (p_steps (inference_modules w d e pvc a st)).
Proof.
  intros H. unfold inference_modules.
  assert (∀ st, starts_fabber (p_steps st) →
                starts_fabber (p_steps (tissue_module w st))) as H1.
  { intros [] ?. unfold tissue_module. destruct (truthy (infertiss w)); [|done].
    by apply staged_head. }
  assert (∀ st, starts_fabber (p_steps st) →
                starts_fabber (p_steps (arterial_module w st))) as H2.
  { intros [] ?. unfold arterial_module. destruct (truthy (inferart w)); [|done].
    by apply staged_head. }
  assert (∀ st, starts_fabber (p_steps st) →
                starts_fabber (p_steps (bolus_duration_module w st))) as H3.
  { intros [] ?. unfold bolus_duration_module.
    destruct (truthy (infertau w)); [|done]. by apply staged_head. }
  assert (∀ st, starts_fabber (p_steps st) →
                starts_fabber (p_steps (extensions_module w d e st))) as H4.
  { intros [] ?. unfold extensions_module.
    destruct (d || e || truthy (inferpc w)); [|done].
    destruct d, e, (truthy (inferpc w)); by apply staged_head. }
  assert (∀ st, starts_fabber (p_steps st) →
                starts_fabber (p_steps (t1_module w st))) as H5.
  { intros [] ?. unfold t1_module. destruct (truthy (infert1 w)); [|done].
    by apply staged_head. }
  assert (∀ st, starts_fabber (p_steps st) →
                starts_fabber (p_steps (pv_module w pvc a st))) as H6.
  { intros [o s n steps c sd] Hs. unfold pv_module. destruct pvc; [|done].
    simpl in *. by destruct steps. }
  by apply H6, H5, H4, H3, H2, H1.
Qed.

Lemma plan_head diff a0 kwargs w plan :
  finish (planning_wsp w) (plan_state diff a0 kwargs w) = inr plan →
  ∃ s rest, plan = s :: rest ∧ is_fabber s = true.
Proof.
  unfold plan_state. rewrite run_modules_spatial.
  set (st := inference_modules _ _ _ _ _ _).
  assert (starts_fabber (p_steps st)) as Hst.
  { apply inference_modules_head. by rewrite initial_steps. }
  assert (starts_fabber (p_steps (spatial_module (planning_wsp w) st))) as Hsp.
  { unfold spatial_module. destruct (truthy (spatial (planning_wsp w))); [|done].
    by apply staged_head. }
  set (st' := spatial_module (planning_wsp w) st) in *.
  unfold finish. destruct (truthy (onestep (planning_wsp w))).
  - destruct (p_step_desc st') as [sd|]; [|done].
    destruct (p_steps st') as [|s rest] eqn:E; simpl.
    + intros [= <-]. by eexists _, _.
    + intros [= <-]. by eexists _, _.
  - destruct (p_steps st') as [|s rest] eqn:E; [done|].
    intros [= <-]. by eexists _, _.
Qed.

(** The initial posterior of a plan: every Fabber configuration planned
    holds the workspace's [initmvn] under [continue-from-mvn], and the first
    step is a Fabber step. *)
Lemma plan_initial_posterior diff data kwargs w w' plan :
  basil_steps diff data kwargs w = (w', inr plan) →
  (∃ s rest, plan = s :: rest ∧ is_fabber s = true)
  ∧ ∀ s, s ∈ plan → is_fabber s = true →
         step_options s !! "continue-from-mvn"
         = match initmvn w with
           | Some m => Some (VImage m)
           | None => kwargs !! "continue-from-mvn"
           end.
Proof.
  intros H. apply basil_steps_inv in H as (a0 & -> & -> & _ & Hf).
  split; [by eapply plan_head|].
  assert (module_writes (planning_wsp w) (disp_requested kwargs)
            (exch_requested kwargs) (pv_requested w) "continue-from-mvn" = false)
    as Hm.
  { unfold module_writes. by eval_keys. }
  pose proof (plan_keeps_initial diff _ _ _ _ _ Hf Hm) as Hk.
  rewrite Forall_forall in Hk. intros s Hs Hfab. rewrite (Hk s Hs Hfab).
  rewrite initial_options_lookup by done. rewrite set_attr_lookup_eq.
  destruct (planning_wsp_flags w) as (_ & _ & _ & _ & _ & _ & _ & _ & -> & _).
  destruct (initmvn w); [done|].
  unfold inclusion_flags. rewrite !set_flag_lookup by done.
  by apply base_options_plain.
Qed.

(** ** The pre-fit *)

Lemma foldl_max_ge l :
  ∀ x, (x ≤ foldl Z.max x l)%Z ∧ Forall (λ y, (y ≤ foldl Z.max x l)%Z) l.
Proof.
  induction l as [|y l IH]; intros x; simpl; [split; [lia|constructor]|].
  destruct (IH (Z.max x y)) as [H1 H2]. split; [lia|]. constructor; [lia|done].
Qed.

Lemma py_max_ones l :
  l ≠ [] → Forall (λ r, r = 1%Z) l → py_max l = inr 1%Z.
Proof.
  destruct l as [|x l]; [done|]. intros _ H. simpl.
  apply Forall_cons in H as [-> H]. f_equal.
  induction H as [|y l -> H IH]; [done|]. simpl. exact IH.
Qed.

Lemma py_max_above l :
  Exists (λ r, (1 < r)%Z) l → ∃ m, py_max l = inr m ∧ (1 < m)%Z.
Proof.
  destruct l as [|x l]; [by intros H; apply Exists_nil in H|].
  intros H. simpl. eexists. split; [done|].
  destruct (foldl_max_ge l x) as [H1 H2].
  apply Exists_cons in H as [H|H]; [lia|].
  apply Exists_exists in H as (y & Hy & Hlt).
  rewrite Forall_forall in H2. specialize (H2 y Hy). lia.
Qed.

Section Prefit.

Variable fabber : dict → result outputs.
Variable mvntool : Image → string → value → list Q → Q → Image.
Variable diff : AslImage → AslImage.

(** C9. When all repeat counts are 1, [basil] with a pre-fit requested
    behaves as without: no pre-fit chain runs, and the fit it returns is the
    one on the full data. When a pre-fit is requested and some repeat count
    exceeds 1, a run that returns has first planned and run the chain on the
    mean data; the main fit is planned on the full data, and the
    configuration of its first step, a Fabber step that is submitted to the
    engine as planned, holds under [continue-from-mvn] the [finalMVN] found
    in the result of the last step that the pre-fit chain ran (if that
    result has none, nothing is written and the key is as the
    [basil_options] dictionary has it). *)
Theorem prefit_path a w :
  asldata w = Some a →
  let extra := default ∅ (basil_options w) in
  (rpts a ≠ [] → Forall (λ r, r = 1%Z) (rpts a) →
   basil fabber mvntool diff true w = basil fabber mvntool diff false w
   ∧ ∀ w' out,
       basil fabber mvntool diff true w = (w', inr out) →
       init out = None
       ∧ basil_fit fabber mvntool diff (Some a) extra (setup_wsp a w)
         = (w', inr (main out)))
  ∧ (Exists (λ r, (1 < r)%Z) (rpts a) →
     ∀ w' out,
       basil fabber mvntool diff true w = (w', inr out) →
       ∃ o wi sr,
         init out = Some o
         ∧ basil_steps diff (asldata_mean_across_repeats w) extra (setup_wsp a w)
           = (wi, inr (fit_plan o))
         ∧ run_chain fabber mvntool None (fit_plan o) = inr (fit_run o)
         ∧ last (fit_run o) = Some sr
         ∧ basil_steps diff (Some a) extra (set_initmvn (sr.2 !! "finalMVN") wi)
           = (w', inr (fit_plan (main out)))
         ∧ ∃ s rest o1,
             fit_plan (main out) = s :: rest ∧ is_fabber s = true
             ∧ fit_run (main out) !! 0 = Some (s, o1)
             ∧ fabber (step_options s) = inr o1
             ∧ step_options s !! "continue-from-mvn"
               = match sr.2 !! "finalMVN" with
                 | Some m => Some (VImage m)
                 | None => extra !! "continue-from-mvn"
                 end).
Proof.
  intros Ha extra. destruct (setup_wsp_data a w) as [Ed Em]. split.
  - intros Hne Hones. rewrite !(basil_unfold _ _ _ _ _ _ Ha). cbn zeta.
    rewrite (py_max_ones _ Hne Hones). simpl. split; [done|].
    intros w' out H. apply main_fit_inv in H as (_ & Hi & H).
    split; [done|]. by rewrite Ed, Ha in H.
  - intros Hex w' out H. rewrite (basil_unfold _ _ _ _ _ _ Ha) in H.
    cbn zeta in H. destruct (py_max_above _ Hex) as (m & Hm & Hlt).
    rewrite Hm in H. apply Z.ltb_lt in Hlt. rewrite Hlt in H.
    apply init_fit_inv in H as (o & wi & Hinit & H).
    apply main_fit_inv in H as (_ & Hi & H).
    pose proof (basil_fit_wsp _ _ _ _ _ _ _ _ Hinit) as Hwi.
    apply basil_fit_inv in Hinit as (Hpi & Hci & sr & Hsr & Hfin).
    rewrite Em in Hpi. rewrite Hfin in H.
    assert (asldata (set_initmvn (sr.2 !! "finalMVN") wi) = Some a) as Hdata.
    { subst wi. simpl. unfold planning_wsp.
      destruct (pv_requested _); simpl; congruence. }
    rewrite Hdata in H.
    exists o, wi, sr. split; [done|]. split; [done|]. split; [done|].
    split; [done|].
    apply basil_fit_inv in H as (Hp & Hc & _). split; [exact Hp|].
    apply plan_initial_posterior in Hp as [(s & rest & Hplan & Hfab) Hall].
    apply run_chain_trace in Hc as [_ Hc].
    destruct s as [options desc|options desc]; [|done].
    destruct (Hc 0 (FabberStep options desc)) as ([s1 o1] & Ho1 & Hr1);
      [by rewrite Hplan|].
    simpl in Hr1. apply fabber_run_inv in Hr1 as (sub & Hs1 & Hf1 & ->).
    simpl in Hs1, Hf1. subst s1.
    exists (FabberStep options desc), rest, o1.
    split; [done|]. split; [done|]. split; [done|]. split; [done|].
    rewrite (Hall (FabberStep options desc)); [done| |done].
    rewrite Hplan. apply list_elem_of_here.
Qed.

End Prefit.

Lemma prefit_path_witness :
  let w1 := ex_wsp (Some ex_mean_data) None (Some true) None None None None
              None None None in
  let w2 := ex_wsp (Some ex_data) (Some ex_mean_data) (Some true) (Some true)
              None None None None None None in
  basil ex_fabber ex_mvntool id true w1 = basil ex_fabber ex_mvntool id false w1
  ∧ ∃ w' out o wi sr m,
      basil ex_fabber ex_mvntool id true w2 = (w', inr out)
      ∧ init out = Some o
      ∧ basil_steps id (Some ex_mean_data) ∅ (setup_wsp ex_data w2)
        = (wi, inr (fit_plan o))
      ∧ run_chain ex_fabber ex_mvntool None (fit_plan o) = inr (fit_run o)
      ∧ length (fit_run o) = 3
      ∧ last (fit_run o) = Some sr
      ∧ sr.2 !! "finalMVN" = Some m
      ∧ ∃ s rest o1,
          fit_plan (main out) = s :: rest ∧ is_fabber s = true
          ∧ fit_run (main out) !! 0 = Some (s, o1)
          ∧ ex_fabber (step_options s) = inr o1
          ∧ step_options s !! "continue-from-mvn" = Some (VImage m).
Proof.
  intros w1 w2. split.
  - destruct (prefit_path ex_fabber ex_mvntool id ex_mean_data w1 eq_refl)
      as [H _].
    apply H; [discriminate|]. repeat constructor.
  - assert (match (basil ex_fabber ex_mvntool id true w2).2 with
            | inr out =>
                match init out with
                | Some o =>
                    Nat.eqb (length (fit_run o)) 3
                    && match last (fit_run o) with
                       | Some sr => bool_decide (is_Some (sr.2 !! "finalMVN"))
                       | None => false
                       end = true
                | None => False
                end
            | inl _ => False
            end) as Hr by (vm_compute; reflexivity).
    destruct (basil ex_fabber ex_mvntool id true w2) as [w' [e|out]] eqn:E.
    + destruct Hr.
    + destruct (prefit_path ex_fabber ex_mvntool id ex_data w2 eq_refl)
        as [_ H].
      assert (Exists (λ r, (1 < r)%Z) (rpts ex_data)) as Hex
        by (apply Exists_cons_hd; reflexivity).
      destruct (H Hex w' out E)
        as (o & wi & sr & H1 & H2 & H3 & H4 & _ & s & rest & o1 & H5 & H6 & H7
            & H8 & H9).
      simpl in Hr. rewrite H1, H4 in Hr.
      apply andb_true_iff in Hr as [Hlen Hm]. apply Nat.eqb_eq in Hlen.
      apply bool_decide_eq_true in Hm as [m Hm].
      exists w', out, o, wi, sr, m. split; [reflexivity|]. split; [exact H1|].
      split; [exact H2|]. split; [exact H3|]. split; [exact Hlen|].
      split; [exact H4|]. split; [exact Hm|].
      exists s, rest, o1. split; [exact H5|]. split; [exact H6|].
      split; [exact H7|]. split; [exact H8|]. rewrite H9, Hm. reflexivity.
Defined.

(** ** The initialisation of partial volume correction *)

Lemma voxelwise_ok (f : Q → Q → Q) xs :
  ∀ ys, length ys = length xs →
    ∃ zs, voxelwise f xs ys = inr zs ∧ length zs = length xs
          ∧ ∀ i x y, xs !! i = Some x → ys !! i = Some y →
                     zs !! i = Some (f x y).
Proof.
  induction xs as [|x xs IH]; intros [|y ys] Hlen; simpl in Hlen; try done.
  - exists []. by repeat split.
  - destruct (IH ys) as (zs & Hz & Hl & Hi); [lia|].
    exists (f x y :: zs). simpl. rewrite Hz. simpl.
    split; [done|]. split; [by rewrite Hl|].
    intros [|i] x' y'; simpl; [by intros [= <-] [= <-]|apply Hi].
Qed.

Lemma clip_is_max (g : Q) :
  ((if Qltb g 0.2 then 0.2 else g) == Qmax g 0.2)%Q.
Proof.
  unfold Qltb. destruct (Qle_bool 0.2 g) eqn:E; simpl.
  - apply Qle_bool_iff in E. symmetry. by apply Q.max_l.
  - assert (¬ (0.2 <= g)%Q) as Hn.
    { intros H. apply Qle_bool_iff in H. congruence. }
    apply Qnot_le_lt in Hn. symmetry. apply Q.max_r. by apply Qlt_le_weak.
Qed.

Section PvcInit.

Variable mvntool : Image → string → value → list Q → Q → Image.

(** C2. A run of the PVC initialisation step on the result of a previous
    step, with perfusion map [P], grey and white matter maps [G] and [W] of
    the same size: at every voxel the grey matter estimate is
    [(P - 0.4 P W) / max (G, 0.2)] and the white matter estimate 0.4 times
    that; they are written into the previous posterior as the means of
    [ftiss] and [fwm] with variance 0.1 under the step's mask, and the result
    holds that posterior under [finalMVN] and nothing else. *)
Theorem pvc_init_estimates options desc prev vmask vpgm vpwm G W P mvn :
  options !! "mask" = Some vmask →
  options !! "pgm" = Some vpgm → data_of vpgm = inr G →
  options !! "pwm" = Some vpwm → data_of vpwm = inr W →
  prev !! "mean_ftiss" = Some P → prev !! "finalMVN" = Some mvn →
  length G = length (img_data P) → length W = length (img_data P) →
  ∃ gm wm,
    pvc_init_run mvntool options desc (Some prev)
    = inr (PvcInitStep options desc,
           {["finalMVN" := mvntool (mvntool mvn "ftiss" vmask gm 0.1%Q)
                             "fwm" vmask wm 0.1%Q]})
    ∧ length gm = length (img_data P) ∧ length wm = length (img_data P)
    ∧ ∀ i p g w,
        img_data P !! i = Some p → G !! i = Some g → W !! i = Some w →
        ∃ x y, gm !! i = Some x ∧ wm !! i = Some y
               ∧ (x == (p - 0.4 * p * w) / Qmax g 0.2)%Q
               ∧ (y == 0.4 * x)%Q.
Proof.
  intros Hmask Hpgm HG Hpwm HW HP Hmvn LG LW.
  destruct (voxelwise_ok Qmult ((λ p, p * wm_cbf_ratio)%Q <$> img_data P) W)
    as (term & Ht & Lt & It); [by rewrite length_fmap|].
  rewrite length_fmap in Lt.
  destruct (voxelwise_ok Qminus (img_data P) term) as (numer & Hn & Ln & In);
    [done|].
  destruct (voxelwise_ok Qdiv numer (clip_pgm G)) as (gm & Hg & Lg & Ig).
  { unfold clip_pgm. rewrite length_fmap. congruence. }
  exists gm, ((λ g, g * wm_cbf_ratio)%Q <$> gm).
  split; [|split; [congruence|split; [rewrite length_fmap; congruence|]]].
  - unfold pvc_init_run, subscript, getitem.
    rewrite Hmask, Hpgm. simpl. rewrite HG. simpl. rewrite HP. simpl.
    rewrite Hpwm. simpl. rewrite HW. simpl. rewrite Ht. simpl.
    rewrite Hn. simpl. rewrite Hg. simpl. by rewrite Hmvn.
  - intros i p g w Hp Hgi Hw.
    assert (term !! i = Some (p * wm_cbf_ratio * w)%Q) as Hti.
    { apply It; [|done]. by rewrite list_lookup_fmap, Hp. }
    pose proof (In i _ _ Hp Hti) as Hni.
    assert (clip_pgm G !! i = Some (if Qltb g 0.2 then 0.2 else g)%Q) as Hci.
    { unfold clip_pgm. by rewrite list_lookup_fmap, Hgi. }
    pose proof (Ig i _ _ Hni Hci) as Hgm.
    eexists _, _. split; [exact Hgm|]. split; [by rewrite list_lookup_fmap, Hgm|].
    unfold wm_cbf_ratio. split.
    + apply Qdiv_comp; [ring|apply clip_is_max].
    + ring.
Qed.

End PvcInit.

Lemma pvc_init_witness :
  let options :=
    pvc_init_options
      (ex_wsp (Some ex_data) None (Some true) None None None None None
         (Some ex_gm) (Some ex_wm)) ex_data in
  let P := ex_image "mean_ftiss" [50%Q; 50%Q] in
  let mvn := ex_image "finalMVN" [1%Q] in
  let prev : outputs := {["finalMVN" := mvn; "mean_ftiss" := P]} in
  ∃ gm wm,
    pvc_init_run ex_mvntool options "PVC initialisation" (Some prev)
    = inr (PvcInitStep options "PVC initialisation",
           {["finalMVN" := ex_mvntool (ex_mvntool mvn "ftiss" VNone gm 0.1%Q)
                             "fwm" VNone wm 0.1%Q]})
    ∧ length gm = 2 ∧ length wm = 2
    ∧ ∀ i p g w,
        img_data P !! i = Some p → img_data ex_gm !! i = Some g →
        img_data ex_wm !! i = Some w →
        ∃ x y, gm !! i = Some x ∧ wm !! i = Some y
               ∧ (x == (p - 0.4 * p * w) / Qmax g 0.2)%Q
               ∧ (y == 0.4 * x)%Q.
Proof.
  intros options P mvn prev.
  apply (pvc_init_estimates ex_mvntool options "PVC initialisation" prev VNone
           (VImage ex_gm) (VImage ex_wm) (img_data ex_gm) (img_data ex_wm) P mvn);
    vm_compute; reflexivity.
Defined.

Lemma incpve_witness :
  let w := ex_wsp (Some ex_data) None (Some true) None None None None None
             (Some ex_gm) (Some ex_wm) in
  ∃ w' plan,
    basil_steps id (Some ex_data) ∅ w = (w', inr plan)
    ∧ (∀ s, s ∈ plan → is_fabber s = true → step_options s !! "incpve" = None)
    ∧ ∃ front options desc,
        plan = (front ++ [FabberStep options desc])%list
        ∧ options !! "pvcorr" = Some (VBool true)
        ∧ options !! "incpve" = None.
Proof.
  intros w.
  assert (match (basil_steps id (Some ex_data) ∅ w).2 with
          | inr _ => True
          | inl _ => False
          end) as Hr by (vm_compute; exact I).
  destruct (basil_steps id (Some ex_data) ∅ w) as [w' [e|plan]] eqn:E.
  - destruct Hr.
  - exists w', plan. split; [reflexivity|].
    destruct (incpve_follows_pvcorr_attribute id (Some ex_data) ∅ w w' plan E)
      as [H1 H2].
    split; [exact H1|]. apply H2; reflexivity.
Defined.

(** * Further properties of the planner *)

Lemma add_timings_error idx its rs options e :
  add_timings idx its rs options = inl e → e = IndexError.
Proof.
  revert idx options. induction its as [|ti its IH]; intros idx options; simpl.
  - done.
  - destruct (rs !! idx) as [r|]; [apply IH|]. by intros [= <-].
Qed.

Lemma add_timings_short its rs :
  ∀ idx options,
    (idx ≤ length rs)%nat → (length rs < idx + length its)%nat →
    add_timings idx its rs options = inl IndexError.
Proof.
  induction its as [|ti its IH]; intros idx options Hle Hlt; simpl in *; [lia|].
  destruct (rs !! idx) as [r|] eqn:E; [|done].
  apply lookup_lt_Some in E. apply IH; lia.
Qed.

Section Outcomes.

Variable diff : AslImage → AslImage.

(** The exceptions that planning can raise. *)
Definition planner_errors : list exn :=
  [no_data_error; IndexError; one_pv_map_error; pv_without_tissue_error;
   no_steps_error; NameError "step_desc"].

(** X1. Whatever its arguments, the planner either returns a non-empty plan
    or raises one of six exceptions: the four configuration errors, an
    [IndexError] from the timings, or the unbound [step_desc] of single-step
    mode. The only attribute of the workspace it ever writes is [spatial],
    set to [True], and only when a partial volume map was supplied. *)
Theorem planner_outcomes asldata kwargs w :
  let r := basil_steps diff asldata kwargs w in
  (r.1 = w ∨ (pv_requested w = true ∧ r.1 = set_spatial (Some true) w))
  ∧ match r.2 with
    | inl e => e ∈ planner_errors
    | inr plan => plan ≠ []
    end.
Proof.
  cbn zeta. rewrite basil_steps_unfold. unfold planner_errors.
  destruct asldata as [a0|]; [|split; [by left|apply list_elem_of_here]].
  cbn zeta.
  destruct (add_timings _ _ _ _) as [e|timed] eqn:Ht.
  { apply add_timings_error in Ht as ->. split; [by left|]. simpl.
    apply list_elem_of_further, list_elem_of_here. }
  destruct (pv_requested w && _) eqn:E1.
  { split; [by left|]. simpl. do 2 apply list_elem_of_further.
    apply list_elem_of_here. }
  destruct (pv_requested w && negb _) eqn:E2.
  { split; [right; by destruct (pv_requested w)|]. simpl.
    do 3 apply list_elem_of_further. apply list_elem_of_here. }
  split; [destruct (pv_requested w); by auto|]. simpl.
  destruct (finish_cases (if pv_requested w then set_spatial (Some true) w else w)
              (run_modules (if pv_requested w then set_spatial (Some true) w else w)
                 (infer_disp (kwargs ∪ wsp_options w timed))
                 (infer_exch (kwargs ∪ wsp_options w timed)) (pv_requested w)
                 (diff a0)
                 (initial_state (if pv_requested w then set_spatial (Some true) w
                                 else w)
                    (kwargs ∪ wsp_options w timed) (pv_requested w))))
    as [->| [->|(s & plan & ->)]].
  - do 5 apply list_elem_of_further. apply list_elem_of_here.
  - do 4 apply list_elem_of_further. apply list_elem_of_here.
  - done.
Qed.

(** X2. When the data has fewer repeat counts than inversion times, planning
    raises [IndexError] while the timings are filled in: the workspace is
    untouched and the partial volume maps are not looked at. *)
Theorem missing_repeat_count_is_an_index_error a0 kwargs w :
  (length (rpts (diff a0)) < length (tis (diff a0)))%nat →
  basil_steps diff (Some a0) kwargs w = (w, inl IndexError).
Proof.
  intros Hlt. rewrite basil_steps_unfold. cbn zeta.
  rewrite add_timings_short; [done|lia|lia].
Qed.

End Outcomes.

Lemma missing_repeat_count_witness :
  basil_steps id
    (Some {| tis := [1.4%Q; 1.8%Q]; rpts := [3%Z]; asl_img := ex_image "asldata" [] |})
    ∅ (ex_wsp None None (Some true) None None None None None (Some ex_gm) None)
  = (ex_wsp None None (Some true) None None None None None (Some ex_gm) None,
     inl IndexError).
Proof.
  apply (missing_repeat_count_is_an_index_error id). simpl. lia.
Defined.


(** ** The shape of a plan *)

(** The modules that plan a VB step, in the order they run. *)
Definition vb_modules (w : Workspace) (inferdisp inferexch : bool)
    (st : PState) : PState :=
  t1_module w (
  extensions_module w inferdisp inferexch (
  bolus_duration_module w (
  arterial_module w (
  tissue_module w st)))).

Lemma inference_modules_vb w d e pvc a st :
  inference_modules w d e pvc a st = pv_module w pvc a (vb_modules w d e st).
Proof. reflexivity. Qed.

Definition count (b : bool) : nat := if b then 1 else 0.

(** The number of VB steps of a staged plan. *)
Definition module_count (w : Workspace) (inferdisp inferexch : bool) : nat :=
  count (truthy (infertiss w)) + count (truthy (inferart w))
  + count (truthy (infertau w))
  + count (inferdisp || inferexch || truthy (inferpc w))
  + count (truthy (infert1 w)).

(** [steps] grew by [n] Fabber steps. *)
Definition grew (n : nat) (steps steps' : list Step) : Prop :=
  ∃ added, steps' = (steps ++ added)%list
           ∧ Forall (λ s, is_fabber s = true) added ∧ length added = n.

Lemma grew_refl steps : grew 0 steps steps.
Proof. exists []. by rewrite app_nil_r. Qed.

Lemma grew_staged w options desc steps :
  truthy (onestep w) = false → grew 1 steps (staged w options desc steps).
Proof.
  intros Ho. unfold staged. rewrite Ho. exists [FabberStep options desc].
  split; [done|]. split; [|done]. by apply Forall_singleton.
Qed.

Lemma grew_trans n m s1 s2 s3 : grew n s1 s2 → grew m s2 s3 → grew (n + m) s1 s3.
Proof.
  intros (l1 & -> & F1 & L1) (l2 & -> & F2 & L2). exists (l1 ++ l2)%list.
  split; [by rewrite app_assoc|]. split; [by apply Forall_app|].
  rewrite length_app. lia.
Qed.

Lemma vb_modules_steps w d e st :
  truthy (onestep w) = false →
  grew (module_count w d e) (p_steps st) (p_steps (vb_modules w d e st)).
Proof.
  intros Ho. unfold vb_modules, module_count.
  assert (∀ st, grew (count (truthy (infertiss w))) (p_steps st)
                  (p_steps (tissue_module w st))) as H1.
  { intros []. unfold tissue_module.
    destruct (truthy (infertiss w)); [by apply grew_staged|apply grew_refl]. }
  assert (∀ st, grew (count (truthy (inferart w))) (p_steps st)
                  (p_steps (arterial_module w st))) as H2.
  { intros []. unfold arterial_module.
    destruct (truthy (inferart w)); [by apply grew_staged|apply grew_refl]. }
  assert (∀ st, grew (count (truthy (infertau w))) (p_steps st)
                  (p_steps (bolus_duration_module w st))) as H3.
  { intros []. unfold bolus_duration_module.
    destruct (truthy (infertau w)); [by apply grew_staged|apply grew_refl]. }
  assert (∀ st, grew (count (d || e || truthy (inferpc w))) (p_steps st)
                  (p_steps (extensions_module w d e st))) as H4.
  { intros []. unfold extensions_module.
    destruct (d || e || truthy (inferpc w)); [|apply grew_refl].
    destruct d, e, (truthy (inferpc w)); by apply grew_staged. }
  assert (∀ st, grew (count (truthy (infert1 w))) (p_steps st)
                  (p_steps (t1_module w st))) as H5.
  { intros []. unfold t1_module.
    destruct (truthy (infert1 w)); [by apply grew_staged|apply grew_refl]. }
  eapply grew_trans; [|apply H5]. eapply grew_trans; [|apply H4].
  eapply grew_trans; [|apply H3]. eapply grew_trans; [|apply H2]. apply H1.
Qed.

Lemma pv_module_steps w a st :
  p_steps (pv_module w true a st)
  = match p_steps st with
    | [] => []
    | _ :: _ =>
        (p_steps st ++ [PvcInitStep (pvc_init_options w a) "PVC initialisation"])%list
    end.
Proof. by destruct st. Qed.

Lemma pv_module_off w a st : pv_module w false a st = st.
Proof. reflexivity. Qed.

Section Shape.

Variable diff : AslImage → AslImage.

(** X3. The shape of a staged plan: one Fabber step for each enabled VB
    module (tissue, arterial, bolus duration, the grouped model extensions,
    T1), then, when partial volume maps were supplied, the PVC
    initialisation step on the differenced data, the mask and the two maps,
    then the spatial step if [wsp.spatial] is set by then. The PVC
    initialisation step is never first: a Fabber step runs before it. *)
Theorem staged_plan_shape a0 kwargs w w' plan :
  basil_steps diff (Some a0) kwargs w = (w', inr plan) →
  truthy (onestep w) = false →
  ∃ front tail,
    plan = (front
            ++ (if pv_requested w
                then [PvcInitStep (pvc_init_options w' (diff a0)) "PVC initialisation"]
                else [])
            ++ tail)%list
    ∧ Forall (λ s, is_fabber s = true) front
    ∧ length front
      = module_count w (disp_requested kwargs) (exch_requested kwargs)
    ∧ (pv_requested w = true → front ≠ [])
    ∧ if truthy (spatial w') then ∃ options desc, tail = [FabberStep options desc]
      else tail = [].
Proof.
  intros H Ho. apply basil_steps_inv in H as (a1 & [= <-] & -> & Hpv & Hf).
  destruct (planning_wsp_flags w)
    as (_ & Ft & Fa & Fu & F1 & Fp & _ & Fo & _).
  assert (truthy (onestep (planning_wsp w)) = false) as Ho' by by rewrite Fo.
  unfold plan_state in Hf. rewrite run_modules_spatial, inference_modules_vb in Hf.
  set (st0 := initial_state _ _ _) in Hf.
  destruct (vb_modules_steps (planning_wsp w) (disp_requested kwargs)
              (exch_requested kwargs) st0 Ho') as (front & Hfront & Hfab & Hlen).
  assert (p_steps st0 = []) as Hst0 by apply initial_steps.
  rewrite Hst0 in Hfront. simpl in Hfront.
  assert (module_count (planning_wsp w) (disp_requested kwargs)
            (exch_requested kwargs)
          = module_count w (disp_requested kwargs) (exch_requested kwargs)) as Hmc.
  { unfold module_count. by rewrite Ft, Fa, Fu, F1, Fp. }
  rewrite Hmc in Hlen.
  set (st1 := vb_modules _ _ _ st0) in *.
  set (st2 := pv_module (planning_wsp w) (pv_requested w) (diff a0) st1) in *.
  assert (p_steps st2 =
          (front ++ (if pv_requested w
                     then [PvcInitStep (pvc_init_options (planning_wsp w) (diff a0))
                             "PVC initialisation"]
                     else []))%list) as Hst2.
  { unfold st2. destruct (pv_requested w) eqn:Epv.
    - rewrite pv_module_steps, Hfront.
      destruct front as [|s front]; [|done].
      destruct (Hpv eq_refl) as (_ & _ & Ht). simpl in Hlen.
      unfold module_count in Hlen. rewrite Ht in Hlen. simpl in Hlen. lia.
    - rewrite pv_module_off, Hfront. by rewrite app_nil_r. }
  assert (pv_requested w = true → front ≠ []) as Hne.
  { intros Epv ->. destruct (Hpv Epv) as (_ & _ & Ht). simpl in Hlen.
    unfold module_count in Hlen. rewrite Ht in Hlen. simpl in Hlen. lia. }
  exists front. unfold spatial_module, finish in Hf. rewrite Ho' in Hf.
  destruct (truthy (spatial (planning_wsp w))) eqn:Es.
  - simpl in Hf. unfold staged in Hf. rewrite Ho', Hst2 in Hf.
    eexists [FabberStep _ _].
    split; [|split; [done|split; [done|split; [done|by eexists _, _]]]].
    destruct ((_ ++ _) ++ [_])%list eqn:E in Hf;
      [by apply app_eq_nil in E as [_ E]|].
    injection Hf as <-. rewrite <- E. by rewrite <- app_assoc.
  - exists []. rewrite app_nil_r. split; [|done].
    rewrite Hst2 in Hf. destruct (front ++ _)%list eqn:E in Hf; [done|].
    injection Hf as <-. by rewrite <- E.
Qed.

(** X4. A single-step plan that is returned is one Fabber step, whatever
    the flags. With partial volume maps it is configured for partial volume
    correction with the spatial method and 200 iterations, but no PVC
    initialisation step is planned: there is no earlier step to start from. *)
Theorem single_step_plan_skips_pvc_initialisation data kwargs w w' plan :
  basil_steps diff data kwargs w = (w', inr plan) →
  truthy (onestep w) = true →
  ∃ options desc,
    plan = [FabberStep options desc]
    ∧ (pv_requested w = true →
       options !! "pvcorr" = Some (VBool true)
       ∧ options !! "method" = Some (VStr "spatialvb")
       ∧ options !! "max-iterations" = Some (VInt 200)).
Proof.
  intros H Ho. apply basil_steps_inv in H as (a0 & -> & -> & Hpv & Hf).
  destruct (planning_wsp_flags w)
    as (_ & _ & _ & _ & _ & _ & _ & Fo & _ & _ & _ & _ & _ & Fs).
  assert (truthy (onestep (planning_wsp w)) = true) as Ho' by by rewrite Fo.
  unfold plan_state in Hf. rewrite run_modules_spatial in Hf.
  set (st := inference_modules _ _ _ _ _ _) in Hf.
  assert (p_steps st = []) as Hst.
  { unfold st. apply inference_modules_onestep; [done|apply initial_steps]. }
  destruct (truthy (spatial (planning_wsp w))) eqn:Es.
  - rewrite spatial_finish in Hf by done. rewrite Hst in Hf. simpl in Hf.
    injection Hf as <-. eexists _, _. split; [done|]. intros Epv.
    rewrite !spatial_step_lookup by done. unfold st.
    rewrite !inference_modules_svb, !initial_svb_eq by done. rewrite Epv.
    unfold spatial_options. rewrite lookup_insert_eq.
    rewrite !lookup_insert_ne by done. rewrite lookup_insert_eq, lookup_empty.
    split; [|done]. apply pv_module_pvcorr.
  - rewrite no_spatial_finish in Hf by done. unfold finish in Hf.
    rewrite Ho', Hst in Hf. destruct (p_step_desc st) as [d|]; [|done].
    simpl in Hf. injection Hf as <-. eexists _, _. split; [done|].
    intros Epv. rewrite Fs, Epv in Es. done.
Qed.

End Shape.

Lemma staged_plan_shape_witness :
  let w := ex_wsp (Some ex_data) None (Some true) (Some true) (Some true) None
             None None (Some ex_gm) (Some ex_wm) in
  ∃ w' plan front tail,
    basil_steps id (Some ex_data) ∅ w = (w', inr plan)
    ∧ plan = (front ++ [PvcInitStep (pvc_init_options w' ex_data)
                          "PVC initialisation"] ++ tail)%list
    ∧ Forall (λ s, is_fabber s = true) front
    ∧ length front = 3
    ∧ ∃ options desc, tail = [FabberStep options desc].
Proof.
  intros w.
  assert (match (basil_steps id (Some ex_data) ∅ w).2 with
          | inr _ => True
          | inl _ => False
          end) as Hr by (vm_compute; exact I).
  assert ((basil_steps id (Some ex_data) ∅ w).1 = set_spatial (Some true) w)
    as Hw by (vm_compute; reflexivity).
  destruct (basil_steps id (Some ex_data) ∅ w) as [w' [e|plan]] eqn:E.
  - destruct Hr.
  - destruct (staged_plan_shape id ex_data ∅ w w' plan E eq_refl)
      as (front & tail & H1 & H2 & H3 & _ & H4).
    simpl in Hw. subst w'.
    exists (set_spatial (Some true) w), plan, front, tail.
    split; [reflexivity|]. split; [exact H1|]. split; [exact H2|].
    split; [exact H3|exact H4].
Defined.

Lemma single_step_skips_witness :
  let w := ex_wsp (Some ex_data) None (Some true) None None None (Some true)
             None (Some ex_gm) (Some ex_wm) in
  ∃ w' options desc,
    basil_steps id (Some ex_data) ∅ w = (w', inr [FabberStep options desc])
    ∧ options !! "pvcorr" = Some (VBool true)
    ∧ options !! "method" = Some (VStr "spatialvb")
    ∧ options !! "max-iterations" = Some (VInt 200).
Proof.
  intros w.
  assert (match (basil_steps id (Some ex_data) ∅ w).2 with
          | inr _ => True
          | inl _ => False
          end) as Hr by (vm_compute; exact I).
  destruct (basil_steps id (Some ex_data) ∅ w) as [w' [e|plan]] eqn:E.
  - destruct Hr.
  - destruct (single_step_plan_skips_pvc_initialisation id (Some ex_data) ∅ w w'
                plan E eq_refl) as (options & desc & -> & H).
    exists w', options, desc. split; [reflexivity|]. apply H. reflexivity.
Defined.

(** ** The settings of the VB steps and of the spatial step *)

Lemma inference_modules_spatial v w d e pvc a st :
  inference_modules (set_spatial v w) d e pvc a st = inference_modules w d e pvc a st.
Proof.
  unfold inference_modules.
  assert (∀ st, tissue_module (set_spatial v w) st = tissue_module w st) as ->
    by reflexivity.
  assert (∀ st, arterial_module (set_spatial v w) st = arterial_module w st) as ->
    by reflexivity.
  assert (∀ st, bolus_duration_module (set_spatial v w) st
                = bolus_duration_module w st) as -> by reflexivity.
  assert (∀ st, extensions_module (set_spatial v w) d e st
                = extensions_module w d e st) as -> by reflexivity.
  assert (∀ st, t1_module (set_spatial v w) st = t1_module w st) as ->
    by reflexivity.
  assert (∀ st, pv_module (set_spatial v w) pvc a st = pv_module w pvc a st) as ->
    by reflexivity.
  reflexivity.
Qed.

Lemma spatial_module_off w st :
  truthy (spatial w) = false → spatial_module w st = st.
Proof. intros H. unfold spatial_module. by rewrite H. Qed.

Lemma initial_state_spatial v w options pvc :
  initial_state (set_spatial v w) options pvc = initial_state w options pvc.
Proof. reflexivity. Qed.

(** The VB steps, planned before the spatial module runs, keep a value
    under every key that no module other than the spatial one writes. *)
Lemma vb_steps_keep diff a0 kwargs w k r :
  module_writes (set_spatial (Some false) (planning_wsp w)) (disp_requested kwargs)
    (exch_requested kwargs) (pv_requested w) k = false →
  initial_writes (planning_wsp w) k = false →
  base_options diff a0 kwargs w !! k = r →
  Forall (keeps k r)
    (p_steps (inference_modules (planning_wsp w) (disp_requested kwargs)
                (exch_requested kwargs) (pv_requested w) (diff a0)
                (initial_state (planning_wsp w) (base_options diff a0 kwargs w)
                   (pv_requested w)))).
Proof.
  intros Hm Hi Hr.
  pose proof (initial_frame (set_spatial (Some false) (planning_wsp w))
                (disp_requested kwargs) (exch_requested kwargs) (pv_requested w)
                k r Hm (base_options diff a0 kwargs w) Hi Hr) as H0.
  pose proof (run_modules_frame _ _ _ _ k _ Hm (diff a0) _ H0) as Hf.
  rewrite run_modules_spatial, spatial_module_off in Hf by done.
  rewrite inference_modules_spatial, initial_state_spatial in Hf.
  by destruct Hf as (_ & Hf & _).
Qed.

Lemma planner_writes_without_spatial w d e pvc k :
  truthy (spatial w) = false →
  planner_writes (set_spatial (Some false) w) d e pvc k = planner_writes w d e pvc k.
Proof.
  intros Hs. unfold planner_writes, module_writes, initial_writes. simpl.
  by rewrite Hs.
Qed.

Lemma snoc_exists {A} (l : list A) : l ≠ [] → ∃ front x, l = (front ++ [x])%list.
Proof.
  induction l as [|x l _] using rev_ind; [done|]. intros _. by exists l, x.
Qed.


(** ** What a step holds of the writes of the modules

    The modules run in a fixed order, and each writes its keys just before
    it plans its own step: a step planned by an earlier module does not see
    the write. *)

Section Stages.

Context (w : Workspace) (inferdisp inferexch pvc : bool) (a : AslImage).




















Context (k : string) (r : option value).
Hypothesis Hp : starts_with "PSP_byname" k = false.











End Stages.





Section Overrides.

Variable diff : AslImage → AslImage.


End Overrides.


(** ** The settings of the VB steps and of the spatial step *)

Lemma basil_steps_timed diff a0 kwargs w w' plan :
  basil_steps diff (Some a0) kwargs w = (w', inr plan) →
  ∃ timed,
    add_timings 0 (tis (diff a0)) (rpts (diff a0)) (default_options (diff a0))
    = inr timed.
Proof.
  rewrite basil_steps_unfold. cbn zeta.
  destruct (add_timings _ _ _ _) as [e|timed]; [done|]. by exists timed.
Qed.

(** A default of the planner is in the base configuration unless an
    override replaces it. *)
Lemma base_options_default diff a0 kwargs w timed k :
  add_timings 0 (tis (diff a0)) (rpts (diff a0)) (default_options (diff a0))
  = inr timed →
  starts_with "ti" k = false → starts_with "rpt" k = false →
  key_in k ["t1"; "t1b"; "bat"; "tau"; "casl"; "slicedt"; "sliceband"; "FA"; "mask"]
  = false →
  base_options diff a0 kwargs w !! k
  = match kwargs !! k with
    | Some v => Some v
    | None => default_options (diff a0) !! k
    end.
Proof.
  intros Ht Hti Hrpt Hk. unfold base_options. cbn zeta. rewrite Ht.
  rewrite lookup_union, wsp_options_lookup by done.
  rewrite (add_timings_lookup _ _ _ _ _ k Hti Hrpt Ht).
  by destruct (kwargs !! k), (default_options (diff a0) !! k).
Qed.

(** The keys that only the spatial step writes. *)
Definition spatial_key (k : string) : bool :=
  key_in k ["method"; "param-spatial-priors"; "convergence"; "max-iterations";
            "max-trials"].

Lemma spatial_key_not_written w d e pvc k :
  spatial_key k = true →
  module_writes (set_spatial (Some false) w) d e pvc k = false
  ∧ initial_writes w k = false.
Proof.
  unfold spatial_key, key_in. rewrite bool_decide_eq_true. intros Hk.
  unfold module_writes, initial_writes.
  repeat (apply elem_of_cons in Hk as [->|Hk]);
    [..|by apply not_elem_of_nil in Hk]; by eval_keys.
Qed.

Section SpatialSettings.

Variable diff : AslImage → AslImage.

(** X5. When [wsp.spatial] is set by the time the modules run, the plan ends
    with the spatial step, whose configuration has the spatial method, the
    spatial priors on, convergence by the iteration cap (200 with partial
    volume maps, 20 without) and no [max-trials], whatever the overrides
    say. The Fabber steps before it are untouched by this: they hold the
    override of each of these settings, or the default of a VB run. *)
Theorem spatial_step_settings data kwargs w w' plan :
  basil_steps diff data kwargs w = (w', inr plan) →
  truthy (spatial w') = true →
  ∃ front options desc,
    plan = (front ++ [FabberStep options desc])%list
    ∧ options !! "method" = Some (VStr "spatialvb")
    ∧ options !! "param-spatial-priors" = Some (VStr "N+")
    ∧ options !! "convergence" = Some (VStr "maxiters")
    ∧ options !! "max-iterations"
      = Some (VInt (if pv_requested w then 200 else 20))
    ∧ options !! "max-trials" = None
    ∧ ∀ s, s ∈ front → is_fabber s = true →
        step_options s !! "method" = Some (default (VStr "vb") (kwargs !! "method"))
        ∧ step_options s !! "param-spatial-priors"
          = kwargs !! "param-spatial-priors"
        ∧ step_options s !! "convergence"
          = Some (default (VStr "trialmode") (kwargs !! "convergence"))
        ∧ step_options s !! "max-iterations"
          = Some (default (VInt 20) (kwargs !! "max-iterations"))
        ∧ step_options s !! "max-trials"
          = Some (default (VInt 10) (kwargs !! "max-trials")).
Proof.
  intros H Hs. pose proof H as H'.
  apply basil_steps_inv in H as (a0 & -> & -> & Hpv & Hf).
  destruct (basil_steps_timed _ _ _ _ _ _ H') as [timed Ht].
  unfold plan_state in Hf. rewrite run_modules_spatial, spatial_finish in Hf by done.
  injection Hf as <-. eexists _, _, _. split; [done|].
  assert (∀ k, key_in k ["method"; "param-spatial-priors"; "convergence";
                         "max-iterations"] = true →
     delete "max-trials"
       (p_svb (inference_modules (planning_wsp w) (disp_requested kwargs)
                 (exch_requested kwargs) (pv_requested w) (diff a0)
                 (initial_state (planning_wsp w) (base_options diff a0 kwargs w)
                    (pv_requested w)))
        ∪ p_options (inference_modules (planning_wsp w) (disp_requested kwargs)
                       (exch_requested kwargs) (pv_requested w) (diff a0)
                       (initial_state (planning_wsp w)
                          (base_options diff a0 kwargs w) (pv_requested w))))
     !! k
     = (if pv_requested w then <["max-iterations" := VInt 200]> spatial_options
        else spatial_options) !! k) as Hsvb.
  { intros k Hk. unfold key_in in Hk. apply bool_decide_eq_true in Hk.
    repeat (apply elem_of_cons in Hk as [->|Hk]);
      [..|by apply not_elem_of_nil in Hk];
      rewrite spatial_step_lookup by done;
      rewrite inference_modules_svb, initial_svb_eq by done;
      by destruct (pv_requested w). }
  split; [rewrite Hsvb by done; by destruct (pv_requested w)|].
  split; [rewrite Hsvb by done; by destruct (pv_requested w)|].
  split; [rewrite Hsvb by done; by destruct (pv_requested w)|].
  split; [rewrite Hsvb by done; by destruct (pv_requested w)|].
  split; [apply lookup_delete_eq|].
  intros s Hin Hfab.
  assert (∀ k, spatial_key k = true →
            step_options s !! k = base_options diff a0 kwargs w !! k) as Hkeep.
  { intros k Hk.
    destruct (spatial_key_not_written (planning_wsp w) (disp_requested kwargs)
                (exch_requested kwargs) (pv_requested w) k Hk) as [Hm Hi].
    pose proof (vb_steps_keep diff a0 kwargs w k _ Hm Hi eq_refl) as Hall.
    rewrite Forall_forall in Hall. by apply Hall. }
  rewrite !Hkeep by done.
  rewrite !(base_options_default diff a0 kwargs w timed) by done.
  repeat split.
  - by destruct (kwargs !! "method").
  - by destruct (kwargs !! "param-spatial-priors").
  - by destruct (kwargs !! "convergence").
  - by destruct (kwargs !! "max-iterations").
  - by destruct (kwargs !! "max-trials").
Qed.

End SpatialSettings.

Lemma spatial_step_settings_witness :
  let kwargs : dict := {["max-trials" := VInt 3]} in
  let w := ex_wsp (Some ex_data) None (Some true) (Some true) None (Some true)
             None None None None in
  ∃ front options desc,
    basil_steps id (Some ex_data) kwargs w
    = (w, inr (front ++ [FabberStep options desc])%list)
    ∧ length front = 2
    ∧ options !! "method" = Some (VStr "spatialvb")
    ∧ options !! "max-iterations" = Some (VInt 20)
    ∧ options !! "max-trials" = None
    ∧ ∀ s, s ∈ front → is_fabber s = true →
           step_options s !! "method" = Some (VStr "vb")
           ∧ step_options s !! "max-trials" = Some (VInt 3).
Proof.
  intros kwargs w.
  assert (match (basil_steps id (Some ex_data) kwargs w).2 with
          | inr plan => Nat.eqb (length plan) 3 = true
          | inl _ => False
          end) as Hr by (vm_compute; reflexivity).
  destruct (basil_steps id (Some ex_data) kwargs w) as [w' [e|plan]] eqn:E.
  - destruct Hr.
  - assert (w' = w) as -> by (by apply basil_steps_inv in E as (? & _ & -> & _)).
    destruct (spatial_step_settings id (Some ex_data) kwargs w w plan E eq_refl)
      as (front & options & desc & -> & H1 & _ & _ & H4 & H5 & H6).
    simpl in Hr. apply Nat.eqb_eq in Hr. rewrite length_app in Hr. simpl in Hr.
    exists front, options, desc. split; [reflexivity|]. split; [lia|].
    split; [exact H1|]. split; [exact H4|]. split; [exact H5|].
    intros s Hs Hf. destruct (H6 s Hs Hf) as (G1 & _ & _ & _ & G5). by split.
Defined.

(** ** Timings in the planned configurations *)

Lemma starts_with_head a p b s :
  starts_with (String a p) (String b s) = Ascii.eqb a b && starts_with p s.
Proof. reflexivity. Qed.

Lemma ti_key_inj (n m : nat) : "ti" +:+ pretty n = "ti" +:+ pretty m → n = m.
Proof. intros [= H]. by apply (inj pretty). Qed.

Lemma rpt_key_inj (n m : nat) : "rpt" +:+ pretty n = "rpt" +:+ pretty m → n = m.
Proof. intros [= H]. by apply (inj pretty). Qed.

(** The loop over the inversion times leaves alone every key but those of
    the rounds still to come. *)
Lemma add_timings_below its rs k :
  ∀ idx options timed,
    (∀ n, (idx < n)%nat → k ≠ "ti" +:+ pretty n ∧ k ≠ "rpt" +:+ pretty n) →
    add_timings idx its rs options = inr timed → timed !! k = options !! k.
Proof.
  induction its as [|ti its IH]; intros idx options timed Hk; simpl.
  - by intros [= <-].
  - destruct (rs !! idx) as [r|]; [|done]. intros H.
    rewrite (IH _ _ _ (λ n Hn, Hk n (Nat.lt_succ_l _ _ Hn)) H).
    destruct (Hk (S idx) (Nat.lt_succ_diag_r idx)) as [H1 H2].
    by rewrite !lookup_insert_ne.
Qed.

Lemma add_timings_at its rs :
  ∀ idx options timed i ti r,
    add_timings idx its rs options = inr timed →
    its !! i = Some ti → rs !! (idx + i) = Some r →
    timed !! ("ti" +:+ pretty (S (idx + i))) = Some (VFloat ti)
    ∧ timed !! ("rpt" +:+ pretty (S (idx + i))) = Some (VInt r).
Proof.
  induction its as [|ti' its IH]; intros idx options timed i ti r H Hi Hr;
    [done|].
  simpl in H. destruct i as [|i]; simpl in Hi.
  - injection Hi as ->. rewrite Nat.add_0_r in *. rewrite Hr in H.
    assert (∀ n, (S idx < n)%nat →
              "ti" +:+ pretty (S idx) ≠ "ti" +:+ pretty n
              ∧ "ti" +:+ pretty (S idx) ≠ "rpt" +:+ pretty n) as Hti.
    { intros n Hn. split; [|done]. intros E%ti_key_inj. lia. }
    assert (∀ n, (S idx < n)%nat →
              "rpt" +:+ pretty (S idx) ≠ "ti" +:+ pretty n
              ∧ "rpt" +:+ pretty (S idx) ≠ "rpt" +:+ pretty n) as Hrpt.
    { intros n Hn. split; [done|]. intros E%rpt_key_inj. lia. }
    rewrite (add_timings_below _ _ _ _ _ _ Hti H).
    rewrite (add_timings_below _ _ _ _ _ _ Hrpt H).
    rewrite lookup_insert_ne by done. by rewrite !lookup_insert_eq.
  - destruct (rs !! idx) as [r'|]; [|done].
    replace (idx + S i) with (S idx + i) in * by lia.
    by apply (IH _ _ _ _ _ _ H).
Qed.

Lemma timing_key_free k :
  starts_with "ti" k = true ∨ starts_with "rpt" k = true →
  planner_key k = false
  ∧ key_in k ["t1"; "t1b"; "bat"; "tau"; "casl"; "slicedt"; "sliceband"; "FA";
              "mask"] = false.
Proof.
  intros H. unfold planner_key.
  assert (starts_with "PSP_byname" k = false) as ->.
  { destruct k as [|c k]; [done|]. rewrite !starts_with_head in *.
    match goal with
    | |- Ascii.eqb ?p c && _ = false => destruct (Ascii.eqb p c) eqn:E; [|done]
    end.
    apply Ascii.eqb_eq in E as <-. by destruct H. }
  split; unfold key_in; apply bool_decide_eq_false; intros Hin;
    repeat (apply elem_of_cons in Hin as [->|Hin]);
    try (by apply not_elem_of_nil in Hin); by destruct H.
Qed.

Section Timings.

Variable diff : AslImage → AslImage.

(** X6. Every planned Fabber configuration carries the differenced data
    under [data] and, for each inversion time of it, the time under
    [ti<n>] and its repeat count under [rpt<n>], numbered from 1, unless
    the overrides carry the key. *)
Theorem timings_in_every_step a0 kwargs w w' plan :
  basil_steps diff (Some a0) kwargs w = (w', inr plan) →
  ∀ s, s ∈ plan → is_fabber s = true →
    step_options s !! "data" = Some (default (VData (diff a0)) (kwargs !! "data"))
    ∧ ∀ i ti r,
        tis (diff a0) !! i = Some ti → rpts (diff a0) !! i = Some r →
        step_options s !! ("ti" +:+ pretty (S i))
        = Some (default (VFloat ti) (kwargs !! ("ti" +:+ pretty (S i))))
        ∧ step_options s !! ("rpt" +:+ pretty (S i))
          = Some (default (VInt r) (kwargs !! ("rpt" +:+ pretty (S i)))).
Proof.
  intros H s Hs Hfab. destruct (basil_steps_timed _ _ _ _ _ _ H) as [timed Ht].
  apply basil_steps_inv in H as (a1 & [= <-] & -> & _ & Hf).
  assert (∀ k, planner_key k = false →
            step_options s !! k = base_options diff a0 kwargs w !! k) as Hkeep.
  { intros k Hk.
    pose proof (plan_keeps diff _ _ _ _ k Hf (planner_key_writes _ _ _ _ _ Hk))
      as Hall.
    rewrite Forall_forall in Hall. by apply Hall. }
  assert (∀ k v, (starts_with "ti" k = true ∨ starts_with "rpt" k = true) →
            timed !! k = Some v →
            step_options s !! k = Some (default v (kwargs !! k))) as Hti.
  { intros k v Hk Hv. destruct (timing_key_free k Hk) as [Hp Ha].
    rewrite (Hkeep k Hp). unfold base_options. cbn zeta. rewrite Ht.
    rewrite lookup_union, wsp_options_lookup, Hv by done.
    by destruct (kwargs !! k). }
  split.
  - rewrite Hkeep by done.
    rewrite (base_options_default diff a0 kwargs w timed) by done.
    by destruct (kwargs !! "data").
  - intros i ti r Hi Hr.
    destruct (add_timings_at _ _ 0 _ _ i ti r Ht Hi Hr) as [H1 H2].
    split; apply Hti; auto.
Qed.

End Timings.

Lemma timings_witness :
  let w := ex_wsp (Some ex_data) None (Some true) None None None None None
             None None in
  ∃ plan,
    basil_steps id (Some ex_data) ∅ w = (w, inr plan)
    ∧ ∀ s, s ∈ plan → is_fabber s = true →
           step_options s !! "ti2" = Some (VFloat 1.8%Q)
           ∧ step_options s !! "rpt2" = Some (VInt 3).
Proof.
  intros w.
  assert (match (basil_steps id (Some ex_data) ∅ w).2 with
          | inr _ => True
          | inl _ => False
          end) as Hr by (vm_compute; exact I).
  destruct (basil_steps id (Some ex_data) ∅ w) as [w' [e|plan]] eqn:E.
  - destruct Hr.
  - assert (w' = w) as -> by (by apply basil_steps_inv in E as (? & _ & -> & _)).
    exists plan. split; [reflexivity|]. intros s Hs Hf.
    destruct (timings_in_every_step id ex_data ∅ w w plan E s Hs Hf) as [_ H].
    exact (H 1 1.8%Q 3%Z eq_refl eq_refl).
Defined.

(** ** More on the step runner *)

Section ChainFacts.

Variable fabber : dict → result outputs.
Variable mvntool : Image → string → value → list Q → Q → Image.
Variable diff : AslImage → AslImage.

(** The result that the step after [ran] is started from. *)
Definition last_result (prev : option outputs) (ran : list (Step * outputs))
    : option outputs :=
  match last ran with
  | Some sr => Some sr.2
  | None => prev
  end.

Lemma run_chain_app front :
  ∀ prev ran rest,
    run_chain fabber mvntool prev front = inr ran →
    run_chain fabber mvntool prev (front ++ rest)
    = (tl <~ run_chain fabber mvntool (last_result prev ran) rest ;;
       inr (ran ++ tl)%list).
Proof.
  induction front as [|s front IH]; intros prev ran rest H; simpl in H.
  - injection H as <-. simpl. unfold last_result. simpl.
    by destruct (run_chain fabber mvntool prev rest).
  - destruct (run fabber mvntool s prev) as [e|sr] eqn:Hr; [done|]. simpl in H.
    destruct (run_chain fabber mvntool (Some sr.2) front) as [e|tl] eqn:Ht;
      [done|].
    simpl in H. injection H as <-. simpl. rewrite Hr. simpl.
    rewrite (IH _ _ rest Ht).
    assert (last_result (Some sr.2) tl = last_result prev (sr :: tl)) as ->.
    { unfold last_result. destruct tl as [|x tl]; [done|].
      rewrite last_cons_cons. destruct (last (x :: tl)) eqn:E; [done|].
      by apply last_None in E. }
    by destruct (run_chain fabber mvntool _ rest).
Qed.

(** X7. The chain stops at the first step that fails: when the steps before
    it have run and it raises, the chain raises the same exception and no
    later step is run, whatever the later steps are. In particular a Fabber
    step that follows a step whose result has no [finalMVN] raises
    [KeyError] without the engine being called. *)
Theorem chain_stops_at_first_error prev front ran s rest e :
  run_chain fabber mvntool prev front = inr ran →
  run fabber mvntool s (last_result prev ran) = inl e →
  run_chain fabber mvntool prev (front ++ s :: rest) = inl e
  ∧ ∀ options desc out,
      last_result prev ran = Some out → out !! "finalMVN" = None →
      s = FabberStep options desc → e = KeyError "finalMVN".
Proof.
  intros Hfront Hs. split.
  - rewrite (run_chain_app _ _ _ _ Hfront). simpl. by rewrite Hs.
  - intros options desc out Hout Hnone ->. rewrite Hout in Hs. simpl in Hs.
    unfold fabber_run, getitem in Hs. rewrite Hnone in Hs. simpl in Hs.
    by injection Hs as <-.
Qed.

Lemma step_wsps_lookup ran i :
  step_wsps ran !! i = (λ sr, ("step" +:+ pretty (S i), sr.2)) <$> ran !! i.
Proof. unfold step_wsps. by rewrite list_lookup_imap. Qed.

(** X8. A fit stores the result of each step it ran in a sub-workspace of
    its own, [step1], [step2], ... in the order of the plan: there is one
    for each planned step, their names are pairwise distinct, and
    [finalstep] is the last of them. *)
Theorem step_workspaces_in_order data kwargs w w' out :
  basil_fit fabber mvntool diff data kwargs w = (w', inr out) →
  length (fit_step_wsps out) = length (fit_plan out)
  ∧ (∀ i sr, fit_run out !! i = Some sr →
             fit_step_wsps out !! i = Some ("step" +:+ pretty (S i), sr.2))
  ∧ NoDup (fit_step_wsps out).*1
  ∧ ∃ name, last (fit_step_wsps out) = Some (name, finalstep out).
Proof.
  unfold basil_fit. intros H.
  apply bind_inr in H as (steps & w1 & Hs & H).
  apply bind_inr in H as (ran & w2 & Hr & H).
  unfold lift in Hr. injection Hr as <- Hr.
  destruct (last ran) as [sr|] eqn:El; [|done].
  unfold ret in H. injection H as <- <-. simpl.
  apply run_chain_trace in Hr as [Hlen _].
  split; [unfold step_wsps; by rewrite length_imap|].
  split; [intros i sr' Hi; by rewrite step_wsps_lookup, Hi|]. split.
  - apply NoDup_alt. intros i j name Hi Hj.
    rewrite list_lookup_fmap, step_wsps_lookup in Hi, Hj.
    destruct (ran !! i); [|done]. destruct (ran !! j); [|done].
    simpl in Hi, Hj. injection Hi as <-. injection Hj as Hj.
    assert (pretty (S j) = pretty (S i)) as Hp by exact Hj.
    apply (inj pretty) in Hp. lia.
  - rewrite last_lookup in El. rewrite last_lookup.
    assert (length (step_wsps ran) = length ran) as ->
      by (unfold step_wsps; by rewrite length_imap).
    rewrite step_wsps_lookup, El. by eexists.
Qed.

End ChainFacts.

Lemma chain_stops_witness :
  let silent : dict → result outputs := λ _, inr ∅ in
  run_chain silent ex_mvntool None
    [FabberStep ∅ "first"; FabberStep ∅ "second"; FabberStep ∅ "third"]
  = inl (KeyError "finalMVN").
Proof.
  intros silent.
  apply (chain_stops_at_first_error silent ex_mvntool None
           [FabberStep ∅ "first"] [(FabberStep ∅ "first", ∅)]
           (FabberStep ∅ "second") [FabberStep ∅ "third"]);
    reflexivity.
Defined.

Lemma step_workspaces_witness :
  let w := ex_wsp (Some ex_data) None (Some true) (Some true) None None None
             None None None in
  ∃ w' out,
    basil_fit ex_fabber ex_mvntool id (Some ex_data) ∅ w = (w', inr out)
    ∧ (fit_step_wsps out).*1 = ["step1"; "step2"]
    ∧ ∃ name, last (fit_step_wsps out) = Some (name, finalstep out).
Proof.
  intros w.
  assert (match (basil_fit ex_fabber ex_mvntool id (Some ex_data) ∅ w).2 with
          | inr out =>
              bool_decide ((fit_step_wsps out).*1 = ["step1"; "step2"]) = true
          | inl _ => False
          end) as Hr by (vm_compute; reflexivity).
  destruct (basil_fit ex_fabber ex_mvntool id (Some ex_data) ∅ w)
    as [w' [e|out]] eqn:E.
  - destruct Hr.
  - exists w', out. split; [reflexivity|].
    split; [by apply bool_decide_eq_true in Hr|].
    by destruct (step_workspaces_in_order ex_fabber ex_mvntool id (Some ex_data)
                   ∅ w w' out E) as (_ & _ & _ & H).
Defined.

(** ** More on the top-level procedure *)

Lemma default_to_idem {A} (attr : Workspace → option A) set (v v' : A) w :
  (∀ o w, attr (set o w) = o) →
  default_to attr set v' (default_to attr set v w) = default_to attr set v w.
Proof.
  intros H. unfold default_to at 1.
  assert (given (attr (default_to attr set v w)) = true) as ->; [|done].
  unfold default_to. destruct (attr w) eqn:E; simpl; [by rewrite E|by rewrite H].
Qed.

Lemma default_to_given {A} (attr : Workspace → option A) set (v : A) w :
  given (attr w) = true → default_to attr set v w = w.
Proof. intros H. unfold default_to. by rewrite H. Qed.

Lemma single_ti_fixed a w :
  (Nat.eqb (ntis a) 1 = true → inferart w = Some false ∧ infertau w = Some false) →
  single_ti a w = w.
Proof.
  unfold single_ti. destruct (Nat.eqb (ntis a) 1); [|done].
  intros H. destruct (H eq_refl) as [Ha Ht]. destruct w. simpl in *.
  by rewrite Ha, Ht.
Qed.

(** X9. The defaults of [basil] beyond those of the mode: the blood T1 is
    1.65 and tissue inference is on unless set; bolus duration inference is
    off for data of a single inversion time and is otherwise, unless set,
    on exactly when the labelling is not continuous. Once [basil] has
    resolved the defaults, all six attributes are set, and resolving them
    again changes nothing. *)
Theorem setup_resolves_defaults a w :
  asldata w = Some a →
  ∃ w1 extra,
    basil_setup w = (w1, inr extra)
    ∧ t1b w1 = Some (default 1.65%Q (t1b w))
    ∧ infertiss w1 = Some (default true (infertiss w))
    ∧ infertau w1
      = Some (if Nat.eqb (ntis a) 1 then false
              else default (negb (truthy (casl w))) (infertau w))
    ∧ is_Some (t1 w1) ∧ is_Some (bat w1) ∧ is_Some (tau w1)
    ∧ basil_setup w1 = (w1, inr extra).
Proof.
  intros Ha. exists (setup_wsp a w), (default ∅ (basil_options w)).
  split; [by apply basil_setup_run|].
  destruct (single_ti_fields a w) as (Ewp & Ecasl & Et1 & Ebat & Etau & Ed & _ & Eo).
  assert (t1b (single_ti a w) = t1b w ∧ infertiss (single_ti a w) = infertiss w)
    as [Et1b Etiss] by (unfold single_ti; by destruct (Nat.eqb (ntis a) 1)).
  assert (t1b (setup_wsp a w) = Some (default 1.65%Q (t1b w))) as H1.
  { unfold setup_wsp. cbn zeta. keep_field t1b.
    rewrite default_to_value by done. keep_field t1b. by rewrite Et1b. }
  assert (infertiss (setup_wsp a w) = Some (default true (infertiss w))) as H2.
  { unfold setup_wsp. cbn zeta. keep_field infertiss.
    rewrite default_to_value by done. keep_field infertiss. by rewrite Etiss. }
  assert (infertau (setup_wsp a w)
          = Some (if Nat.eqb (ntis a) 1 then false
                  else default (negb (truthy (casl w))) (infertau w))) as H3.
  { unfold setup_wsp. cbn zeta. rewrite default_to_value by done.
    keep_field infertau. keep_field casl. rewrite Ecasl.
    unfold single_ti. by destruct (Nat.eqb (ntis a) 1). }
  assert (is_Some (t1 (setup_wsp a w))) as H4.
  { unfold setup_wsp. cbn zeta. keep_field t1.
    rewrite default_to_value by done. by eexists. }
  assert (is_Some (bat (setup_wsp a w))) as H5.
  { unfold setup_wsp. cbn zeta. keep_field bat.
    rewrite default_to_value by done. by eexists. }
  assert (is_Some (tau (setup_wsp a w))) as H6.
  { unfold setup_wsp. cbn zeta. keep_field tau.
    rewrite default_to_value by done. by eexists. }
  repeat (split; [done|]).
  assert (asldata (setup_wsp a w) = Some a) as Ha1.
  { destruct (setup_wsp_data a w) as [-> _]. done. }
  rewrite (basil_setup_run a _ Ha1). f_equal; [|f_equal].
  - set (w1 := setup_wsp a w) in *.
    assert (single_ti a w1 = w1) as Hs.
    { apply single_ti_fixed. intros En.
      apply (setup_wsp_single_ti a w). by apply Nat.eqb_eq. }
    unfold setup_wsp at 1. cbn zeta. rewrite Hs.
    rewrite (default_to_given t1) by (by destruct H4 as [? ->]).
    rewrite (default_to_given t1b) by (by rewrite H1).
    rewrite (default_to_given bat) by (by destruct H5 as [? ->]).
    rewrite (default_to_given tau) by (by destruct H6 as [? ->]).
    rewrite (default_to_given infertiss) by (by rewrite H2).
    rewrite (default_to_given infertau) by (by rewrite H3). done.
  - unfold setup_wsp. cbn zeta. keep_field basil_options. by rewrite Eo.
Qed.

Lemma setup_resolves_witness :
  let w := ex_wsp (Some ex_data) None None None None None None None None None in
  ∃ w1 extra,
    basil_setup w = (w1, inr extra)
    ∧ t1b w1 = Some 1.65%Q ∧ infertiss w1 = Some true ∧ infertau w1 = Some true
    ∧ basil_setup w1 = (w1, inr extra).
Proof.
  intros w.
  destruct (setup_resolves_defaults ex_data w eq_refl)
    as (w1 & extra & H0 & H1 & H2 & H3 & _ & _ & _ & H7).
  exists w1, extra. by repeat split.
Defined.

(** ** What [basil] leaves alone *)






Section Untouched.

Variable fabber : dict → result outputs.
Variable mvntool : Image → string → value → list Q → Q → Image.
Variable diff : AslImage → AslImage.






(** X11. The [basil_options] dictionary is passed to [basil_fit] as keyword
    arguments next to [wsp], [asldata] and [output_wsp]: when it has one of
    these three names as a key, the first call of [basil_fit] is a
    [TypeError]. The defaults are resolved by then, and nothing is planned
    or run. *)
Theorem reserved_option_name_is_a_type_error prefit a w :
  asldata w = Some a →
  (prefit = true → rpts a ≠ []) →
  is_Some (default ∅ (basil_options w) !! "wsp")
  ∨ is_Some (default ∅ (basil_options w) !! "asldata")
  ∨ is_Some (default ∅ (basil_options w) !! "output_wsp") →
  basil fabber mvntool diff prefit w = (setup_wsp a w, inl TypeError).
Proof.
  intros Ha Hr Hk. rewrite (basil_unfold _ _ _ _ _ _ Ha). cbn zeta.
  assert (pass_kwargs (default ∅ (basil_options w)) = inl TypeError) as Hp.
  { unfold pass_kwargs. by destruct (decide _). }
  unfold init_fit, main_fit. rewrite Hp. destruct prefit; [|done].
  destruct (rpts a) as [|x l] eqn:E; [by destruct Hr|]. simpl.
  by destruct (Z.ltb 1 (foldl Z.max x l)).
Qed.

End Untouched.


Lemma reserved_option_name_witness :
  let w := with_basil_options {["asldata" := VBool true]}
             (ex_wsp (Some ex_data) (Some ex_mean_data) (Some true) None None
                None None None None None) in
  basil ex_fabber ex_mvntool id true w = (setup_wsp ex_data w, inl TypeError).
Proof.
  intros w.
  apply (reserved_option_name_is_a_type_error ex_fabber ex_mvntool id true ex_data w
           eq_refl); [discriminate|].
  right. left. vm_compute. by eexists.
Defined.

(** ** Bounds on the initial estimates of partial volume correction *)

Section PvcBounds.

Variable mvntool : Image → string → value → list Q → Q → Image.

(** The estimates that [PvcInitStep.run] hands to [mvntool], voxel by
    voxel. *)
Lemma pvc_init_closed options desc prev vmask vpgm vpwm G W P mvn :
  options !! "mask" = Some vmask →
  options !! "pgm" = Some vpgm → data_of vpgm = inr G →
  options !! "pwm" = Some vpwm → data_of vpwm = inr W →
  prev !! "mean_ftiss" = Some P → prev !! "finalMVN" = Some mvn →
  length G = length (img_data P) → length W = length (img_data P) →
  ∃ gm,
    pvc_init_run mvntool options desc (Some prev)
    = inr (PvcInitStep options desc,
           {["finalMVN" :=
               mvntool (mvntool mvn "ftiss" vmask gm 0.1%Q) "fwm" vmask
                 ((λ g, g * wm_cbf_ratio)%Q <$> gm) 0.1%Q]})
    ∧ length gm = length (img_data P)
    ∧ ∀ i p g w,
        img_data P !! i = Some p → G !! i = Some g → W !! i = Some w →
        gm !! i
        = Some ((p - p * wm_cbf_ratio * w) / (if Qltb g 0.2 then 0.2 else g))%Q.
Proof.
  intros Hmask Hpgm HG Hpwm HW HP Hmvn LG LW.
  destruct (voxelwise_ok Qmult ((λ p, p * wm_cbf_ratio)%Q <$> img_data P) W)
    as (term & Ht & Lt & It); [by rewrite length_fmap|].
  rewrite length_fmap in Lt.
  destruct (voxelwise_ok Qminus (img_data P) term) as (numer & Hn & Ln & In);
    [done|].
  destruct (voxelwise_ok Qdiv numer (clip_pgm G)) as (gm & Hg & Lg & Ig).
  { unfold clip_pgm. rewrite length_fmap. congruence. }
  exists gm. split; [|split; [congruence|]].
  - unfold pvc_init_run, subscript, getitem.
    rewrite Hmask, Hpgm. simpl. rewrite HG. simpl. rewrite HP. simpl.
    rewrite Hpwm. simpl. rewrite HW. simpl. rewrite Ht. simpl.
    rewrite Hn. simpl. rewrite Hg. simpl. by rewrite Hmvn.
  - intros i p g w Hp Hgi Hw.
    assert (term !! i = Some (p * wm_cbf_ratio * w)%Q) as Hti.
    { apply It; [|done]. by rewrite list_lookup_fmap, Hp. }
    pose proof (In i _ _ Hp Hti) as Hni.
    assert (clip_pgm G !! i = Some (if Qltb g 0.2 then 0.2 else g)%Q) as Hci.
    { unfold clip_pgm. by rewrite list_lookup_fmap, Hgi. }
    exact (Ig i _ _ Hni Hci).
Qed.

Lemma clip_floor (g : Q) : (0.2 <= (if Qltb g 0.2 then 0.2 else g))%Q.
Proof.
  unfold Qltb. destruct (Qle_bool 0.2 g) eqn:E; simpl.
  - by apply Qle_bool_iff.
  - apply Qle_refl.
Qed.

(** X12. Because the grey matter map is raised to 0.2 before the division,
    the initial estimates stay within fixed multiples of the perfusion they
    start from: where the perfusion is not negative and the white matter
    fraction lies between 0 and 1, the grey matter estimate lies between 0
    and 5 times the perfusion and the white matter estimate between 0 and
    twice the perfusion, whatever the grey matter fraction. *)
Theorem pvc_init_estimates_bounded options desc prev vmask vpgm vpwm G W P mvn :
  options !! "mask" = Some vmask →
  options !! "pgm" = Some vpgm → data_of vpgm = inr G →
  options !! "pwm" = Some vpwm → data_of vpwm = inr W →
  prev !! "mean_ftiss" = Some P → prev !! "finalMVN" = Some mvn →
  length G = length (img_data P) → length W = length (img_data P) →
  ∃ gm wm,
    pvc_init_run mvntool options desc (Some prev)
    = inr (PvcInitStep options desc,
           {["finalMVN" := mvntool (mvntool mvn "ftiss" vmask gm 0.1%Q)
                             "fwm" vmask wm 0.1%Q]})
    ∧ ∀ i p w,
        img_data P !! i = Some p → W !! i = Some w →
        (0 <= p)%Q → (0 <= w)%Q → (w <= 1)%Q →
        ∃ x y, gm !! i = Some x ∧ wm !! i = Some y
               ∧ (0 <= x)%Q ∧ (x <= 5 * p)%Q ∧ (0 <= y)%Q ∧ (y <= 2 * p)%Q.
Proof.
  intros Hmask Hpgm HG Hpwm HW HP Hmvn LG LW.
  destruct (pvc_init_closed options desc prev vmask vpgm vpwm G W P mvn)
    as (gm & Hrun & Lgm & Hgm); try done.
  exists gm, ((λ g, g * wm_cbf_ratio)%Q <$> gm). split; [exact Hrun|].
  intros i p w Hp Hw Hp0 Hw0 Hw1.
  destruct (lookup_lt_is_Some_2 G i) as [g Hg].
  { rewrite LG. by eapply lookup_lt_Some. }
  specialize (Hgm i p g w Hp Hg Hw).
  eexists _, _. split; [exact Hgm|]. split; [by rewrite list_lookup_fmap, Hgm|].
  pose proof (clip_floor g) as Hc.
  set (c := (if Qltb g 0.2 then 0.2 else g)%Q) in *.
  unfold wm_cbf_ratio.
  assert (0 < c)%Q as Hc0 by lra.
  assert (0 <= p - p * 0.4 * w)%Q as Hn0 by nra.
  assert (p - p * 0.4 * w <= p)%Q as Hn1 by nra.
  assert (0 <= (p - p * 0.4 * w) / c)%Q as Hx0.
  { apply Qle_shift_div_l; [done|]. lra. }
  assert ((p - p * 0.4 * w) / c <= 5 * p)%Q as Hx1.
  { apply Qle_shift_div_r; [done|]. nra. }
  repeat split; [done|done|lra|lra].
Qed.

End PvcBounds.

Lemma pvc_init_bounded_witness :
  let options :=
    pvc_init_options
      (ex_wsp (Some ex_data) None (Some true) None None None None None
         (Some ex_gm) (Some ex_wm)) ex_data in
  let P := ex_image "mean_ftiss" [50%Q; 50%Q] in
  let mvn := ex_image "finalMVN" [1%Q] in
  let prev : outputs := {["finalMVN" := mvn; "mean_ftiss" := P]} in
  ∃ gm wm,
    pvc_init_run ex_mvntool options "PVC initialisation" (Some prev)
    = inr (PvcInitStep options "PVC initialisation",
           {["finalMVN" := ex_mvntool (ex_mvntool mvn "ftiss" VNone gm 0.1%Q)
                             "fwm" VNone wm 0.1%Q]})
    ∧ ∃ x y, gm !! 1 = Some x ∧ wm !! 1 = Some y
             ∧ (0 <= x)%Q ∧ (x <= 5 * 50)%Q ∧ (0 <= y)%Q ∧ (y <= 2 * 50)%Q.
Proof.
  intros options P mvn prev.
  destruct (pvc_init_estimates_bounded ex_mvntool options "PVC initialisation"
              prev VNone (VImage ex_gm) (VImage ex_wm) (img_data ex_gm)
              (img_data ex_wm) P mvn) as (gm & wm & Hrun & Hb);
    try (vm_compute; reflexivity).
  exists gm, wm. split; [exact Hrun|].
  apply (Hb 1 50%Q 0.5%Q); try reflexivity; by vm_compute.
Defined.

(** * The options file of the command line (main)

    [main] reads additional engine options from a text file, one to a line,
    into [wsp.basil_options]. Lines are strings of code points below 256. *)

(** [str.isspace] on a code point below 256. *)
Definition is_space (c : Ascii.ascii) : bool :=
  let n := Ascii.nat_of_ascii c in
  (Nat.leb 9 n && Nat.leb n 13) || (Nat.leb 28 n && Nat.leb n 31)
  || Nat.eqb n 32 || Nat.eqb n 133 || Nat.eqb n 160.

Definition is_char (d : Ascii.ascii) (c : Ascii.ascii) : bool := Ascii.eqb c d.

Definition newline : Ascii.ascii := Ascii.ascii_of_nat 10.
Definition dash : Ascii.ascii := Ascii.ascii_of_nat 45.
Definition underscore : Ascii.ascii := Ascii.ascii_of_nat 95.
Definition equals : Ascii.ascii := Ascii.ascii_of_nat 61.

(** [s.lstrip(chars)] and [s.rstrip(chars)], the set of characters given as
    a predicate. *)
Fixpoint lstrip_by (p : Ascii.ascii → bool) (s : string) : string :=
  match s with
  | EmptyString => EmptyString
  | String c s' => if p c then lstrip_by p s' else s
  end.

Fixpoint rstrip_by (p : Ascii.ascii → bool) (s : string) : string :=
  match s with
  | EmptyString => EmptyString
  | String c s' =>
      match rstrip_by p s' with
      | EmptyString => if p c then EmptyString else String c EmptyString
      | r => String c r
      end
  end.

(** [s.strip()]. *)
Definition strip (s : string) : string := rstrip_by is_space (lstrip_by is_space s).

(** [s.split("=", 1)]: the part before the first [=], and the part after it
    if there is one. *)
Fixpoint split_equals (s : string) : string * option string :=
  match s with
  | EmptyString => (EmptyString, None)
  | String c s' =>
      if Ascii.eqb c equals then (EmptyString, Some s')
      else let '(k, v) := split_equals s' in (String c k, v)
  end.

(** [s.replace("-", "_")]. *)
Fixpoint replace_dash (s : string) : string :=
  match s with
  | EmptyString => EmptyString
  | String c s' =>
      String (if Ascii.eqb c dash then underscore else c) (replace_dash s')
  end.

(** One round of the loop over the lines of the file: the entry that the
    line adds to [wsp.basil_options], if any. *)
Definition parse_line (line : string) : option (string * value) :=
  let keyval :=
    split_equals (lstrip_by (is_char dash) (rstrip_by (is_char newline) (strip line))) in
  let key := replace_dash (strip keyval.1) in
  if decide (key = EmptyString) then None
  else Some (key, match keyval.2 with
                  | None => VBool true
                  | Some v => VStr (strip v)
                  end).

(** [wsp.basil_options] after the loop. *)
Definition read_optfile (lines : list string) : dict :=
  foldl (λ options line,
           match parse_line line with
           | Some (key, v) => <[key := v]> options
           | None => options
           end) ∅ lines.

(** A character occurs in a string. *)
Fixpoint occurs (c : Ascii.ascii) (s : string) : bool :=
  match s with
  | EmptyString => false
  | String c' s' => Ascii.eqb c' c || occurs c s'
  end.

Lemma replace_dash_no_dash s : occurs dash (replace_dash s) = false.
Proof.
  induction s as [|c s IH]; [done|]. simpl. rewrite IH, orb_false_r.
  destruct (Ascii.eqb c dash) eqn:E; [done|exact E].
Qed.

Lemma parse_line_key line key v :
  parse_line line = Some (key, v) →
  key ≠ EmptyString ∧ occurs dash key = false
  ∧ (is_Some (match v with VStr _ => Some tt | _ => None end) ∨ v = VBool true).
Proof.
  unfold parse_line. cbn zeta. destruct (decide _) as [|Hne]; [done|].
  intros [= <- <-]. split; [done|]. split; [apply replace_dash_no_dash|].
  destruct (split_equals _).2; [left; by eexists|by right].
Qed.

Lemma read_optfile_keys lines :
  ∀ k, is_Some (read_optfile lines !! k) →
       k ≠ EmptyString ∧ occurs dash k = false.
Proof.
  unfold read_optfile.
  assert (∀ (o : dict),
    (∀ k, is_Some (o !! k) → k ≠ EmptyString ∧ occurs dash k = false) →
    ∀ k, is_Some (foldl (λ options line,
                           match parse_line line with
                           | Some (key, v) => <[key := v]> options
                           | None => options
                           end) o lines !! k) →
         k ≠ EmptyString ∧ occurs dash k = false) as H.
  { induction lines as [|line lines IH]; intros o Ho k; simpl; [apply Ho|].
    apply IH. intros k'. destruct (parse_line line) as [[key v]|] eqn:E; [|apply Ho].
    rewrite lookup_insert_is_Some'. intros [<-|Hk]; [|by apply Ho].
    by destruct (parse_line_key _ _ _ E) as (? & ? & _). }
  apply H. intros k [v Hv]. by rewrite lookup_empty in Hv.
Qed.

(** No whitespace at either end. *)
Definition trimmed (s : string) : Prop :=
  lstrip_by is_space s = s ∧ rstrip_by is_space s = s.

Lemma strip_trimmed s : trimmed s → strip s = s.
Proof. intros [Hl Hr]. unfold strip. by rewrite Hl, Hr. Qed.

Lemma rstrip_by_app p a b :
  rstrip_by p b = b → b ≠ EmptyString → rstrip_by p (a +:+ b) = a +:+ b.
Proof.
  intros Hb Hne. induction a as [|c a IH]; [done|].
  change (String c a +:+ b) with (String c (a +:+ b)). simpl. rewrite IH.
  destruct (a +:+ b) eqn:E; [|done].
  destruct a; simpl in E; [by subst|done].
Qed.

Lemma rstrip_by_tail p c s :
  rstrip_by p (String c s) = String c s → rstrip_by p s = s.
Proof.
  simpl. destruct (rstrip_by p s) eqn:E.
  - destruct (p c); [done|]. by intros [= <-].
  - by intros [= <-].
Qed.

Lemma rstrip_by_cons p c s :
  rstrip_by p s = s → p c = false → rstrip_by p (String c s) = String c s.
Proof.
  intros Hs Hc. simpl. rewrite Hs. destruct s; [by rewrite Hc|done].
Qed.

Lemma rstrip_by_weaken (p q : Ascii.ascii → bool) s :
  (∀ c, q c = true → p c = true) → rstrip_by p s = s → rstrip_by q s = s.
Proof.
  intros Hpq. induction s as [|c s IH]; [done|]. intros H.
  pose proof (rstrip_by_tail _ _ _ H) as Hs. simpl in H. rewrite Hs in H.
  simpl. rewrite (IH Hs). destruct s; [|done].
  destruct (p c) eqn:Ep; [done|]. destruct (q c) eqn:Eq; [|done].
  apply Hpq in Eq. congruence.
Qed.

Lemma lstrip_by_length p s : (String.length (lstrip_by p s) ≤ String.length s)%nat.
Proof.
  induction s as [|c s IH]; simpl; [done|]. destruct (p c); simpl; lia.
Qed.

Lemma lstrip_by_app p k b :
  lstrip_by p k = k → k ≠ EmptyString → lstrip_by p (k +:+ b) = k +:+ b.
Proof.
  destruct k as [|c k]; [done|]. simpl. intros H _.
  destruct (p c); [|done]. exfalso.
  pose proof (lstrip_by_length p k) as Hl. rewrite H in Hl. simpl in Hl. lia.
Qed.

Lemma split_equals_app k v :
  occurs equals k = false →
  split_equals (k +:+ String equals v) = (k, Some v).
Proof.
  induction k as [|c k IH]; simpl.
  - intros _. reflexivity.
  - intros H. apply orb_false_elim in H as [Hc Hk]. rewrite Hc, (IH Hk). done.
Qed.

Lemma split_equals_none k :
  occurs equals k = false → split_equals k = (k, None).
Proof.
  induction k as [|c k IH]; simpl; [done|].
  intros H. apply orb_false_elim in H as [Hc Hk]. by rewrite Hc, (IH Hk).
Qed.

Lemma replace_dash_empty k : replace_dash k = EmptyString → k = EmptyString.
Proof. by destruct k. Qed.

(** X13. Whatever the file holds, the dictionary read from it has no empty
    key and no key with a hyphen (hyphens are turned into underscores), and
    each of its values is [True] or a string. *)
Theorem optfile_keys_have_no_hyphen lines k v :
  read_optfile lines !! k = Some v →
  k ≠ EmptyString ∧ occurs dash k = false
  ∧ (v = VBool true ∨ ∃ s, v = VStr s).
Proof.
  intros Hv. destruct (read_optfile_keys lines k) as [H1 H2]; [by eexists|].
  split; [done|]. split; [done|].
  revert Hv. unfold read_optfile.
  assert (∀ (o : dict),
    (∀ k v, o !! k = Some v → v = VBool true ∨ ∃ s, v = VStr s) →
    foldl (λ options line,
             match parse_line line with
             | Some (key, v) => <[key := v]> options
             | None => options
             end) o lines !! k = Some v →
    v = VBool true ∨ ∃ s, v = VStr s) as H.
  { induction lines as [|line lines IH]; intros o Ho; simpl; [apply Ho|].
    apply IH. intros k' v'. destruct (parse_line line) as [[key x]|] eqn:E;
      [|apply Ho].
    destruct (decide (key = k')) as [->|Hne].
    - rewrite lookup_insert_eq. intros [= <-].
      unfold parse_line in E. cbn zeta in E. destruct (decide _); [done|].
      injection E as _ <-. destruct (split_equals _).2; eauto.
    - rewrite lookup_insert_ne by done. apply Ho. }
  apply H. intros k' v'. by rewrite lookup_empty.
Qed.

(** X14. The two forms of a line. For a key without whitespace at its ends,
    without [=] and not starting with a hyphen, and a value without
    whitespace at its ends, the line [--key=value] sets the key, hyphens
    turned into underscores, to the string [value], and the line [--key]
    sets it to [True]. *)
Theorem parse_line_forms k v :
  k ≠ EmptyString → trimmed k → lstrip_by (is_char dash) k = k →
  occurs equals k = false → trimmed v →
  parse_line ("--" +:+ k +:+ String equals v) = Some (replace_dash k, VStr v)
  ∧ parse_line ("--" +:+ k) = Some (replace_dash k, VBool true).
Proof.
  intros Hne [Hkl Hkr] Hd He [Hvl Hvr].
  assert (∀ c, is_char newline c = true → is_space c = true) as Hnl.
  { intros c Hc. apply Ascii.eqb_eq in Hc as ->. reflexivity. }
  assert (replace_dash k ≠ EmptyString) as Hrk
    by (intros E; by apply replace_dash_empty in E).
  assert (∀ b, k +:+ b ≠ EmptyString) as Hkb by (intros b; by destruct k).
  assert (∀ p b, rstrip_by p k = k → rstrip_by p b = b → b ≠ EmptyString →
            rstrip_by p ("--" +:+ k +:+ b) = "--" +:+ k +:+ b) as Hr2.
  { intros p b Hk Hb Hbne. apply rstrip_by_app; [|apply Hkb].
    by apply rstrip_by_app. }
  assert (∀ p, rstrip_by p k = k → rstrip_by p ("--" +:+ k) = "--" +:+ k) as Hr1.
  { intros p Hk. by apply rstrip_by_app. }
  split; unfold parse_line; cbn zeta.
  - assert (strip ("--" +:+ k +:+ String equals v)
            = "--" +:+ k +:+ String equals v) as ->.
    { unfold strip.
      change (lstrip_by is_space ("--" +:+ k +:+ String equals v))
        with ("--" +:+ k +:+ String equals v).
      apply Hr2; [done| |done]. by apply rstrip_by_cons. }
    rewrite Hr2;
      [|by apply (rstrip_by_weaken is_space)
       |apply rstrip_by_cons; [by apply (rstrip_by_weaken is_space)|done]
       |done].
    change (lstrip_by (is_char dash) ("--" +:+ k +:+ String equals v))
      with (lstrip_by (is_char dash) (k +:+ String equals v)).
    rewrite lstrip_by_app by done. rewrite split_equals_app by done. simpl.
    rewrite (strip_trimmed k) by done. rewrite (strip_trimmed v) by done.
    by destruct (decide _).
  - assert (strip ("--" +:+ k) = "--" +:+ k) as ->.
    { unfold strip. change (lstrip_by is_space ("--" +:+ k)) with ("--" +:+ k).
      by apply Hr1. }
    rewrite Hr1 by by apply (rstrip_by_weaken is_space).
    change (lstrip_by (is_char dash) ("--" +:+ k))
      with (lstrip_by (is_char dash) k).
    rewrite Hd, split_equals_none by done. simpl.
    rewrite (strip_trimmed k) by done. by destruct (decide _).
Qed.

Lemma optfile_keys_witness :
  read_optfile ["--save-model-fit"; "  --max_iterations = 5 "; ""; "# note"]
    !! "save_model_fit" = Some (VBool true)
  ∧ occurs dash "save_model_fit" = false.
Proof.
  assert (read_optfile ["--save-model-fit"; "  --max_iterations = 5 "; ""; "# note"]
            !! "save_model_fit" = Some (VBool true)) as H
    by (vm_compute; reflexivity).
  split; [exact H|].
  exact (proj1 (proj2 (optfile_keys_have_no_hyphen _ _ _ H))).
Defined.

Lemma parse_line_forms_witness :
  parse_line "--max-iterations=5" = Some ("max_iterations", VStr "5")
  ∧ parse_line "--max-iterations" = Some ("max_iterations", VBool true).
Proof.
  apply (parse_line_forms "max-iterations" "5"); try done; by split.
Defined.

Lemma optfile_no_hyphen_key lines k :
  occurs dash k = true → read_optfile lines !! k = None.
Proof.
  intros Hk. destruct (read_optfile lines !! k) as [v|] eqn:E; [|done].
  destruct (read_optfile_keys lines k) as [_ H]; [by eexists|]. congruence.
Qed.

Section OptfilePlan.

Variable diff : AslImage → AslImage.

(** X15. Engine options with a hyphen in their name cannot be set from the
    options file, since its keys are rewritten with underscores: whatever
    the file holds, every Fabber configuration planned with the options
    read from it has [allow-bad-voxels], [save-mean], [save-mvn] and
    [save-std] at their default [True], and no [continue-from-mvn] unless
    the workspace has an initial posterior. *)
Theorem optfile_cannot_set_hyphenated_options lines a0 w w' plan :
  basil_steps diff (Some a0) (read_optfile lines) w = (w', inr plan) →
  ∀ s, s ∈ plan → is_fabber s = true →
    step_options s !! "allow-bad-voxels" = Some (VBool true)
    ∧ step_options s !! "save-mean" = Some (VBool true)
    ∧ step_options s !! "save-mvn" = Some (VBool true)
    ∧ step_options s !! "save-std" = Some (VBool true)
    ∧ (initmvn w = None → step_options s !! "continue-from-mvn" = None).
Proof.
  intros H s Hs Hfab.
  destruct (basil_steps_timed _ _ _ _ _ _ H) as [timed Ht].
  destruct (plan_initial_posterior _ _ _ _ _ _ H) as [_ Hcfm].
  apply basil_steps_inv in H as (a1 & [= <-] & -> & _ & Hf).
  assert (∀ k, planner_key k = false → occurs dash k = true →
            starts_with "ti" k = false → starts_with "rpt" k = false →
            key_in k ["t1"; "t1b"; "bat"; "tau"; "casl"; "slicedt"; "sliceband";
                      "FA"; "mask"] = false →
            step_options s !! k = default_options (diff a0) !! k) as Hkeep.
  { intros k Hk Hd Hti Hrpt Ha.
    pose proof (plan_keeps diff _ _ _ _ k Hf (planner_key_writes _ _ _ _ _ Hk))
      as Hall.
    rewrite Forall_forall in Hall. rewrite (Hall s Hs Hfab).
    rewrite (base_options_default diff a0 _ w timed) by done.
    by rewrite optfile_no_hyphen_key. }
  rewrite !Hkeep by done. repeat split.
  intros Hi. rewrite (Hcfm s Hs Hfab), Hi. by apply optfile_no_hyphen_key.
Qed.

End OptfilePlan.

Lemma optfile_plan_witness :
  let lines := ["--save-mvn=False"; "--continue-from-mvn=other"] in
  let w := ex_wsp (Some ex_data) None (Some true) None None None None None
             None None in
  ∃ plan,
    basil_steps id (Some ex_data) (read_optfile lines) w = (w, inr plan)
    ∧ ∀ s, s ∈ plan → is_fabber s = true →
           step_options s !! "save-mvn" = Some (VBool true)
           ∧ step_options s !! "continue-from-mvn" = None
           ∧ step_options s !! "save_mvn" = Some (VStr "False").
Proof.
  intros lines w.
  assert (match (basil_steps id (Some ex_data) (read_optfile lines) w).2 with
          | inr plan =>
              forallb (λ s, match step_options s !! "save_mvn" with
                            | Some (VStr v) => String.eqb v "False"
                            | _ => false
                            end) plan = true
          | inl _ => False
          end) as Hr by (vm_compute; reflexivity).
  destruct (basil_steps id (Some ex_data) (read_optfile lines) w)
    as [w' [e|plan]] eqn:E.
  - destruct Hr.
  - assert (w' = w) as -> by (by apply basil_steps_inv in E as (? & _ & -> & _)).
    exists plan. split; [reflexivity|]. intros s Hs Hf.
    destruct (optfile_cannot_set_hyphenated_options id lines ex_data w w plan E
                s Hs Hf) as (_ & _ & H3 & _ & H5).
    split; [exact H3|]. split; [by apply H5|].
    simpl in Hr. rewrite forallb_forall in Hr.
    specialize (Hr s (proj1 (list_elem_of_In _ _) Hs)).
    destruct (step_options s !! "save_mvn") as [[]|]; try discriminate Hr.
    by apply String.eqb_eq in Hr as ->.
Defined.
